(** * kube-tagger: the reconciliation loop of [main.go]

    A shallow embedding of [main.go]: the event loop of [main], the claim
    filter [isEBSVolume], the reconciler [addAWSTags] with [hasTag] and
    [setTag], and the volume-identifier decomposition [splitVol], together
    with the parts of the Go runtime they lean on ([strings.Split], the
    regular expression [[a-z]$], nil dereference, slice indexing, [log.Fatal]).

    Go strings are byte strings ([string]); Go maps are [gmap]; the Kubernetes
    and EC2 clients are an interface ([Backend]) whose answers the program
    cannot predict; counters, the request context and everything the process
    emits (log entries, API calls) live in an explicit state. *)

From Stdlib Require Import Ascii NArith Lia.
From stdpp Require Import base option list strings gmap fin_maps.

Local Open Scope N_scope.
Local Open Scope nat_scope.

(** ** Go strings *)

Module GoStrings.

(** [len(s)], in bytes. *)
Definition len (s : string) : nat := String.length s.

(** [strings.HasPrefix(s, p)]. *)
Fixpoint HasPrefix (s p : string) {struct p} : bool :=
  match p, s with
  | EmptyString, _ => true
  | String _ _, EmptyString => false
  | String a p', String b s' => if Ascii.eqb a b then HasPrefix s' p' else false
  end.

(** [strings.Count(s, string(c))] for a one-byte separator. *)
Fixpoint CountByte (c : ascii) (s : string) : nat :=
  match s with
  | EmptyString => 0
  | String b s' => (if Ascii.eqb b c then 1 else 0) + CountByte c s'
  end.

(** Put byte [c] in front of the first piece of [ps]. *)
Definition consHead (c : ascii) (ps : list string) : list string :=
  match ps with
  | [] => [String c EmptyString]
  | p :: ps' => String c p :: ps'
  end.

(** The loop of [genSplit] for a non-empty separator: cut at the leftmost
    occurrence of [sep], drop the separator, go on with the rest; the last
    piece is what remains.  [skip] counts the bytes of a separator found
    one step earlier that are still to be dropped. *)
Fixpoint splitFrom (sep : string) (skip : nat) (s : string) : list string :=
  match s with
  | EmptyString => [EmptyString]
  | String c s' =>
      match skip with
      | S k => splitFrom sep k s'
      | O =>
          if HasPrefix s sep
          then EmptyString :: splitFrom sep (len sep - 1) s'
          else consHead c (splitFrom sep 0 s')
      end
  end.

(** [utf8.DecodeRuneInString]: the width in bytes of the first UTF-8
    sequence of a non-empty string; an invalid or truncated sequence has
    width 1. *)
Definition byteAt (s : string) (i : nat) : option N :=
  match String.get i s with
  | Some c => Some (N_of_ascii c)
  | None => None
  end.

Definition inRange (lo hi : N) (b : option N) : bool :=
  match b with
  | Some x => (lo <=? x)%N && (x <=? hi)%N
  | None => false
  end.

Definition cont (b : option N) : bool := inRange 128 191 b.

Definition runeWidth (s : string) : nat :=
  match byteAt s 0 with
  | None => 0
  | Some b0 =>
      let s1 := byteAt s 1 in
      let s2 := byteAt s 2 in
      let s3 := byteAt s 3 in
      if (b0 <? 194)%N then 1                           (* ASCII, stray 0x80..0xC1 *)
      else if (b0 <? 224)%N then                         (* 0xC2..0xDF *)
        if cont s1 then 2 else 1
      else if (b0 <? 240)%N then                         (* 0xE0..0xEF *)
        let lo := if (b0 =? 224)%N then 160%N else 128%N in
        let hi := if (b0 =? 237)%N then 159%N else 191%N in
        if inRange lo hi s1 && cont s2 then 3 else 1
      else if (b0 <? 245)%N then                         (* 0xF0..0xF4 *)
        let lo := if (b0 =? 240)%N then 144%N else 128%N in
        let hi := if (b0 =? 244)%N then 143%N else 191%N in
        if inRange lo hi s1 && cont s2 && cont s3 then 4 else 1
      else 1                                             (* 0xF5..0xFF *)
  end.

(** [explode(s, -1)]: one piece per UTF-8 sequence, invalid bytes sliced
    one by one.  [k] is the number of bytes of the current sequence still
    to be read. *)
Fixpoint explodeFrom (k : nat) (s : string) : list string :=
  match s with
  | EmptyString => []
  | String c s' =>
      let k' := match k with O => runeWidth s - 1 | S j => j end in
      match k' with
      | O => String c EmptyString :: explodeFrom 0 s'
      | S _ => consHead c (explodeFrom k' s')
      end
  end.

Definition explode (s : string) : list string := explodeFrom 0 s.

(** [strings.Join(ps, string(c))]. *)
Fixpoint Join (c : ascii) (ps : list string) : string :=
  match ps with
  | [] => EmptyString
  | [p] => p
  | p :: ps' => String.append p (String c (Join c ps'))
  end.

(** [strings.Split(s, sep)]. *)
Definition Split (s sep : string) : list string :=
  match sep with
  | EmptyString => explode s
  | String _ _ => splitFrom sep 0 s
  end.

(** [regexp.MustCompile(`[a-z]$`)]: the byte class [[a-z]]. *)
Definition isLowerAZ (c : ascii) : bool :=
  let n := N_of_ascii c in (97 <=? n)%N && (n <=? 122)%N.

(** [re.ReplaceAllString(s, "")] for [re = `[a-z]$`].  Without the [m] flag
    [$] is the end of the text, so the only possible match is the last
    byte of [s]. *)
Fixpoint ReplaceTrailingLower (s : string) : string :=
  match s with
  | EmptyString => EmptyString
  | String c EmptyString => if isLowerAZ c then EmptyString else s
  | String c s' => String c (ReplaceTrailingLower s')
  end.

End GoStrings.

Import GoStrings.


(** ** Partial operations of the Go runtime *)

(** What a Go [panic] carries. *)
Inductive PanicValue :=
  | NilDereference
  | IndexOutOfRange (index length : nat)
  | PanicError (err : string).

Inductive Partial (A : Type) :=
  | Done (a : A)
  | Crash (p : PanicValue).
Arguments Done {A} a.
Arguments Crash {A} p.

(** [xs[i]]. *)
Definition index {A} (xs : list A) (i : nat) : Partial A :=
  match xs !! i with
  | Some x => Done x
  | None => Crash (IndexOutOfRange i (length xs))
  end.

(** [*p]. *)
Definition deref {A} (p : option A) : Partial A :=
  match p with
  | Some x => Done x
  | None => Crash NilDereference
  end.

(** ** Volume identifier decomposition *)

(** [splitVol]: the zone is [sp[2]] without its trailing lower-case letter,
    the volume id is [sp[3]]; the indexing is not guarded. *)
Definition splitVol (vol : string) : Partial (string * string) :=
  let sp := Split vol "/" in
  match index sp 2 with
  | Crash p => Crash p
  | Done sp2 =>
      let zone := ReplaceTrailingLower sp2 in
      match index sp 3 with
      | Crash p => Crash p
      | Done sp3 => Done (zone, sp3)
      end
  end.


(** ** Objects of the two APIs *)

(** [v1.PersistentVolumeClaim], the fields [main] reads. *)
Record PersistentVolumeClaim := {
  Namespace : string;
  Name : string;
  Annotations : gmap string string;
  VolumeName : string                       (* Spec.VolumeName *)
}.

Record AWSElasticBlockStoreVolumeSource := { VolumeID : string }.

(** [v1.PersistentVolume]: [Spec.PersistentVolumeSource.AWSElasticBlockStore]
    is a pointer, nil for a volume of another kind. *)
Record PersistentVolume := {
  AWSElasticBlockStore : option AWSElasticBlockStoreVolumeSource
}.

(** [watch.EventType]. *)
Inductive EventType := Added | Modified | Deleted | Bookmark | ErrorEvent.

(** [event.Object]: a claim, or a value of another dynamic type. *)
Inductive Object :=
  | ClaimObject (pvc : PersistentVolumeClaim)
  | OtherObject.

Record Event := { Type_ : EventType; Object_ : Object }.

(** [ec2.Tag]: both fields are [*string]. *)
Record Tag := { Key : option string; Value : option string }.

(** [ec2.Volume] and [ec2.DescribeVolumesOutput]; the slices hold pointers. *)
Record Volume := { Tags : list (option Tag) }.
Record DescribeVolumesOutput := { Volumes : list (option Volume) }.

(** [ec2.CreateTagsInput]. *)
Record CreateTagsInput := {
  Resources : list string;
  NewTags : list (string * string)
}.

(** An [error] value, by its message. *)
Definition error := string.

Inductive Res (A : Type) :=
  | OK (a : A)
  | Err (e : error).
Arguments OK {A} a.
Arguments Err {A} e.

(** The clients the process talks to.  [W] is the state of the world outside
    the process; every call may change it and may fail. *)
Class Backend (W : Type) := {
  (** [clientset.CoreV1().PersistentVolumes().Get(name, ...)] *)
  GetPersistentVolume : string -> W -> Res PersistentVolume * W;
  (** [session.NewSession(&aws.Config{Region: ...})] *)
  NewSession : string -> W -> Res unit;
  (** [svc.DescribeVolumes(params)], for the client of a region *)
  DescribeVolumes : string -> list string -> W -> Res DescribeVolumesOutput * W;
  (** [svc.CreateTags(tags)], for the client of a region *)
  CreateTags : string -> CreateTagsInput -> W -> Res unit * W
}.

(** ** Process state *)

(** The Prometheus counters, by number of [Inc()] calls. *)
Record Counters := {
  eventsProcessed : nat;
  tagsAdded : nat;
  tagsExisting : nat;
  volumesTagged : nat;
  processingErrors : nat
}.

Definition zeroCounters : Counters := Build_Counters 0 0 0 0 0.

(** The values [main] stores in the [context.Context]. *)
Record Ctx := {
  ns : option string;
  pvcname : option string;
  volname : option string
}.

Definition Background : Ctx := Build_Ctx None None None.

Inductive Level := DebugLevel | InfoLevel | WarnLevel | ErrorLevel | FatalLevel.

(** How grave a level is, from debug up. *)
Definition severity (l : Level) : nat :=
  match l with
  | DebugLevel => 0
  | InfoLevel => 1
  | WarnLevel => 2
  | ErrorLevel => 3
  | FatalLevel => 4
  end.

(** The level of the standard logger.  The program logs through it and
    never sets its level, so it is the one logrus starts with. *)
Definition loggerLevel : Level := InfoLevel.

(** [logger.IsLevelEnabled(level)]: an entry is written when its level is
    at least as grave as the logger's. *)
Definition IsLevelEnabled (l : Level) : bool := severity loggerLevel <=? severity l.

(** A [logrus.Entry]: its fields and the error attached by [WithError]. *)
Record Entry := {
  Data : list (string * string);
  EntryErr : option error
}.

(** What the process does that the outside can see, in order. *)
Inductive Obs :=
  | Logged (level : Level) (e : Entry) (message : string)
  | KubeGetPersistentVolume (name : string)
  | Ec2DescribeVolumes (region : string) (volumeIds : list string)
  | Ec2CreateTags (region : string) (input : CreateTagsInput).

Record State (W : Type) := {
  world : W;
  metrics : Counters;
  trace : list Obs
}.
Arguments world {W} _.
Arguments metrics {W} _.
Arguments trace {W} _.
Arguments Build_State {W} _ _ _.

(** The command-line flags the loop reads. *)
Record Flags := { debug : bool; dryrun : bool }.

(** ** The process as a state and failure monad *)

(** How a computation ends: with a value, by [os.Exit] (what [log.Fatal]
    does after writing its entry), or by a panic nobody recovers. *)
Inductive Outcome (W A : Type) :=
  | Return (a : A) (s : State W)
  | Exit (code : nat) (s : State W)
  | Panicked (p : PanicValue) (s : State W).
Arguments Return {W A} a s.
Arguments Exit {W A} code s.
Arguments Panicked {W A} p s.

Definition M (W A : Type) : Type := State W -> Outcome W A.

Definition final {W A} (o : Outcome W A) : State W :=
  match o with
  | Return _ s | Exit _ s | Panicked _ s => s
  end.

Global Instance M_ret {W} : MRet (M W) := fun A a s => Return a s.

Global Instance M_bind {W} : MBind (M W) := fun A B f m s =>
  match m s with
  | Return a s' => f a s'
  | Exit c s' => Exit c s'
  | Panicked p s' => Panicked p s'
  end.

Definition incEventsProcessed (c : Counters) : Counters :=
  Build_Counters (S (eventsProcessed c)) (tagsAdded c) (tagsExisting c)
                 (volumesTagged c) (processingErrors c).
Definition incTagsAdded (c : Counters) : Counters :=
  Build_Counters (eventsProcessed c) (S (tagsAdded c)) (tagsExisting c)
                 (volumesTagged c) (processingErrors c).
Definition incTagsExisting (c : Counters) : Counters :=
  Build_Counters (eventsProcessed c) (tagsAdded c) (S (tagsExisting c))
                 (volumesTagged c) (processingErrors c).
Definition incVolumesTagged (c : Counters) : Counters :=
  Build_Counters (eventsProcessed c) (tagsAdded c) (tagsExisting c)
                 (S (volumesTagged c)) (processingErrors c).
Definition incProcessingErrors (c : Counters) : Counters :=
  Build_Counters (eventsProcessed c) (tagsAdded c) (tagsExisting c)
                 (volumesTagged c) (S (processingErrors c)).

Section Process.

Context {W : Type} `{Backend W}.

(** [counter.Inc()]. *)
Definition Inc (f : Counters -> Counters) : M W unit := fun s =>
  Return () (Build_State (world s) (f (metrics s)) (trace s)).

Definition emit (o : Obs) : M W unit := fun s =>
  Return () (Build_State (world s) (metrics s) (trace s ++ [o])).

(** A call to one of the clients: noted, then answered by the world. *)
Definition call {A} (o : Obs) (f : W -> Res A * W) : M W (Res A) := fun s =>
  let '(r, w) := f (world s) in
  Return r (Build_State w (metrics s) (trace s ++ [o])).

Definition run {A} (p : Partial A) : M W A := fun s =>
  match p with
  | Done a => Return a s
  | Crash v => Panicked v s
  end.

Definition panic {A} (e : error) : M W A := fun s => Panicked (PanicError e) s.

(** [logWithCtx]: an entry with the fields found in the context. *)
Definition ctxField (name : string) (v : option string) : list (string * string) :=
  match v with
  | Some x => [(name, x)]
  | None => []
  end.

Definition logWithCtx (ctx : Ctx) : Entry :=
  {| Data := ctxField "namespace" (ns ctx) ++
             ctxField "volumeClaimName" (pvcname ctx) ++
             ctxField "volumeName" (volname ctx);
     EntryErr := None |}.

Definition WithError (e : error) (entry : Entry) : Entry :=
  {| Data := Data entry; EntryErr := Some e |}.

Definition WithFields (fields : list (string * string)) (entry : Entry) : Entry :=
  {| Data := Data entry ++ fields; EntryErr := EntryErr entry |}.

(** [entry.Debugf]: below the level of the logger, so the entry is
    dropped; the entries at the other levels are written. *)
Definition Debugf (entry : Entry) (msg : string) : M W unit :=
  if IsLevelEnabled DebugLevel then emit (Logged DebugLevel entry msg) else mret ().
Definition Info (entry : Entry) (msg : string) : M W unit := emit (Logged InfoLevel entry msg).
Definition Warn (entry : Entry) (msg : string) : M W unit := emit (Logged WarnLevel entry msg).
Definition Error (entry : Entry) (msg : string) : M W unit := emit (Logged ErrorLevel entry msg).

(** [entry.Fatal]: write the entry, then [os.Exit(1)]. *)
Definition Fatal {A} (entry : Entry) (msg : string) : M W A := fun s =>
  Exit 1 (Build_State (world s) (metrics s) (trace s ++ [Logged FatalLevel entry msg])).

Variable flags : Flags.

(** [isEBSVolume]: the loop over the annotations, in the order the map
    hands them out. *)
Fixpoint isEBSAnnotated (kvs : list (string * string)) : bool :=
  match kvs with
  | [] => false
  | (k, v) :: rest =>
      if String.eqb k "volume.beta.kubernetes.io/storage-provisioner"
         && String.eqb v "kubernetes.io/aws-ebs"
      then true
      else isEBSAnnotated rest
  end.

Definition isEBSVolume (volume : PersistentVolumeClaim) : bool :=
  isEBSAnnotated (map_to_list (Annotations volume)).

(** [hasTag]. *)
Fixpoint hasTag (ctx : Ctx) (tags : list (option Tag)) (key value : string)
    (awsVolume awsRegion : string) : M W bool :=
  match tags with
  | [] => mret false
  | ti :: rest =>
      t ← run (deref ti);
      k ← run (deref (Key t));
      if String.eqb k key then
        v ← run (deref (Value t));
        if String.eqb v value then
          Info (WithFields [("tagKey", key); ("tagValue", value);
                            ("volId", awsVolume); ("region", awsRegion)]
                           (logWithCtx ctx))
               "Tag value already exists";;
          Inc incTagsExisting;;
          mret true
        else hasTag ctx rest key value awsVolume awsRegion
      else hasTag ctx rest key value awsVolume awsRegion
  end.

(** [setTag]; [svc] is the client, known by its region. *)
Definition setTag (ctx : Ctx) (svc : string) (tagKey tagValue volumeID : string)
    : M W bool :=
  let tags := {| Resources := [volumeID]; NewTags := [(tagKey, tagValue)] |} in
  ret ← call (Ec2CreateTags svc tags) (CreateTags svc tags);
  match ret with
  | Err err =>
      Fatal (WithFields [("volId", volumeID)] (WithError err (logWithCtx ctx)))
            "Error creating tags"
  | OK _ =>
      (if debug flags
       then Debugf (logWithCtx ctx) "Returned value from CreatesTags call: %v"
       else mret ());;
      Inc incTagsAdded;;
      mret true
  end.

(** The body of the loop over [tags] in [addAWSTags]; [tagAdded] is the
    flag the loop carries. *)
Definition tagStep (ctx : Ctx) (svc : string) (resp : DescribeVolumesOutput)
    (awsVolume awsRegion : string) (tagAdded : bool) (tag : string) : M W bool :=
  match Split tag "=" with
  | [t0; t1] =>
      Info (WithFields [("tagKey", t0); ("tagValue", t1);
                        ("volId", awsVolume); ("region", awsRegion)]
                       (logWithCtx ctx))
           "Processing EBS Volume";;
      v0 ← run (index (Volumes resp) 0);
      vol ← run (deref v0);
      present ← hasTag ctx (Tags vol) t0 t1 awsVolume awsRegion;
      if negb present then
        setTag ctx svc t0 t1 awsVolume;;
        mret true
      else mret tagAdded
  | _ =>
      Error (logWithCtx ctx) "Skipping malformed tag";;
      Inc incProcessingErrors;;
      mret tagAdded
  end.

Fixpoint tagLoop (ctx : Ctx) (svc : string) (resp : DescribeVolumesOutput)
    (awsVolume awsRegion : string) (tagAdded : bool) (tags : list string) : M W bool :=
  match tags with
  | [] => mret tagAdded
  | tag :: rest =>
      tagAdded' ← tagStep ctx svc resp awsVolume awsRegion tagAdded tag;
      tagLoop ctx svc resp awsVolume awsRegion tagAdded' rest
  end.

(** [session.NewSession]: reads the environment of the process, calls
    nobody. *)
Definition session (region : string) : M W (Res unit) := fun s =>
  Return (NewSession region (world s)) s.

(** [addAWSTags]. *)
Definition addAWSTags (ctx : Ctx) (awsTags awsVolumeID separator : string) : M W unit :=
  '(awsRegion, awsVolume) ← run (splitVol awsVolumeID);
  sess ← session awsRegion;
  match sess return M W unit with
  | Err err => panic err
  | OK _ =>
      let svc := awsRegion in
      let tags := Split awsTags separator in
      resp ← call (Ec2DescribeVolumes svc [awsVolume]) (DescribeVolumes svc [awsVolume]);
      match resp return M W unit with
      | Err err =>
          Error (WithFields [("volId", awsVolume); ("region", awsRegion)]
                            (WithError err (logWithCtx ctx)))
                "Cannot get volume";;
          Inc incProcessingErrors
      | OK resp =>
          tagAdded ← tagLoop ctx svc resp awsVolume awsRegion false tags;
          if (tagAdded : bool) then Inc incVolumesTagged else mret ()
      end
  end.

(** The scan of the annotations in [main] for the separator and the tag
    list, in the order the map hands them out. *)
Definition scanStep (acc : string * string) (kv : string * string) : string * string :=
  let '(separator, tagsToAdd) := acc in
  let '(k, v) := kv in
  (if String.eqb k "volume.beta.kubernetes.io/additional-resource-tags-separator"
   then v else separator,
   if String.eqb k "volume.beta.kubernetes.io/additional-resource-tags"
   then v else tagsToAdd).

Definition scanAnnotations (kvs : list (string * string)) : string * string :=
  foldl scanStep (",", "") kvs.

(** [main], lines 162 to 185: what happens to a claim once its volume id
    is known. *)
Definition reconcileClaim (ctx : Ctx) (volumeClaim : PersistentVolumeClaim)
    (awsVolumeID : string) : M W unit :=
  Info (logWithCtx ctx) "Processing Volume Tags";;
  if isEBSVolume volumeClaim then
    let '(separator, tagsToAdd) := scanAnnotations (map_to_list (Annotations volumeClaim)) in
    if negb (String.eqb tagsToAdd "") then
      if negb (dryrun flags) then
        addAWSTags ctx tagsToAdd awsVolumeID separator
      else
        Info (WithFields [("tags", tagsToAdd); ("volId", awsVolumeID)] (logWithCtx ctx))
             "Running in dry run mode, not adding tags"
    else mret ()
  else
    Warn (logWithCtx ctx) "Volume is not EBS. Ignoring".

(** The body of the loop over the watch channel; the context it leaves is
    the one the next event starts from. *)
Definition handleEvent (ctx : Ctx) (event : Event) : M W Ctx :=
  Inc incEventsProcessed;;
  match Object_ event return M W Ctx with
  | OtherObject => Fatal (logWithCtx ctx) "Unexpected event type"
  | ClaimObject pvc =>
      match Type_ event return M W Ctx with
      | Added | Modified =>
          let namespace := Namespace pvc in
          let volumeClaimName := Name pvc in
          let volumeClaim := pvc in
          let volumeName := VolumeName volumeClaim in
          let ctx := {| ns := Some namespace; pvcname := pvcname ctx; volname := volname ctx |} in
          let ctx := {| ns := ns ctx; pvcname := Some volumeClaimName; volname := volname ctx |} in
          let ctx := {| ns := ns ctx; pvcname := pvcname ctx; volname := Some volumeName |} in
          r ← call (KubeGetPersistentVolume volumeName) (GetPersistentVolume volumeName);
          match r with
          | Err errp =>
              Error (WithError errp (logWithCtx ctx))
                    "Cannot find EBS volume associated with Volume Claim";;
              Inc incProcessingErrors;;
              mret ctx
          | OK awsVolume =>
              ebs ← run (deref (AWSElasticBlockStore awsVolume));
              let awsVolumeID := VolumeID ebs in
              reconcileClaim ctx volumeClaim awsVolumeID;;
              mret ctx
          end
      | _ => mret ctx
      end
  end.

(** [for event := range ch], over the events the channel delivers before
    it is closed. *)
Fixpoint watchLoop (ctx : Ctx) (ch : list Event) : M W unit :=
  match ch with
  | [] => mret ()
  | event :: rest =>
      ctx' ← handleEvent ctx event;
      watchLoop ctx' rest
  end.

(** [main], from the first event on. *)
Definition main (ch : list Event) : M W unit := watchLoop Background ch.

End Process.

(** ** A cloud to run against

    An in-memory stand-in for the two services: persistent volumes by name,
    EC2 volumes by id with their tags, and switches that make a kind of call
    fail.  [CreateTags] adds a tag or overwrites the value of a key the
    volume already carries, as EC2 does. *)

Record Sim := {
  simVolumes : list (string * PersistentVolume);
  simTags : list (string * list (string * string));
  simSessionFails : bool;
  simDescribeFails : bool;
  simCreateFails : bool
}.

Fixpoint assoc {A} (k : string) (l : list (string * A)) : option A :=
  match l with
  | [] => None
  | (k', a) :: rest => if String.eqb k' k then Some a else assoc k rest
  end.

(** The tags of a volume after key [k] is set to [v]. *)
Fixpoint putTag (k v : string) (tags : list (string * string)) : list (string * string) :=
  match tags with
  | [] => [(k, v)]
  | (k', v') :: rest =>
      if String.eqb k' k then (k, v) :: rest else (k', v') :: putTag k v rest
  end.

Definition putTags (tags : list (string * string)) (new : list (string * string))
    : list (string * string) :=
  foldl (fun acc kv => putTag kv.1 kv.2 acc) tags new.

Fixpoint putTagsOn (id : string) (new : list (string * string))
    (store : list (string * list (string * string))) : list (string * list (string * string)) :=
  match store with
  | [] => []
  | (id', tags) :: rest =>
      if String.eqb id' id then (id', putTags tags new) :: rest
      else (id', tags) :: putTagsOn id new rest
  end.

(** Tags as the SDK hands them out: every pointer set. *)
Definition sdkTags (tags : list (string * string)) : list (option Tag) :=
  map (fun kv => Some {| Key := Some kv.1; Value := Some kv.2 |}) tags.

Definition sdkVolumes (tags : list (string * string)) : DescribeVolumesOutput :=
  {| Volumes := [Some {| Tags := sdkTags tags |}] |}.

Definition simSetTags (store : list (string * list (string * string))) (w : Sim) : Sim :=
  {| simVolumes := simVolumes w; simTags := store;
     simSessionFails := simSessionFails w;
     simDescribeFails := simDescribeFails w;
     simCreateFails := simCreateFails w |}.

Global Instance SimBackend : Backend Sim := {|
  GetPersistentVolume name w :=
    (match assoc name (simVolumes w) with
     | Some pv => OK pv
     | None => Err "persistentvolumes not found"
     end, w);
  NewSession region w :=
    if simSessionFails w then Err "could not load the shared configuration" else OK ();
  DescribeVolumes region ids w :=
    (if simDescribeFails w then Err "RequestError: send request failed"
     else match ids with
          | [id] =>
              match assoc id (simTags w) with
              | Some tags => OK (sdkVolumes tags)
              | None => Err "InvalidVolume.NotFound"
              end
          | _ => Err "InvalidParameterValue"
          end, w);
  CreateTags region input w :=
    if simCreateFails w then (Err "RequestError: send request failed", w)
    else (OK (),
          simSetTags (foldr (fun id store => putTagsOn id (NewTags input) store)
                            (simTags w) (Resources input)) w)
|}.

Definition start (w : Sim) : State Sim :=
  {| world := w; metrics := zeroCounters; trace := [] |}.

(** The calls to the tagging API in a trace. *)
Definition createCalls (tr : list Obs) : list (string * string) :=
  flat_map (fun o => match o with Ec2CreateTags _ input => NewTags input | _ => [] end) tr.

(** The calls to EC2, of either kind, in a trace. *)
Definition isProviderCall (o : Obs) : bool :=
  match o with
  | Ec2DescribeVolumes _ _ | Ec2CreateTags _ _ => true
  | _ => false
  end.

Definition providerCalls (tr : list Obs) : list Obs :=
  flat_map (fun o => if isProviderCall o then [o] else []) tr.

(** ** Vocabulary of the statements *)

(** A token of the tag list that yields a pair: [len(t) == 2]. *)
Definition parseTag (tag : string) : option (string * string) :=
  match Split tag "=" with
  | [t0; t1] => Some (t0, t1)
  | _ => None
  end.

(** The pairs the loop over the tokens goes on with, in order. *)
Definition parsed (tags : list string) : list (string * string) :=
  omap parseTag tags.

(** The tokens the loop skips. *)
Definition skipped (tags : list string) : list string :=
  filter (fun tag => parseTag tag = None) tags.

(** The pairs of [P] a tag set [R] does not hold. *)
Definition missing (R P : list (string * string)) : list (string * string) :=
  filter (fun kv => kv ∉ R) P.

(** The pairs of [P] a tag set [R] holds. *)
Definition held (R P : list (string * string)) : list (string * string) :=
  filter (fun kv => kv ∈ R) P.

(** Counters moved up: tags added, tags existing, volumes tagged, errors. *)
Definition bump (added existing tagged errors : nat) (c : Counters) : Counters :=
  Build_Counters (eventsProcessed c) (added + tagsAdded c) (existing + tagsExisting c)
                 (tagged + volumesTagged c) (errors + processingErrors c).

(** A later state: another world, counters moved, more observations. *)
Definition after {W} (s : State W) (w : W) (f : Counters -> Counters) (obs : list Obs)
    : State W :=
  Build_State w (f (metrics s)) (trace s ++ obs).

(** The pairs announced by "Processing EBS Volume" entries: the last
    [tagKey] and [tagValue] fields of each. *)
Definition field (name : string) (e : Entry) : option string :=
  assoc name (reverse (Data e)).

Definition processedPairs (tr : list Obs) : list (string * string) :=
  flat_map (fun o =>
    match o with
    | Logged InfoLevel e msg =>
        if String.eqb msg "Processing EBS Volume" then
          match field "tagKey" e, field "tagValue" e with
          | Some k, Some v => [(k, v)]
          | _, _ => []
          end
        else []
    | _ => []
    end) tr.

(** The entries of a level in a trace, by message. *)
Definition messages (lvl : Level) (tr : list Obs) : list string :=
  flat_map (fun o =>
    match o with
    | Logged l _ msg =>
        match l, lvl with
        | DebugLevel, DebugLevel | InfoLevel, InfoLevel | WarnLevel, WarnLevel
        | ErrorLevel, ErrorLevel | FatalLevel, FatalLevel => [msg]
        | _, _ => []
        end
    | _ => []
    end) tr.

(** The fetches of a persistent volume in a trace. *)
Definition volumeFetches (tr : list Obs) : list string :=
  flat_map (fun o => match o with KubeGetPersistentVolume name => [name] | _ => [] end) tr.

(** What the process shows for one token when the volume carries [R] and
    the tagging call goes through.  The debug flag does not show: the entry
    of [Debugf] is dropped by the logger. *)
Definition tagFields (ctx : Ctx) (k v awsVolume awsRegion : string) : Entry :=
  WithFields [("tagKey", k); ("tagValue", v); ("volId", awsVolume); ("region", awsRegion)]
             (logWithCtx ctx).

Definition created (svc volumeID k v : string) : Obs :=
  Ec2CreateTags svc {| Resources := [volumeID]; NewTags := [(k, v)] |}.

Definition tagObs (flags : Flags) (ctx : Ctx) (awsVolume awsRegion : string)
    (R : list (string * string)) (tag : string) : list Obs :=
  match parseTag tag with
  | None => [Logged ErrorLevel (logWithCtx ctx) "Skipping malformed tag"]
  | Some (k, v) =>
      Logged InfoLevel (tagFields ctx k v awsVolume awsRegion) "Processing EBS Volume" ::
      if bool_decide ((k, v) ∈ R)
      then [Logged InfoLevel (tagFields ctx k v awsVolume awsRegion) "Tag value already exists"]
      else [created awsRegion awsVolume k v]
  end.

(** A set of worlds the tagging call never leaves and never fails in. *)
Definition Reliable {W} `{Backend W} (Up : W -> Prop) : Prop :=
  forall region input w, Up w ->
    exists w', CreateTags region input w = (OK (), w') /\ Up w'.

(** The flag [tagAdded] after the loop. *)
Definition anyAdded (b : bool) (applied : list (string * string)) : bool :=
  match applied with
  | [] => b
  | _ :: _ => true
  end.

(** The annotation keys and the provisioner value, as [main.go] spells
    them. *)
Definition provisionerKey : string := "volume.beta.kubernetes.io/storage-provisioner".
Definition ebsProvisioner : string := "kubernetes.io/aws-ebs".
Definition separatorKey : string :=
  "volume.beta.kubernetes.io/additional-resource-tags-separator".
Definition tagsKey : string := "volume.beta.kubernetes.io/additional-resource-tags".

(** The context [main] builds for a claim. *)
Definition claimCtx (pvc : PersistentVolumeClaim) : Ctx :=
  {| ns := Some (Namespace pvc); pvcname := Some (Name pvc);
     volname := Some (VolumeName pvc) |}.

(** The entry that opens the handling of a claim. *)
Definition processingVolumeTags (ctx : Ctx) : Obs :=
  Logged InfoLevel (logWithCtx ctx) "Processing Volume Tags".

(** ** A small cluster

    One claim bound to an EBS-backed volume, one bound to a volume of another
    kind, and the EC2 volume behind the first. *)

Module Scenario.

Definition ebsVolume : PersistentVolume :=
  {| AWSElasticBlockStore :=
       Some {| VolumeID := "aws://eu-west-1b/vol-0123456789abcdef0" |} |}.

Definition nfsVolume : PersistentVolume := {| AWSElasticBlockStore := None |}.

(** The cloud, with the tags the EC2 volume carries. *)
Definition cloud (tags : list (string * string)) : Sim :=
  {| simVolumes := [("pv-data", ebsVolume); ("pv-share", nfsVolume)];
     simTags := [("vol-0123456789abcdef0", tags)];
     simSessionFails := false;
     simDescribeFails := false;
     simCreateFails := false |}.

Definition describeDown (w : Sim) : Sim :=
  {| simVolumes := simVolumes w; simTags := simTags w;
     simSessionFails := simSessionFails w;
     simDescribeFails := true;
     simCreateFails := simCreateFails w |}.

Definition createDown (w : Sim) : Sim :=
  {| simVolumes := simVolumes w; simTags := simTags w;
     simSessionFails := simSessionFails w;
     simDescribeFails := simDescribeFails w;
     simCreateFails := true |}.

(** A claim provisioned by EBS that asks for [tags]. *)
Definition taggedClaim (tags : string) : PersistentVolumeClaim :=
  {| Namespace := "default"; Name := "data";
     Annotations := <[provisionerKey := ebsProvisioner]> (<[tagsKey := tags]> ∅);
     VolumeName := "pv-data" |}.

(** A claim bound to [volume] whose provisioner annotation is [marker]. *)
Definition markedClaim (marker : option string) (volume : string) : PersistentVolumeClaim :=
  {| Namespace := "default"; Name := "share";
     Annotations :=
       match marker with
       | Some m => <[provisionerKey := m]> (<[tagsKey := "env=prod"]> ∅)
       | None => <[tagsKey := "env=prod"]> ∅
       end;
     VolumeName := volume |}.

Definition added (pvc : PersistentVolumeClaim) : Event :=
  {| Type_ := Added; Object_ := ClaimObject pvc |}.

Definition normal : Flags := {| debug := false; dryrun := false |}.
Definition dry : Flags := {| debug := false; dryrun := true |}.

(** The worlds in which the tagging call is up. *)
Definition createUp (w : Sim) : Prop := simCreateFails w = false.

End Scenario.

(** ** Startup

    [main] before the loop: the cluster configuration, the clientset and the
    watch on the claims of every namespace.  The metrics listener it starts
    first runs beside the loop and shares only the counters; it is not part
    of this model. *)

(** The flags read at startup. *)
Record StartFlags := { local : bool; kubeconfig : string }.

(** The calls of the startup; a watch hands out the events its channel
    will deliver. *)
Class Cluster (W Config Clientset : Type) := {
  (** [rest.InClusterConfig()] *)
  InClusterConfig : W -> Res Config;
  (** [clientcmd.BuildConfigFromFlags("", path)] *)
  BuildConfigFromFlags : string -> W -> Res Config;
  (** [kubernetes.NewForConfig(config)] *)
  NewForConfig : Config -> W -> Res Clientset;
  (** [clientset.CoreV1().PersistentVolumeClaims(...).Watch(...)], over every
      namespace, and
      [watcher.ResultChan()] *)
  WatchClaims : Clientset -> W -> Res (list Event) * W
}.

(** The entry of the standard logger: no fields. *)
Definition stdEntry : Entry := {| Data := []; EntryErr := None |}.

Section Startup.

Context {W Config Clientset : Type} `{Backend W} `{Cluster W Config Clientset}.

(** A look at the world that leaves it as it is. *)
Definition ask {A} (f : W -> Res A) : M W (Res A) := fun s => Return (f (world s)) s.

(** [main], lines 109 to 137. *)
Definition startup (sf : StartFlags) : M W (list Event) :=
  let ctx := Background in
  config ← (if negb (local sf)
            then
              r ← ask InClusterConfig;
              match r return M W Config with
              | Err err => Fatal (WithError err stdEntry) "Error building In Cluster Config"
              | OK config => mret config
              end
            else
              r ← ask (BuildConfigFromFlags (kubeconfig sf));
              match r return M W Config with
              | Err err =>
                  Fatal (WithError err stdEntry)
                        ("Error creating config from kubeconfig: " +:+ kubeconfig sf)
              | OK config => mret config
              end);
  r ← ask (NewForConfig config);
  match r return M W (list Event) with
  | Err err => Fatal (WithError err (logWithCtx ctx)) "Error creating clientset"
  | OK clientset =>
      r ← (fun s => let '(r, w) := WatchClaims clientset (world s) in
                    Return r (Build_State w (metrics s) (trace s)));
      match r return M W (list Event) with
      | Err err => Fatal (WithError err (logWithCtx ctx)) "Error creating PVC watcher"
      | OK ch => mret ch
      end
  end.

(** [main], whole. *)
Definition process (sf : StartFlags) (flags : Flags) : M W unit :=
  ch ← startup sf;
  main flags ch.

End Startup.

(** ** More of the Go runtime *)

(** [strings.Join(ps, sep)]. *)
Fixpoint JoinWith (sep : string) (ps : list string) : string :=
  match ps with
  | [] => EmptyString
  | [p] => p
  | p :: ps' => p +:+ sep +:+ JoinWith sep ps'
  end.

(** ** Counters against the trace *)

(** The entries that say a tag is already on the volume. *)
Definition existingEntries (tr : list Obs) : nat :=
  length (List.filter (String.eqb "Tag value already exists") (messages InfoLevel tr)).

(** The fetches of the tags of a volume in a trace. *)
Definition describeCalls (tr : list Obs) : list (string * list string) :=
  flat_map (fun o => match o with Ec2DescribeVolumes r ids => [(r, ids)] | _ => [] end) tr.

(** The tagging calls that failed, as the log shows them: the fatal entries
    of [setTag]. *)
Definition createFailures (tr : list Obs) : nat :=
  length (List.filter (String.eqb "Error creating tags") (messages FatalLevel tr)).

(** A tagging call for one volume and one tag. *)
Definition unbatched (o : Obs) : Prop :=
  match o with
  | Ec2CreateTags _ input => length (Resources input) = 1 /\ length (NewTags input) = 1
  | _ => True
  end.

(** The books of a stretch of the run from [s] to [s']: [n] events counted,
    at most [d] fetches of remote tags, [pending] tagging calls issued and
    not counted as added, which are the ones that failed.  Every counter is
    tied to what the trace shows. *)
Definition Ledger {W} (n d pending : nat) (s s' : State W) : Prop :=
  exists obs,
    trace s' = trace s ++ obs /\
    eventsProcessed (metrics s') = eventsProcessed (metrics s) + n /\
    tagsAdded (metrics s') + pending = tagsAdded (metrics s) + length (createCalls obs) /\
    tagsExisting (metrics s') = tagsExisting (metrics s) + existingEntries obs /\
    processingErrors (metrics s') =
      processingErrors (metrics s) + length (messages ErrorLevel obs) /\
    volumesTagged (metrics s) <= volumesTagged (metrics s') /\
    volumesTagged (metrics s') + tagsAdded (metrics s) <=
      volumesTagged (metrics s) + tagsAdded (metrics s') /\
    volumesTagged (metrics s') <= volumesTagged (metrics s) + length (describeCalls obs) /\
    length (volumeFetches obs) <= n /\
    length (describeCalls obs) <= d /\
    Forall unbatched obs /\
    createFailures obs = pending.

(** The books of an outcome: balanced when the computation returns or
    panics, at most one tagging call short when it exits, the one that
    failed. *)
Definition Kept {W A} (n d : nat) (s : State W) (Q : A -> State W -> Prop)
    (o : Outcome W A) : Prop :=
  match o with
  | Return a s' => Ledger n d 0 s s' /\ Q a s'
  | Panicked _ s' => Ledger n d 0 s s'
  | Exit _ s' => exists pending, pending <= 1 /\ Ledger n d pending s s'
  end.

(** ** A backend that answers by rote

    Every call of a kind gets the same answer, whatever it is: a volume
    without EBS source, a response without volumes, a tag without key. *)

Record Script := {
  answerVolume : Res PersistentVolume;
  answerSession : Res unit;
  answerDescribe : Res DescribeVolumesOutput;
  answerCreate : Res unit
}.

Global Instance ScriptBackend : Backend Script := {|
  GetPersistentVolume _ w := (answerVolume w, w);
  NewSession _ w := answerSession w;
  DescribeVolumes _ _ w := (answerDescribe w, w);
  CreateTags _ _ w := (answerCreate w, w)
|}.

(** A cluster to start against: the answers of the startup calls and the
    cloud behind them. *)
Record Boot := {
  bootInCluster : Res unit;
  bootKubeconfig : string -> Res unit;
  bootClientset : Res unit;
  bootWatch : Res (list Event);
  bootCloud : Sim
}.

Definition bootWith (w : Boot) (c : Sim) : Boot :=
  {| bootInCluster := bootInCluster w; bootKubeconfig := bootKubeconfig w;
     bootClientset := bootClientset w; bootWatch := bootWatch w; bootCloud := c |}.

Definition liftSim {A} (f : Sim -> Res A * Sim) (w : Boot) : Res A * Boot :=
  let '(r, c) := f (bootCloud w) in (r, bootWith w c).

Global Instance BootBackend : Backend Boot := {|
  GetPersistentVolume name := liftSim (GetPersistentVolume name);
  NewSession region w := NewSession region (bootCloud w);
  DescribeVolumes region ids := liftSim (DescribeVolumes region ids);
  CreateTags region input := liftSim (CreateTags region input)
|}.

Global Instance BootCluster : Cluster Boot unit unit := {|
  InClusterConfig w := bootInCluster w;
  BuildConfigFromFlags path w := bootKubeconfig w path;
  NewForConfig _ w := bootClientset w;
  WatchClaims _ w := (bootWatch w, w)
|}.

(** Counters after [n] more events and nothing else. *)
Definition countEvents (n : nat) (c : Counters) : Counters :=
  Build_Counters (n + eventsProcessed c) (tagsAdded c) (tagsExisting c)
                 (volumesTagged c) (processingErrors c).

(** An event the loop only counts: a claim, neither added nor modified. *)
Definition onlyCounted (ev : Event) : Prop :=
  (exists pvc, Object_ ev = ClaimObject pvc) /\ Type_ ev <> Added /\ Type_ ev <> Modified.

(** The first [k] bytes of [s], as many as there are, hold no [=]. *)
Fixpoint noEqualsIn (k : nat) (s : string) : Prop :=
  match k, s with
  | S j, String b t => b <> "="%char /\ noEqualsIn j t
  | _, _ => True
  end.

(** ** More of the small cluster

    Events of other kinds, claims and volumes at the edges, and backends whose
    answers are fixed. *)

Module Cases.

Import Scenario.

Definition deleted (pvc : PersistentVolumeClaim) : Event :=
  {| Type_ := Deleted; Object_ := ClaimObject pvc |}.

Definition bookmark (pvc : PersistentVolumeClaim) : Event :=
  {| Type_ := Bookmark; Object_ := ClaimObject pvc |}.

Definition modified (pvc : PersistentVolumeClaim) : Event :=
  {| Type_ := Modified; Object_ := ClaimObject pvc |}.

(** An event that carries something other than a claim. *)
Definition stray : Event := {| Type_ := ErrorEvent; Object_ := OtherObject |}.

(** A claim provisioned by EBS whose volume is not in the cluster. *)
Definition unboundClaim : PersistentVolumeClaim :=
  {| Namespace := "default"; Name := "gone";
     Annotations := <[provisionerKey := ebsProvisioner]> (<[tagsKey := "env=prod"]> ∅);
     VolumeName := "pv-gone" |}.

(** A claim provisioned by EBS with a separator and no tag list. *)
Definition untaggedClaim : PersistentVolumeClaim :=
  {| Namespace := "default"; Name := "plain";
     Annotations := <[provisionerKey := ebsProvisioner]> (<[separatorKey := ";"]> ∅);
     VolumeName := "pv-data" |}.

(** A claim provisioned by EBS that asks for [tags], cut at semicolons. *)
Definition separatedClaim (tags : string) : PersistentVolumeClaim :=
  {| Namespace := "default"; Name := "data";
     Annotations :=
       <[provisionerKey := ebsProvisioner]>
         (<[separatorKey := ";"]> (<[tagsKey := tags]> ∅));
     VolumeName := "pv-data" |}.

(** A volume whose id is the bare EC2 id. *)
Definition bareVolume : PersistentVolume :=
  {| AWSElasticBlockStore := Some {| VolumeID := "vol-0123456789abcdef0" |} |}.

(** Every call answers; the fetch of remote tags finds no volume. *)
Definition emptyResponse : Script :=
  {| answerVolume := OK ebsVolume;
     answerSession := OK ();
     answerDescribe := OK {| Volumes := [] |};
     answerCreate := OK () |}.

(** Every call answers; the volume carries the bare id. *)
Definition bareCluster : Script :=
  {| answerVolume := OK bareVolume;
     answerSession := OK ();
     answerDescribe := OK (sdkVolumes []);
     answerCreate := OK () |}.

Definition begin (w : Script) : State Script :=
  {| world := w; metrics := zeroCounters; trace := [] |}.

(** Normal mode with the debug flag set. *)
Definition verbose : Flags := {| debug := true; dryrun := false |}.

Definition sessionDown (w : Sim) : Sim :=
  {| simVolumes := simVolumes w; simTags := simTags w;
     simSessionFails := true;
     simDescribeFails := simDescribeFails w;
     simCreateFails := simCreateFails w |}.

(** A cluster that delivers [ch], seen from outside, where no kubeconfig is
    found. *)
Definition noKubeconfig (ch : list Event) (c : Sim) : Boot :=
  {| bootInCluster := OK ();
     bootKubeconfig := fun path => Err ("stat " +:+ path +:+ ": no such file or directory");
     bootClientset := OK ();
     bootWatch := OK ch;
     bootCloud := c |}.

End Cases.

(** ** What the debug flag shows *)

Definition isDebug (o : Obs) : bool :=
  match o with
  | Logged DebugLevel _ _ => true
  | _ => false
  end.

(** A trace without its debug entries. *)
Definition quiet (tr : list Obs) : list Obs := List.filter (fun o => negb (isDebug o)) tr.

(** Two states that differ in debug entries at most. *)
Definition Alike {W} (s t : State W) : Prop :=
  world s = world t /\ metrics s = metrics t /\ quiet (trace s) = quiet (trace t).

Definition AlikeOut {W A} (o p : Outcome W A) : Prop :=
  match o, p with
  | Return a s, Return b t => a = b /\ Alike s t
  | Exit c s, Exit d t => c = d /\ Alike s t
  | Panicked v s, Panicked u t => v = u /\ Alike s t
  | _, _ => False
  end.

(** * Properties *)

(** ** The string functions on examples *)

Example split_ex1 : Split "env=prod,team=infra" "," = ["env=prod"; "team=infra"].
Proof. reflexivity. Qed.
Example split_ex2 : Split "a,,b," "," = ["a"; ""; "b"; ""].
Proof. reflexivity. Qed.
Example split_ex3 : Split "" "," = [""].
Proof. reflexivity. Qed.
Example split_ex4 : Split "a--b-c" "--" = ["a"; "b-c"].
Proof. reflexivity. Qed.
Example split_ex5 : Split "aaa" "aa" = [""; "a"].
Proof. reflexivity. Qed.
Example split_ex6 : Split "a=b" "" = ["a"; "="; "b"].
Proof. reflexivity. Qed.
Example split_ex7 : Split "aws://eu-west-1b/vol-1" "/" = ["aws:"; ""; "eu-west-1b"; "vol-1"].
Proof. reflexivity. Qed.
Example strip_ex : ReplaceTrailingLower "eu-west-1b" = "eu-west-1".
Proof. reflexivity. Qed.
Example splitVol_doc :
  splitVol "aws://eu-west-1b/vol-7iyw8ygidg" = Done ("eu-west-1", "vol-7iyw8ygidg").
Proof. reflexivity. Qed.
Example split_ex8 : Split "é=1" "" = ["é"; "="; "1"].
Proof. reflexivity. Qed.
Example split_ex9 : Split "a=b=c" "=" = ["a"; "b"; "c"].
Proof. reflexivity. Qed.
Example strip_ex2 : ReplaceTrailingLower "eu-west-1" = "eu-west-1".
Proof. reflexivity. Qed.
Example strip_ex3 : ReplaceTrailingLower "zone-ab" = "zone-a".
Proof. reflexivity. Qed.
Example parse_ex : parsed (Split "env=prod,team=infra" ",") = [("env", "prod"); ("team", "infra")].
Proof. reflexivity. Qed.

(** ** Splitting on one byte *)

Section SplitByte.

Variable c : ascii.

Local Abbreviation sep := (String c EmptyString).

Lemma append_nil_l (s : string) : "" +:+ s = s.
Proof. reflexivity. Qed.

Lemma append_cons (b : ascii) (s t : string) : String b s +:+ t = String b (s +:+ t).
Proof. reflexivity. Qed.

Lemma append_assoc (s t u : string) : (s +:+ t) +:+ u = s +:+ (t +:+ u).
Proof.
  induction s as [|b s IH]; [reflexivity|].
  rewrite !append_cons. by rewrite IH.
Qed.

Lemma CountByte_app (s t : string) :
  CountByte c (s +:+ t) = CountByte c s + CountByte c t.
Proof.
  induction s as [|b s IH]; [reflexivity|].
  rewrite append_cons. cbn [CountByte]. rewrite IH. lia.
Qed.

(** One step of the scan. *)
Lemma Split_byte_cons (b : ascii) (s : string) :
  Split (String b s) sep =
  if Ascii.eqb c b then "" :: Split s sep else consHead b (Split s sep).
Proof.
  unfold Split. cbn [splitFrom HasPrefix len String.length Nat.sub].
  by destruct (Ascii.eqb c b).
Qed.

Lemma Split_byte_nil : Split "" sep = [""].
Proof. reflexivity. Qed.

Lemma Split_byte_nonempty (s : string) : Split s sep <> [].
Proof.
  destruct s as [|b s]; [done|].
  rewrite Split_byte_cons. destruct (Ascii.eqb c b); [done|].
  by destruct (Split s sep).
Qed.

(** [len(strings.Split(s, sep)) == strings.Count(s, sep) + 1]. *)
Lemma Split_byte_length (s : string) :
  length (Split s sep) = S (CountByte c s).
Proof.
  induction s as [|b s IH]; [reflexivity|].
  rewrite Split_byte_cons. cbn [CountByte].
  rewrite (Ascii.eqb_sym b c).
  destruct (Ascii.eqb c b); cbn [length]; [by rewrite IH|].
  pose proof (Split_byte_nonempty s) as Hne.
  destruct (Split s sep); [done|]. cbn [consHead length] in *. lia.
Qed.

(** No separator: the string is its only piece. *)
Lemma Split_byte_none (s : string) :
  CountByte c s = 0 -> Split s sep = [s].
Proof.
  induction s as [|b s IH]; [done|].
  cbn [CountByte]. rewrite Split_byte_cons, (Ascii.eqb_sym b c).
  destruct (Ascii.eqb c b); [done|].
  intros Hs. by rewrite IH.
Qed.

(** The first separator ends the first piece. *)
Lemma Split_byte_app (a s : string) :
  CountByte c a = 0 -> Split (a +:+ String c s) sep = a :: Split s sep.
Proof.
  induction a as [|b a IH]; intros Ha.
  - rewrite append_nil_l, Split_byte_cons. by rewrite Ascii.eqb_refl.
  - cbn [CountByte] in Ha. rewrite append_cons, Split_byte_cons.
    rewrite (Ascii.eqb_sym b c) in Ha.
    destruct (Ascii.eqb c b); [done|].
    by rewrite IH.
Qed.

(** The pieces, put back together around the separator. *)
Lemma Join_consHead (b : ascii) (ps : list string) :
  ps <> [] -> Join c (consHead b ps) = String b (Join c ps).
Proof. destruct ps as [|p [|q ps]]; done. Qed.

Lemma Split_byte_Join (s : string) : Join c (Split s sep) = s.
Proof.
  induction s as [|b s IH]; [reflexivity|].
  rewrite Split_byte_cons.
  destruct (Ascii.eqb_spec c b) as [Heq|Hne]; [subst b|].
  - pose proof (Split_byte_nonempty s) as Hs.
    cbn [Join]. destruct (Split s sep) eqn:E; [done|].
    rewrite append_nil_l. by rewrite IH.
  - rewrite Join_consHead by apply Split_byte_nonempty. by rewrite IH.
Qed.

Lemma Split_byte_pieces (s : string) :
  Forall (fun p => CountByte c p = 0) (Split s sep).
Proof.
  induction s as [|b s IH]; [by repeat constructor|].
  rewrite Split_byte_cons.
  destruct (Ascii.eqb_spec c b) as [Heq|Hne]; [subst b|]; [by constructor|].
  pose proof (Split_byte_nonempty s) as Hs.
  destruct (Split s sep) as [|p ps]; [done|].
  cbn [consHead]. inversion IH; subst. constructor; [|done].
  cbn [CountByte]. destruct (Ascii.eqb_spec b c); [congruence|done].
Qed.

(** Exactly two pieces: one separator, the key before it, the value
    after it. *)
Lemma Split_byte_two (s k v : string) :
  Split s sep = [k; v] <->
  s = k +:+ String c v /\ CountByte c k = 0 /\ CountByte c v = 0.
Proof.
  split.
  - intros E. pose proof (Split_byte_Join s) as HJ.
    pose proof (Split_byte_pieces s) as HP.
    rewrite E in HJ, HP. cbn [Join] in HJ.
    inversion HP as [|? ? Hk HP']; subst. inversion HP' as [|? ? Hv _]; subst.
    done.
  - intros (-> & Hk & Hv). rewrite Split_byte_app by done.
    by rewrite Split_byte_none.
Qed.

Lemma Split_byte_two_count (s : string) :
  (exists k v, Split s sep = [k; v]) <-> CountByte c s = 1.
Proof.
  pose proof (Split_byte_length s) as HL. split.
  - intros (k & v & E). rewrite E in HL. cbn in HL. lia.
  - intros Hc. rewrite Hc in HL.
    destruct (Split s sep) as [|k [|v [|? ?]]]; cbn in HL; try lia. eauto.
Qed.

End SplitByte.

(** ** Splitting on any separator

    The equations of the loop of [genSplit]: nothing left, a separator at
    the front, another byte at the front. *)

Lemma HasPrefix_app (p s : string) : HasPrefix (p +:+ s) p = true.
Proof.
  induction p as [|a p IH]; [reflexivity|].
  rewrite append_cons. cbn [HasPrefix]. by rewrite Ascii.eqb_refl.
Qed.

Lemma splitFrom_skip (sep p s : string) :
  splitFrom sep (len p) (p +:+ s) = splitFrom sep 0 s.
Proof.
  induction p as [|a p IH]; [reflexivity|].
  rewrite append_cons. cbn [len String.length splitFrom]. exact IH.
Qed.

Lemma Split_empty (sep : string) : sep <> "" -> Split "" sep = [""].
Proof. by destruct sep. Qed.

Lemma Split_separator (sep s : string) :
  sep <> "" -> Split (sep +:+ s) sep = "" :: Split s sep.
Proof.
  destruct sep as [|a p]; [done|]. intros _. unfold Split.
  rewrite append_cons. cbn [splitFrom].
  change (String a (p +:+ s)) with (String a p +:+ s). rewrite HasPrefix_app.
  cbn [len String.length Nat.sub]. rewrite Nat.sub_0_r.
  f_equal. apply (splitFrom_skip (String a p) p s).
Qed.

Lemma Split_advance (sep s : string) (c : ascii) :
  sep <> "" -> HasPrefix (String c s) sep = false ->
  Split (String c s) sep = consHead c (Split s sep).
Proof.
  destruct sep as [|a p]; [done|]. intros _ Hp. unfold Split.
  cbn [splitFrom]. by rewrite Hp.
Qed.

(** ** The trailing letter of the zone *)

Lemma ReplaceTrailingLower_cons (b : ascii) (s : string) :
  s <> "" -> ReplaceTrailingLower (String b s) = String b (ReplaceTrailingLower s).
Proof. by destruct s. Qed.

Lemma ReplaceTrailingLower_snoc (z : string) (c : ascii) :
  ReplaceTrailingLower (z +:+ String c "") =
  if isLowerAZ c then z else z +:+ String c "".
Proof.
  induction z as [|b z IH].
  - rewrite append_nil_l. cbn. by destruct (isLowerAZ c).
  - rewrite append_cons, ReplaceTrailingLower_cons by (by destruct z).
    rewrite IH. by destruct (isLowerAZ c).
Qed.

Lemma string_snoc (s : string) :
  s = "" \/ exists z c, s = z +:+ String c "".
Proof.
  induction s as [|b s IH]; [by left|right].
  destruct IH as [->|(z & c & ->)].
  - by exists "", b.
  - by exists (String b z), c.
Qed.

(** ** Running the process *)

Section Runs.

Context {W : Type} {backend : Backend W}.

Lemma bind_Return {A B} (m : M W A) (f : A -> M W B) (s s' : State W) (a : A) :
  m s = Return a s' -> (m ≫= f) s = f a s'.
Proof. intros E. unfold mbind, M_bind. by rewrite E. Qed.

Lemma bind_Exit {A B} (m : M W A) (f : A -> M W B) (s s' : State W) (c : nat) :
  m s = Exit c s' -> (m ≫= f) s = Exit c s'.
Proof. intros E. unfold mbind, M_bind. by rewrite E. Qed.

Lemma bind_Panicked {A B} (m : M W A) (f : A -> M W B) (s s' : State W) (p : PanicValue) :
  m s = Panicked p s' -> (m ≫= f) s = Panicked p s'.
Proof. intros E. unfold mbind, M_bind. by rewrite E. Qed.

Lemma after_after (s : State W) (w w' : W) (f g : Counters -> Counters) (o o' : list Obs) :
  after (after s w f o) w' g o' = after s w' (fun c => g (f c)) (o ++ o').
Proof. unfold after. cbn. by rewrite app_assoc. Qed.

Lemma after_id (s : State W) : after s (world s) (fun c => c) [] = s.
Proof. destruct s. unfold after. cbn. by rewrite app_nil_r. Qed.

Lemma bump_bump (a e t r a' e' t' r' : nat) (c : Counters) :
  bump a e t r (bump a' e' t' r' c) = bump (a + a') (e + e') (t + t') (r + r') c.
Proof. unfold bump. cbn. f_equal; lia. Qed.

Lemma bump_zero (c : Counters) : bump 0 0 0 0 c = c.
Proof. by destruct c. Qed.

(** *** [hasTag] *)

Lemma hasTag_sdkTags (ctx : Ctx) (R : list (string * string)) (k v vol region : string)
    (s : State W) :
  hasTag ctx (sdkTags R) k v vol region s =
  if bool_decide ((k, v) ∈ R)
  then Return true (after s (world s) (bump 0 1 0 0)
         [Logged InfoLevel (tagFields ctx k v vol region) "Tag value already exists"])
  else Return false s.
Proof.
  induction R as [|[k' v'] R IH].
  - by rewrite bool_decide_eq_false_2 by apply not_elem_of_nil.
  - cbn [sdkTags map hasTag]. fold (sdkTags R).
    unfold mbind, M_bind. cbn [run deref Key Value fst snd].
    destruct (String.eqb_spec k' k) as [->|Hk].
    + cbn [run deref Value]. destruct (String.eqb_spec v' v) as [->|Hv].
      * rewrite bool_decide_eq_true_2 by apply list_elem_of_here. reflexivity.
      * rewrite IH. apply (f_equal (fun b : bool => if b then _ else _)).
        apply bool_decide_ext. rewrite elem_of_cons.
        split; [tauto | intros [E|?]; [congruence | done]].
    + rewrite IH. apply (f_equal (fun b : bool => if b then _ else _)).
      apply bool_decide_ext. rewrite elem_of_cons.
        split; [tauto | intros [E|?]; [congruence | done]].
Qed.


Variable flags : Flags.

(** *** [setTag] *)

Lemma setTag_OK (ctx : Ctx) (svc k v vol : string) (s : State W) (w' : W) :
  CreateTags svc {| Resources := [vol]; NewTags := [(k, v)] |} (world s) = (OK (), w') ->
  setTag flags ctx svc k v vol s =
  Return true (after s w' (bump 1 0 0 0) [created svc vol k v]).
Proof.
  intros E. unfold setTag, mbind, M_bind, call. rewrite E.
  destruct (debug flags); cbn; unfold after; cbn; by rewrite <- ?app_assoc.
Qed.

Lemma setTag_Err (ctx : Ctx) (svc k v vol : string) (s : State W) (w' : W) (e : error) :
  CreateTags svc {| Resources := [vol]; NewTags := [(k, v)] |} (world s) = (Err e, w') ->
  setTag flags ctx svc k v vol s =
  Exit 1 (after s w' (fun c => c)
    [created svc vol k v;
     Logged FatalLevel (WithFields [("volId", vol)] (WithError e (logWithCtx ctx)))
            "Error creating tags"]).
Proof.
  intros E. unfold setTag, mbind, M_bind, call. rewrite E.
  unfold Fatal, after. cbn. by rewrite <- app_assoc.
Qed.

(** *** One token *)

Lemma tagStep_malformed (ctx : Ctx) (svc vol region : string) (resp : DescribeVolumesOutput)
    (b : bool) (tag : string) (s : State W) :
  parseTag tag = None ->
  tagStep flags ctx svc resp vol region b tag s =
  Return b (after s (world s) (bump 0 0 0 1)
              [Logged ErrorLevel (logWithCtx ctx) "Skipping malformed tag"]).
Proof.
  unfold parseTag, tagStep. intros E.
  destruct (Split tag "=") as [|? [|? [|? ?]]]; try discriminate; reflexivity.
Qed.

Lemma tagStep_parsed (ctx : Ctx) (svc vol region : string) (R : list (string * string))
    (b : bool) (tag k v : string) (s : State W) :
  parseTag tag = Some (k, v) ->
  tagStep flags ctx svc (sdkVolumes R) vol region b tag s =
  let s1 := after s (world s) (fun c => c)
              [Logged InfoLevel (tagFields ctx k v vol region) "Processing EBS Volume"] in
  if bool_decide ((k, v) ∈ R)
  then Return b (after s1 (world s) (bump 0 1 0 0)
         [Logged InfoLevel (tagFields ctx k v vol region) "Tag value already exists"])
  else (setTag flags ctx svc k v vol ≫= fun _ => mret true) s1.
Proof.
  unfold parseTag, tagStep. intros E.
  destruct (Split tag "=") as [|? [|? [|? ?]]]; try discriminate.
  injection E as -> ->. cbn zeta.
  unfold mbind at 1, M_bind at 1. cbn [Info emit].
  unfold mbind at 1, M_bind at 1. cbn [run index sdkVolumes Volumes lookup list_lookup].
  unfold mbind at 1, M_bind at 1. cbn [run deref].
  unfold mbind at 1, M_bind at 1. cbn [Tags].
  rewrite hasTag_sdkTags. fold (tagFields ctx k v vol region).
  by destruct (bool_decide ((k, v) ∈ R)).
Qed.


(** *** The loop over the tokens *)

Lemma tagLoop_app (ctx : Ctx) (svc vol region : string) (resp : DescribeVolumesOutput)
    (pre post : list string) (b : bool) (s : State W) :
  tagLoop flags ctx svc resp vol region b (pre ++ post) s =
  (tagLoop flags ctx svc resp vol region b pre ≫=
     fun b' => tagLoop flags ctx svc resp vol region b' post) s.
Proof.
  revert b s. induction pre as [|tag pre IH]; intros b s; [reflexivity|].
  cbn [app tagLoop]. unfold mbind, M_bind.
  destruct (tagStep flags ctx svc resp vol region b tag s) as [b' s'| |]; [|done..].
  apply IH.
Qed.

Lemma anyAdded_true (applied : list (string * string)) : anyAdded true applied = true.
Proof. by destruct applied. Qed.

Lemma tagLoop_reliable (Up : W -> Prop) (ctx : Ctx) (vol region : string)
    (R : list (string * string)) :
  Reliable Up ->
  forall (tags : list string) (b : bool) (s : State W),
    Up (world s) ->
    exists w', Up w' /\
      tagLoop flags ctx region (sdkVolumes R) vol region b tags s =
      Return (anyAdded b (missing R (parsed tags)))
             (after s w'
                (bump (length (missing R (parsed tags))) (length (held R (parsed tags)))
                      0 (length (skipped tags)))
                (flat_map (tagObs flags ctx vol region R) tags)).
Proof.
  intros HI. induction tags as [|tag tags IH]; intros b s Hs.
  - exists (world s). split; [done|]. cbn. unfold after. cbn.
    rewrite app_nil_r, bump_zero. by destruct s.
  - cbn [tagLoop flat_map]. unfold parsed, skipped, tagObs at 1.
    cbn [omap list_omap]. rewrite filter_cons.
    destruct (parseTag tag) as [[k v]|] eqn:E.
    + rewrite decide_False by done. fold (parsed tags) (skipped tags).
      unfold missing, held. rewrite !filter_cons.
      fold (missing R (parsed tags)) (held R (parsed tags)).
      destruct (decide ((k, v) ∈ R)) as [Hin|Hout].
      * rewrite decide_False by tauto. rewrite bool_decide_eq_true_2 by done.
        erewrite bind_Return; last first.
        { rewrite (tagStep_parsed _ _ _ _ _ _ _ k v) by done. cbn zeta.
          by rewrite bool_decide_eq_true_2 by done. }
        rewrite after_after.
        edestruct IH as (w' & Hw' & ->); [|exists w'; split; [done|]]; [done|].
        rewrite after_after. f_equal. unfold after. cbn. f_equal.
        unfold bump. cbn. f_equal; lia.
      * rewrite decide_True by done. rewrite bool_decide_eq_false_2 by done.
        destruct (HI region {| Resources := [vol]; NewTags := [(k, v)] |} (world s) Hs)
          as (w1 & Hc & Hw1).
        erewrite bind_Return; last first.
        { rewrite (tagStep_parsed _ _ _ _ _ _ _ k v) by done. cbn zeta.
          rewrite bool_decide_eq_false_2 by done.
          erewrite bind_Return; [reflexivity|]. by apply setTag_OK. }
        rewrite after_after.
        edestruct IH as (w' & Hw' & ->); [|exists w'; split; [done|]]; [done|].
        rewrite after_after, anyAdded_true. cbn [anyAdded]. f_equal.
        unfold after. cbn. f_equal.
        unfold bump. cbn. f_equal; lia.
    + rewrite decide_True by done. fold (parsed tags) (skipped tags).
      erewrite bind_Return; last by apply tagStep_malformed.
      edestruct IH as (w' & Hw' & ->); [|exists w'; split; [done|]]; [done|].
      rewrite after_after. f_equal. unfold after. cbn. f_equal.
      unfold bump. cbn. f_equal; lia.
Qed.


(** *** [addAWSTags] *)

Lemma addAWSTags_fetched (ctx : Ctx) (awsTags id sep region vol : string)
    (resp : DescribeVolumesOutput) (s : State W) (w1 : W) :
  splitVol id = Done (region, vol) ->
  NewSession region (world s) = OK () ->
  DescribeVolumes region [vol] (world s) = (OK resp, w1) ->
  addAWSTags flags ctx awsTags id sep s =
  (tagLoop flags ctx region resp vol region false (Split awsTags sep) ≫=
     fun b : bool => if b then Inc incVolumesTagged else mret ())
    (after s w1 (fun c => c) [Ec2DescribeVolumes region [vol]]).
Proof.
  intros Hv Hs Hd. unfold addAWSTags.
  unfold mbind at 1, M_bind at 1. rewrite Hv. cbn [run].
  unfold mbind at 1, M_bind at 1. unfold session. rewrite Hs.
  unfold mbind at 1, M_bind at 1. unfold call. rewrite Hd. reflexivity.
Qed.

Lemma addAWSTags_fetch_failed (ctx : Ctx) (awsTags id sep region vol : string)
    (e : error) (s : State W) (w1 : W) :
  splitVol id = Done (region, vol) ->
  NewSession region (world s) = OK () ->
  DescribeVolumes region [vol] (world s) = (Err e, w1) ->
  addAWSTags flags ctx awsTags id sep s =
  Return () (after s w1 (bump 0 0 0 1)
    [Ec2DescribeVolumes region [vol];
     Logged ErrorLevel
       (WithFields [("volId", vol); ("region", region)] (WithError e (logWithCtx ctx)))
       "Cannot get volume"]).
Proof.
  intros Hv Hs Hd. unfold addAWSTags.
  unfold mbind at 1, M_bind at 1. rewrite Hv. cbn [run].
  unfold mbind at 1, M_bind at 1. unfold session. rewrite Hs.
  unfold mbind at 1, M_bind at 1. unfold call. rewrite Hd.
  unfold mbind, M_bind, Error, emit, Inc, after. cbn. by rewrite <- app_assoc.
Qed.

(** How many volumes a reconciliation counts as tagged. *)
Lemma addAWSTags_reliable (Up : W -> Prop) (ctx : Ctx) (awsTags id sep region vol : string)
    (R : list (string * string)) (s : State W) (w1 : W) :
  Reliable Up ->
  splitVol id = Done (region, vol) ->
  NewSession region (world s) = OK () ->
  DescribeVolumes region [vol] (world s) = (OK (sdkVolumes R), w1) ->
  Up w1 ->
  let P := parsed (Split awsTags sep) in
  exists w', Up w' /\
    addAWSTags flags ctx awsTags id sep s =
    Return () (after s w'
      (bump (length (missing R P)) (length (held R P))
            (if anyAdded false (missing R P) then 1 else 0)
            (length (skipped (Split awsTags sep))))
      (Ec2DescribeVolumes region [vol] ::
       flat_map (tagObs flags ctx vol region R) (Split awsTags sep))).
Proof.
  intros HI Hv Hs Hd Hw1 P.
  rewrite (addAWSTags_fetched _ _ _ _ _ _ _ _ _ Hv Hs Hd).
  destruct (tagLoop_reliable Up ctx vol region R HI (Split awsTags sep) false
              (after s w1 (fun c => c) [Ec2DescribeVolumes region [vol]]) Hw1)
    as (w' & Hw' & E).
  exists w'. split; [done|].
  erewrite bind_Return by exact E. rewrite after_after. fold P.
  destruct (anyAdded false (missing R P)); cbn; unfold after; cbn; f_equal;
    f_equal; unfold bump; cbn; f_equal; lia.
Qed.

End Runs.

(** ** The annotations of a claim *)

Lemma assoc_elem_of {A} (k : string) (a : A) (l : list (string * A)) :
  NoDup l.*1 -> assoc k l = Some a <-> (k, a) ∈ l.
Proof.
  induction l as [|[k' a'] l IH]; cbn [assoc fmap list_fmap fst].
  - intros _. rewrite elem_of_nil. split; [done|tauto].
  - rewrite NoDup_cons, elem_of_cons. intros [Hk' Hl].
    destruct (String.eqb_spec k' k) as [->|Hne].
    + split; [intros [= ->]; by left|].
      intros [[= ->]|Hin]; [done|].
      exfalso. apply Hk'. apply list_elem_of_fmap. by exists (k, a).
    + rewrite IH by done. split; [tauto|]. intros [[= ? ?]|?]; [congruence|done].
Qed.

Lemma assoc_map_to_list (k : string) (m : gmap string string) :
  assoc k (map_to_list m) = m !! k.
Proof.
  destruct (m !! k) as [v|] eqn:E.
  - apply assoc_elem_of; [apply NoDup_fst_map_to_list|]. by apply elem_of_map_to_list.
  - destruct (assoc k (map_to_list m)) as [v|] eqn:E'; [|done].
    apply assoc_elem_of in E'; [|apply NoDup_fst_map_to_list].
    apply elem_of_map_to_list in E'. congruence.
Qed.

Lemma isEBSAnnotated_elem_of (kvs : list (string * string)) :
  isEBSAnnotated kvs = true <-> (provisionerKey, ebsProvisioner) ∈ kvs.
Proof.
  induction kvs as [|[k v] kvs IH]; cbn [isEBSAnnotated].
  - rewrite elem_of_nil. split; [done|tauto].
  - rewrite elem_of_cons.
    fold provisionerKey ebsProvisioner.
    destruct (String.eqb_spec k provisionerKey) as [->|Hk];
      [destruct (String.eqb_spec v ebsProvisioner) as [->|Hv]|]; cbn [andb].
    + split; [by left|done].
    + rewrite IH. split; [tauto|]. intros [[= ?]|?]; [congruence|done].
    + rewrite IH. split; [tauto|]. intros [[= ? ?]|?]; [congruence|done].
Qed.

(** The filter is a lookup: the order of the map does not matter. *)
Lemma isEBSVolume_lookup (volume : PersistentVolumeClaim) :
  isEBSVolume volume = true <-> Annotations volume !! provisionerKey = Some ebsProvisioner.
Proof.
  unfold isEBSVolume. rewrite isEBSAnnotated_elem_of. apply elem_of_map_to_list.
Qed.

Lemma scanStep_assoc (kvs : list (string * string)) (a b : string) :
  NoDup kvs.*1 ->
  foldl scanStep (a, b) kvs =
  (default a (assoc separatorKey kvs), default b (assoc tagsKey kvs)).
Proof.
  revert a b. induction kvs as [|[k v] kvs IH]; intros a b; [done|].
  cbn [fmap list_fmap fst foldl assoc scanStep]. rewrite NoDup_cons. intros [Hk Hl].
  rewrite IH by done. fold separatorKey tagsKey.
  assert (Hnone : forall key, k = key -> assoc key kvs = None).
  { intros key ->. destruct (assoc key kvs) as [x|] eqn:E; [|done].
    apply assoc_elem_of in E; [|done]. exfalso. apply Hk.
    apply list_elem_of_fmap. by exists (key, x). }
  f_equal.
  - destruct (String.eqb_spec k separatorKey) as [E|E]; [by rewrite Hnone|done].
  - destruct (String.eqb_spec k tagsKey) as [E|E]; [by rewrite Hnone|done].
Qed.

(** The separator defaults to a comma, the tag list to the empty string. *)
Lemma scanAnnotations_lookup (m : gmap string string) :
  scanAnnotations (map_to_list m) =
  (default "," (m !! separatorKey), default "" (m !! tagsKey)).
Proof.
  unfold scanAnnotations. rewrite scanStep_assoc by apply NoDup_fst_map_to_list.
  by rewrite !assoc_map_to_list.
Qed.

(** ** Tokens and pairs *)

Lemma parseTag_Some (tag k v : string) :
  parseTag tag = Some (k, v) <->
  tag = k +:+ "=" +:+ v /\ CountByte "=" k = 0 /\ CountByte "=" v = 0.
Proof.
  change (k +:+ "=" +:+ v) with (k +:+ String "="%char v).
  rewrite <- (Split_byte_two "="%char). unfold parseTag.
  destruct (Split tag "=") as [|a [|b [|? ?]]]; split; try done; congruence.
Qed.

Lemma parseTag_is_Some (tag : string) :
  is_Some (parseTag tag) <-> CountByte "=" tag = 1.
Proof.
  rewrite <- (Split_byte_two_count "="%char). unfold parseTag. split.
  - intros [[k v] E]. destruct (Split tag "=") as [|a [|b [|? ?]]]; try done.
    injection E as -> ->. eauto.
  - intros (k & v & ->). eauto.
Qed.

Lemma parseTag_None (tag : string) :
  parseTag tag = None <-> CountByte "=" tag <> 1.
Proof.
  rewrite <- parseTag_is_Some, <- eq_None_not_Some. done.
Qed.

(** A token with one [=] is not the empty token. *)
Lemma one_equals_nonempty (tag : string) : CountByte "=" tag = 1 -> tag <> "".
Proof. by intros E ->. Qed.

(** The pairs, written back as [key=value], are the tokens with exactly one
    [=], in order. *)
Lemma parsed_tokens (tags : list string) :
  map (fun kv => kv.1 +:+ "=" +:+ kv.2) (parsed tags) =
  filter (fun tag => CountByte "=" tag = 1) tags.
Proof.
  induction tags as [|tag tags IH]; [done|].
  unfold parsed in *. cbn [omap list_omap]. rewrite filter_cons.
  destruct (parseTag tag) as [[k v]|] eqn:E.
  - rewrite decide_True by (apply parseTag_is_Some; eauto).
    cbn [map fst snd]. rewrite IH. f_equal.
    apply parseTag_Some in E. by destruct E as [-> _].
  - rewrite decide_False by by apply parseTag_None. exact IH.
Qed.

Lemma skipped_tokens (tags : list string) :
  skipped tags = filter (fun tag => CountByte "=" tag <> 1) tags.
Proof.
  unfold skipped. apply list_filter_iff. intros tag. apply parseTag_None.
Qed.

Lemma parsed_skipped_length (tags : list string) :
  length (parsed tags) + length (skipped tags) = length tags.
Proof.
  induction tags as [|tag tags IH]; [done|].
  unfold parsed, skipped in *. cbn [omap list_omap]. rewrite filter_cons.
  destruct (parseTag tag) as [[k v]|] eqn:E.
  - rewrite decide_False by done. cbn [length]. lia.
  - rewrite decide_True by done. cbn [length]. lia.
Qed.

Lemma missing_held_length (R P : list (string * string)) :
  length (missing R P) + length (held R P) = length P.
Proof.
  induction P as [|p P IH]; [done|].
  unfold missing, held in *. rewrite !filter_cons.
  destruct (decide (p ∈ R)).
  - rewrite decide_False by tauto. cbn [length]. lia.
  - rewrite decide_True by done. cbn [length]. lia.
Qed.

(** ** Reading a trace *)

Lemma createCalls_app (t u : list Obs) : createCalls (t ++ u) = createCalls t ++ createCalls u.
Proof. unfold createCalls. by rewrite flat_map_app. Qed.

Lemma processedPairs_app (t u : list Obs) :
  processedPairs (t ++ u) = processedPairs t ++ processedPairs u.
Proof. unfold processedPairs. by rewrite flat_map_app. Qed.

Lemma providerCalls_app (t u : list Obs) :
  providerCalls (t ++ u) = providerCalls t ++ providerCalls u.
Proof. unfold providerCalls. by rewrite flat_map_app. Qed.

Lemma messages_app (lvl : Level) (t u : list Obs) :
  messages lvl (t ++ u) = messages lvl t ++ messages lvl u.
Proof. unfold messages. by rewrite flat_map_app. Qed.

Lemma field_tagKey (ctx : Ctx) (k v vol region : string) :
  field "tagKey" (tagFields ctx k v vol region) = Some k.
Proof. unfold field, tagFields, WithFields. cbn [Data]. by rewrite reverse_app. Qed.

Lemma field_tagValue (ctx : Ctx) (k v vol region : string) :
  field "tagValue" (tagFields ctx k v vol region) = Some v.
Proof. unfold field, tagFields, WithFields. cbn [Data]. by rewrite reverse_app. Qed.

Section Traces.

Variables (flags : Flags) (ctx : Ctx) (vol region : string) (R : list (string * string)).

Lemma createCalls_tagObs (tags : list string) :
  createCalls (flat_map (tagObs flags ctx vol region R) tags) = missing R (parsed tags).
Proof.
  induction tags as [|tag tags IH]; [done|].
  cbn [flat_map]. rewrite createCalls_app, IH.
  unfold parsed, tagObs. cbn [omap list_omap].
  destruct (parseTag tag) as [[k v]|]; [|done].
  unfold missing. rewrite filter_cons.
  destruct (decide ((k, v) ∈ R)).
  - rewrite bool_decide_eq_true_2, decide_False by tauto. done.
  - rewrite bool_decide_eq_false_2, decide_True by done.
    by destruct (debug flags).
Qed.

Lemma processedPairs_tagObs (tags : list string) :
  processedPairs (flat_map (tagObs flags ctx vol region R) tags) = parsed tags.
Proof.
  induction tags as [|tag tags IH]; [done|].
  cbn [flat_map]. rewrite processedPairs_app, IH.
  unfold parsed, tagObs. cbn [omap list_omap].
  destruct (parseTag tag) as [[k v]|]; [|done].
  unfold processedPairs at 1. cbn [flat_map String.eqb Ascii.eqb Bool.eqb].
  rewrite field_tagKey, field_tagValue.
  destruct (bool_decide ((k, v) ∈ R)); [done|].
  by destruct (debug flags).
Qed.

Lemma providerCalls_tagObs (tags : list string) :
  providerCalls (flat_map (tagObs flags ctx vol region R) tags) =
  map (fun kv => created region vol kv.1 kv.2) (missing R (parsed tags)).
Proof.
  induction tags as [|tag tags IH]; [done|].
  cbn [flat_map]. rewrite providerCalls_app, IH.
  unfold parsed, tagObs. cbn [omap list_omap].
  destruct (parseTag tag) as [[k v]|]; [|done].
  unfold missing. rewrite filter_cons.
  destruct (decide ((k, v) ∈ R)).
  - rewrite bool_decide_eq_true_2, decide_False by tauto. done.
  - rewrite bool_decide_eq_false_2, decide_True by done.
    by destruct (debug flags).
Qed.

End Traces.

(** ** Volume identifiers *)

Lemma Split_volume_url (scheme zone vid : string) :
  CountByte "/" scheme = 0 -> CountByte "/" zone = 0 -> CountByte "/" vid = 0 ->
  Split (scheme +:+ "://" +:+ zone +:+ "/" +:+ vid) "/" = [scheme +:+ ":"; ""; zone; vid].
Proof.
  intros Hs Hz Hv.
  change (scheme +:+ "://" +:+ zone +:+ "/" +:+ vid)
    with (scheme +:+ ":" +:+ String "/" (String "/" (zone +:+ String "/" vid))).
  rewrite <- append_assoc.
  rewrite (Split_byte_app "/"%char); last first.
  { rewrite CountByte_app, Hs. reflexivity. }
  rewrite (Split_byte_cons "/"%char). cbn [Ascii.eqb Bool.eqb].
  rewrite (Split_byte_app "/"%char) by done.
  by rewrite (Split_byte_none "/"%char).
Qed.

(** C7.  A volume identifier of the shape [scheme://zone/volume-id], with
    no slash inside the scheme, the zone or the volume id, decomposes into
    the zone without its trailing letter and the volume id: the region is
    the zone when the zone is empty or does not end in one of [a]..[z], and
    the zone less its last byte when it does, whatever the byte before it.
    The identifier of the specification decomposes into [eu-west-1] and
    [vol-0123456789abcdef0]. *)
Theorem splitVol_decomposes (scheme zone vid : string) :
  CountByte "/" scheme = 0 -> CountByte "/" zone = 0 -> CountByte "/" vid = 0 ->
  exists region,
    splitVol (scheme +:+ "://" +:+ zone +:+ "/" +:+ vid) = Done (region, vid) /\
    (zone = "" -> region = "") /\
    (forall z c, zone = z +:+ String c "" ->
       region = if isLowerAZ c then z else zone) /\
    splitVol "aws://eu-west-1b/vol-0123456789abcdef0" =
      Done ("eu-west-1", "vol-0123456789abcdef0").
Proof.
  intros Hs Hz Hv. exists (ReplaceTrailingLower zone). split; [|split; [|split]].
  - unfold splitVol. by rewrite Split_volume_url.
  - by intros ->.
  - intros z c ->. apply ReplaceTrailingLower_snoc.
  - reflexivity.
Qed.

Lemma splitVol_decomposes_witness :
  splitVol ("aws" +:+ "://" +:+ "eu-west-1b" +:+ "/" +:+ "vol-0123456789abcdef0") =
    Done ("eu-west-1", "vol-0123456789abcdef0").
Proof.
  destruct (splitVol_decomposes "aws" "eu-west-1b" "vol-0123456789abcdef0")
    as (region & E & _ & Hr & _); [reflexivity..|].
  rewrite E. rewrite (Hr "eu-west-1" "b"%char); reflexivity.
Defined.

(** C8.  [splitVol] does not check how many segments the identifier has.
    An identifier with fewer than four segments between slashes (fewer than
    three slashes) makes it index out of range: at [sp[2]] when there are at
    most two segments, at [sp[3]] when there are three.  With four segments
    or more it returns. *)
Theorem splitVol_unchecked (vol : string) :
  length (Split vol "/") = S (CountByte "/" vol) /\
  (length (Split vol "/") < 4 ->
     splitVol vol =
     Crash (IndexOutOfRange (if decide (length (Split vol "/") < 3) then 2 else 3)
                            (length (Split vol "/")))) /\
  (4 <= length (Split vol "/") -> exists region id, splitVol vol = Done (region, id)).
Proof.
  split; [apply (Split_byte_length "/"%char)|].
  unfold splitVol, index. split.
  - intros Hlt. destruct (Split vol "/") as [|a [|b [|c [|d l]]]]; cbn in *; try done. lia.
  - intros Hge. destruct (Split vol "/") as [|a [|b [|c [|d l]]]]; cbn in *; try lia.
    eauto.
Qed.

Lemma splitVol_unchecked_witness :
  splitVol "vol-0123456789abcdef0" = Crash (IndexOutOfRange 2 1) /\
  splitVol "aws://eu-west-1b" = Crash (IndexOutOfRange 3 3) /\
  exists region id, splitVol "aws://eu-west-1b/vol-0123456789abcdef0" = Done (region, id).
Proof.
  split; [|split].
  - apply (proj1 (proj2 (splitVol_unchecked "vol-0123456789abcdef0"))). cbn. lia.
  - apply (proj1 (proj2 (splitVol_unchecked "aws://eu-west-1b"))). cbn. lia.
  - apply (proj2 (proj2 (splitVol_unchecked "aws://eu-west-1b/vol-0123456789abcdef0"))).
    cbn. lia.
Defined.

(** ** One event *)

Section Events.

Context {W : Type} {backend : Backend W}.

Variable flags : Flags.

Lemma handleEvent_not_found (ctx : Ctx) (ev : Event) (pvc : PersistentVolumeClaim)
    (s : State W) (e : error) (w' : W) :
  Object_ ev = ClaimObject pvc ->
  Type_ ev = Added \/ Type_ ev = Modified ->
  GetPersistentVolume (VolumeName pvc) (world s) = (Err e, w') ->
  handleEvent flags ctx ev s =
  Return (claimCtx pvc)
    (after s w' (fun c => bump 0 0 0 1 (incEventsProcessed c))
       [KubeGetPersistentVolume (VolumeName pvc);
        Logged ErrorLevel (WithError e (logWithCtx (claimCtx pvc)))
               "Cannot find EBS volume associated with Volume Claim"]).
Proof.
  intros Ho Ht Hg. unfold handleEvent. rewrite Ho.
  unfold mbind at 1, M_bind at 1. cbn [Inc].
  assert (E : forall (X : Type) (a b : X),
    match Type_ ev with Added | Modified => a | _ => b end = a)
    by (by intros X a b; destruct Ht as [-> | ->]).
  rewrite E. unfold mbind at 1, M_bind at 1, call. cbn [world]. rewrite Hg.
  unfold mbind, M_bind, Error, emit, Inc, after. cbn. by rewrite <- app_assoc.
Qed.

Lemma handleEvent_found (ctx : Ctx) (ev : Event) (pvc : PersistentVolumeClaim)
    (s : State W) (pv : PersistentVolume) (w' : W) :
  Object_ ev = ClaimObject pvc ->
  Type_ ev = Added \/ Type_ ev = Modified ->
  GetPersistentVolume (VolumeName pvc) (world s) = (OK pv, w') ->
  handleEvent flags ctx ev s =
  (run (deref (AWSElasticBlockStore pv)) ≫= fun ebs =>
     reconcileClaim flags (claimCtx pvc) pvc (VolumeID ebs) ≫= fun _ =>
     mret (claimCtx pvc))
    (after s w' incEventsProcessed [KubeGetPersistentVolume (VolumeName pvc)]).
Proof.
  intros Ho Ht Hg. unfold handleEvent. rewrite Ho.
  unfold mbind at 1, M_bind at 1. cbn [Inc].
  assert (E : forall (X : Type) (a b : X),
    match Type_ ev with Added | Modified => a | _ => b end = a)
    by (by intros X a b; destruct Ht as [-> | ->]).
  rewrite E. unfold mbind at 1, M_bind at 1, call. cbn [world]. rewrite Hg.
  reflexivity.
Qed.

Lemma handleEvent_other_type (ctx : Ctx) (ev : Event) (pvc : PersistentVolumeClaim)
    (s : State W) :
  Object_ ev = ClaimObject pvc ->
  Type_ ev <> Added -> Type_ ev <> Modified ->
  handleEvent flags ctx ev s =
  Return ctx (after s (world s) incEventsProcessed []).
Proof.
  intros Ho Ha Hm. unfold handleEvent. rewrite Ho.
  unfold mbind, M_bind, Inc, after. cbn. rewrite app_nil_r.
  by destruct (Type_ ev).
Qed.

Lemma reconcileClaim_rejected (ctx : Ctx) (pvc : PersistentVolumeClaim) (id : string)
    (s : State W) :
  isEBSVolume pvc = false ->
  reconcileClaim flags ctx pvc id s =
  Return () (after s (world s) (fun c => c)
    [processingVolumeTags ctx;
     Logged WarnLevel (logWithCtx ctx) "Volume is not EBS. Ignoring"]).
Proof.
  intros E. unfold reconcileClaim. rewrite E.
  unfold mbind, M_bind, Info, Warn, emit, after. cbn. by rewrite <- app_assoc.
Qed.

Lemma reconcileClaim_accepted (ctx : Ctx) (pvc : PersistentVolumeClaim)
    (id awsTags : string) (s : State W) :
  Annotations pvc !! provisionerKey = Some ebsProvisioner ->
  Annotations pvc !! tagsKey = Some awsTags ->
  awsTags <> "" ->
  reconcileClaim flags ctx pvc id s =
  let s1 := after s (world s) (fun c => c) [processingVolumeTags ctx] in
  if dryrun flags
  then Return () (after s1 (world s) (fun c => c)
         [Logged InfoLevel (WithFields [("tags", awsTags); ("volId", id)] (logWithCtx ctx))
                 "Running in dry run mode, not adding tags"])
  else addAWSTags flags ctx awsTags id (default "," (Annotations pvc !! separatorKey)) s1.
Proof.
  intros Hp Ht Hne. unfold reconcileClaim.
  apply isEBSVolume_lookup in Hp. rewrite Hp.
  rewrite scanAnnotations_lookup, Ht. cbn [default from_option Datatypes.id].
  destruct (String.eqb_spec awsTags "") as [|_]; [done|]. cbn [negb].
  unfold mbind at 1, M_bind at 1. cbn [Info emit].
  by destruct (dryrun flags).
Qed.

Lemma reconcileClaim_no_tags (ctx : Ctx) (pvc : PersistentVolumeClaim) (id : string)
    (s : State W) :
  isEBSVolume pvc = true ->
  default "" (Annotations pvc !! tagsKey) = "" ->
  reconcileClaim flags ctx pvc id s =
  Return () (after s (world s) (fun c => c) [processingVolumeTags ctx]).
Proof.
  intros Hp Ht. unfold reconcileClaim. rewrite Hp.
  rewrite scanAnnotations_lookup, Ht. reflexivity.
Qed.

(** An exit or a panic while an event is handled ends the loop. *)
Lemma watchLoop_Exit (ctx : Ctx) (ev : Event) (rest : list Event) (s s' : State W) (c : nat) :
  handleEvent flags ctx ev s = Exit c s' ->
  watchLoop flags ctx (ev :: rest) s = Exit c s'.
Proof. intros E. cbn [watchLoop]. by apply bind_Exit. Qed.

Lemma watchLoop_Panicked (ctx : Ctx) (ev : Event) (rest : list Event) (s s' : State W)
    (p : PanicValue) :
  handleEvent flags ctx ev s = Panicked p s' ->
  watchLoop flags ctx (ev :: rest) s = Panicked p s'.
Proof. intros E. cbn [watchLoop]. by apply bind_Panicked. Qed.

Lemma watchLoop_Return (ctx ctx' : Ctx) (ev : Event) (rest : list Event) (s s' : State W) :
  handleEvent flags ctx ev s = Return ctx' s' ->
  watchLoop flags ctx (ev :: rest) s = watchLoop flags ctx' rest s'.
Proof. intros E. cbn [watchLoop]. unfold mbind, M_bind. by rewrite E. Qed.

End Events.

(** ** The filter and the volume behind a claim *)

Section Filter.

Context {W : Type} {backend : Backend W}.

Variable flags : Flags.

(** C10.  For an added or modified claim whose volume is fetched and is
    not EBS-backed, reading the volume id dereferences nil: the event
    handler panics and the watch loop with it, whatever the annotations of
    the claim are, having done nothing but count the event and fetch the
    volume; the entry that precedes the filter is not written.  When the
    volume is EBS-backed the read succeeds and the handler goes on with
    the filter. *)
Theorem non_ebs_volume_panics (ctx : Ctx) (ev : Event) (rest : list Event)
    (pvc : PersistentVolumeClaim) (s : State W) (pv : PersistentVolume) (w' : W) :
  Object_ ev = ClaimObject pvc ->
  Type_ ev = Added \/ Type_ ev = Modified ->
  GetPersistentVolume (VolumeName pvc) (world s) = (OK pv, w') ->
  let s1 := after s w' incEventsProcessed [KubeGetPersistentVolume (VolumeName pvc)] in
  (AWSElasticBlockStore pv = None ->
     handleEvent flags ctx ev s = Panicked NilDereference s1 /\
     watchLoop flags ctx (ev :: rest) s = Panicked NilDereference s1) /\
  (forall ebs, AWSElasticBlockStore pv = Some ebs ->
     handleEvent flags ctx ev s =
     (reconcileClaim flags (claimCtx pvc) pvc (VolumeID ebs) ≫= fun _ =>
        mret (claimCtx pvc)) s1).
Proof.
  intros Ho Ht Hg s1.
  pose proof (handleEvent_found flags ctx ev pvc s pv w' Ho Ht Hg) as E.
  split.
  - intros Hnil. rewrite Hnil in E. cbn in E. split; [exact E|].
    by apply watchLoop_Panicked.
  - intros ebs Hebs. by rewrite Hebs in E.
Qed.

(** What holds of a claim whose annotations lack the provisioner key, or
    carry it with any value other than the exact string
    [kubernetes.io/aws-ebs]: the filter rejects it, and no call to EC2 is
    made while its event is handled, however the handling ends.  Once the
    filter is reached, a warning is written, no counter moves and the
    handler returns; the filter is reached when the bound volume was found
    and is EBS-backed. *)
Theorem unmarked_claim_ignored (pvc : PersistentVolumeClaim) :
  Annotations pvc !! provisionerKey <> Some ebsProvisioner ->
  isEBSVolume pvc = false /\
  (forall ctx ev s,
     Object_ ev = ClaimObject pvc ->
     providerCalls (trace (final (handleEvent flags ctx ev s))) =
     providerCalls (trace s)) /\
  (forall ctx id s,
     reconcileClaim flags ctx pvc id s =
     Return () (after s (world s) (fun c => c)
       [processingVolumeTags ctx;
        Logged WarnLevel (logWithCtx ctx) "Volume is not EBS. Ignoring"])) /\
  (forall ctx ev s pv ebs w',
     Object_ ev = ClaimObject pvc ->
     Type_ ev = Added \/ Type_ ev = Modified ->
     GetPersistentVolume (VolumeName pvc) (world s) = (OK pv, w') ->
     AWSElasticBlockStore pv = Some ebs ->
     handleEvent flags ctx ev s =
     Return (claimCtx pvc) (after s w' incEventsProcessed
       [KubeGetPersistentVolume (VolumeName pvc);
        processingVolumeTags (claimCtx pvc);
        Logged WarnLevel (logWithCtx (claimCtx pvc)) "Volume is not EBS. Ignoring"])).
Proof.
  intros Hm.
  assert (Hf : isEBSVolume pvc = false).
  { destruct (isEBSVolume pvc) eqn:E; [|done]. by apply isEBSVolume_lookup in E. }
  assert (Hfound : forall ctx ev s pv ebs w',
     Object_ ev = ClaimObject pvc ->
     Type_ ev = Added \/ Type_ ev = Modified ->
     GetPersistentVolume (VolumeName pvc) (world s) = (OK pv, w') ->
     AWSElasticBlockStore pv = Some ebs ->
     handleEvent flags ctx ev s =
     Return (claimCtx pvc) (after s w' incEventsProcessed
       [KubeGetPersistentVolume (VolumeName pvc);
        processingVolumeTags (claimCtx pvc);
        Logged WarnLevel (logWithCtx (claimCtx pvc)) "Volume is not EBS. Ignoring"])).
  { intros ctx ev s pv ebs w' Ho Ht Hg Hebs.
    rewrite (handleEvent_found flags ctx ev pvc s pv w' Ho Ht Hg), Hebs.
    unfold mbind at 1, M_bind at 1. cbn [run deref].
    erewrite bind_Return by by apply reconcileClaim_rejected.
    by rewrite after_after. }
  split; [done|]. split; [|split; [|done]].
  - intros ctx ev s Ho.
    assert (Hcases : (Type_ ev = Added \/ Type_ ev = Modified) \/
                     (Type_ ev <> Added /\ Type_ ev <> Modified))
      by (destruct (Type_ ev); auto).
    destruct Hcases as [Ht|Ht].
    + destruct (GetPersistentVolume (VolumeName pvc) (world s)) as [[pv|e] w'] eqn:Hg.
      * destruct (AWSElasticBlockStore pv) as [ebs|] eqn:Hebs.
        -- rewrite (Hfound ctx ev s pv ebs w') by done.
           cbn [final after trace]. rewrite providerCalls_app. cbn. by rewrite app_nil_r.
        -- rewrite (handleEvent_found flags ctx ev pvc s pv w' Ho Ht Hg), Hebs.
           unfold mbind, M_bind. cbn [run deref final after trace].
           rewrite providerCalls_app. cbn. by rewrite app_nil_r.
      * rewrite (handleEvent_not_found flags ctx ev pvc s e w' Ho Ht Hg).
        cbn [final after trace]. rewrite providerCalls_app. cbn. by rewrite app_nil_r.
    + rewrite (handleEvent_other_type flags ctx ev pvc s) by tauto.
      cbn [final after trace]. by rewrite app_nil_r.
  - intros ctx id s. by apply reconcileClaim_rejected.
Qed.

End Filter.

Import Scenario.

Lemma non_ebs_volume_panics_witness :
  main normal [added (markedClaim (Some ebsProvisioner) "pv-share"); added (taggedClaim "env=prod")]
       (start (cloud [])) =
  Panicked NilDereference
    {| world := cloud [];
       metrics := incEventsProcessed zeroCounters;
       trace := [KubeGetPersistentVolume "pv-share"] |}.
Proof.
  pose proof (non_ebs_volume_panics normal Background
                (added (markedClaim (Some ebsProvisioner) "pv-share"))
                [added (taggedClaim "env=prod")]
                (markedClaim (Some ebsProvisioner) "pv-share")
                (start (cloud [])) nfsVolume (cloud [])) as Hp.
  destruct Hp as [Hnil _]; [reflexivity | left; reflexivity | reflexivity |].
  exact (proj2 (Hnil eq_refl)).
Defined.

Lemma unmarked_claim_ignored_witness :
  isEBSVolume (markedClaim (Some "Kubernetes.io/AWS-EBS") "pv-data") = false /\
  main normal [added (markedClaim (Some "Kubernetes.io/AWS-EBS") "pv-data")] (start (cloud [])) =
  Return ()
    {| world := cloud [];
       metrics := incEventsProcessed zeroCounters;
       trace :=
         [KubeGetPersistentVolume "pv-data";
          processingVolumeTags (claimCtx (markedClaim (Some "Kubernetes.io/AWS-EBS") "pv-data"));
          Logged WarnLevel
            (logWithCtx (claimCtx (markedClaim (Some "Kubernetes.io/AWS-EBS") "pv-data")))
            "Volume is not EBS. Ignoring"] |}.
Proof.
  assert (Hm : Annotations (markedClaim (Some "Kubernetes.io/AWS-EBS") "pv-data")
                 !! provisionerKey <> Some ebsProvisioner)
    by (vm_compute; discriminate).
  destruct (unmarked_claim_ignored (W := Sim) normal _ Hm) as (Hf & _ & _ & Hev).
  split; [exact Hf|].
  unfold main. cbn [watchLoop].
  erewrite bind_Return; [reflexivity|].
  apply (Hev Background (added _) (start (cloud [])) ebsVolume
           {| VolumeID := "aws://eu-west-1b/vol-0123456789abcdef0" |} (cloud []));
    [reflexivity | left; reflexivity | reflexivity | reflexivity].
Defined.

(** C4.  A claim provisioned by another backend is rejected by the filter
    and no call to EC2 is made for it, but it is not ignored without an
    error.  The filter is asked after the volume id has been read: bound to
    a volume of another kind, as such a claim is, the process panics on the
    missing EBS source with the events that follow unhandled; bound to a
    volume that cannot be fetched, an error is logged and counted. *)
Lemma unmarked_claim_not_ignored :
  let other := markedClaim (Some "kubernetes.io/gce-pd") "pv-share" in
  let gone := markedClaim (Some "kubernetes.io/gce-pd") "pv-gone" in
  Annotations other !! provisionerKey = Some "kubernetes.io/gce-pd" /\
  isEBSVolume other = false /\
  isEBSVolume gone = false /\
  main normal [added other; added (taggedClaim "env=prod")] (start (cloud [])) =
    Panicked NilDereference
      {| world := cloud [];
         metrics := incEventsProcessed zeroCounters;
         trace := [KubeGetPersistentVolume "pv-share"] |} /\
  (let o := main normal [added gone] (start (cloud [])) in
   (exists s, o = Return () s) /\
   messages ErrorLevel (trace (final o)) =
     ["Cannot find EBS volume associated with Volume Claim"] /\
   processingErrors (metrics (final o)) = 1 /\
   providerCalls (trace (final o)) = []).
Proof.
  cbn zeta. split; [by vm_compute|]. split; [by vm_compute|]. split; [by vm_compute|].
  split; [by vm_compute|]. split; [|by vm_compute].
  eexists. vm_compute. reflexivity.
Qed.

(** C6.  The volume of a claim is fetched before the filter looks at the
    claim: a claim without the provisioner annotation, bound to an
    EBS-backed volume, has its volume fetched and is then rejected with a
    warning; bound to a volume of another kind, it has its volume fetched
    and the process panics on the missing EBS source. *)
Lemma volume_fetched_before_filter :
  isEBSVolume (markedClaim None "pv-data") = false /\
  isEBSVolume (markedClaim None "pv-share") = false /\
  (let o := main normal [added (markedClaim None "pv-data")] (start (cloud [])) in
   volumeFetches (trace (final o)) = ["pv-data"] /\
   messages WarnLevel (trace (final o)) = ["Volume is not EBS. Ignoring"] /\
   exists s, o = Return () s) /\
  (let o := main normal [added (markedClaim None "pv-share")] (start (cloud [])) in
   volumeFetches (trace (final o)) = ["pv-share"] /\
   messages WarnLevel (trace (final o)) = [] /\
   exists s, o = Panicked NilDereference s).
Proof.
  split; [by vm_compute|]. split; [by vm_compute|]. split.
  - cbn zeta. split; [by vm_compute|]. split; [by vm_compute|].
    eexists. vm_compute. reflexivity.
  - cbn zeta. split; [by vm_compute|]. split; [by vm_compute|].
    eexists. vm_compute. reflexivity.
Qed.

(** ** Dry-run mode *)

Section Applying.

Context {W : Type} {backend : Backend W}.

Variable flags : Flags.

(** What it takes for the handling of an event to issue a tagging call. *)
Lemma handleEvent_applies (ctx : Ctx) (ev : Event) (s : State W) :
  createCalls (trace (final (handleEvent flags ctx ev s))) <> createCalls (trace s) ->
  exists pvc pv ebs w' awsTags,
    Object_ ev = ClaimObject pvc /\
    (Type_ ev = Added \/ Type_ ev = Modified) /\
    GetPersistentVolume (VolumeName pvc) (world s) = (OK pv, w') /\
    AWSElasticBlockStore pv = Some ebs /\
    Annotations pvc !! provisionerKey = Some ebsProvisioner /\
    Annotations pvc !! tagsKey = Some awsTags /\
    awsTags <> "" /\
    dryrun flags = false.
Proof.
  intros Hcalls.
  assert (Hnone : forall (o : Outcome W Ctx) obs,
            handleEvent flags ctx ev s = o ->
            trace (final o) = trace s ++ obs -> createCalls obs = [] -> False).
  { intros o obs E Ht Hobs. apply Hcalls.
    by rewrite E, Ht, createCalls_app, Hobs, app_nil_r. }
  destruct (Object_ ev) as [pvc|] eqn:Ho; last first.
  { exfalso. eapply (Hnone _ [Logged FatalLevel (logWithCtx ctx) "Unexpected event type"]);
      [unfold handleEvent; rewrite Ho; reflexivity|reflexivity|reflexivity]. }
  assert (Hcases : (Type_ ev = Added \/ Type_ ev = Modified) \/
                   (Type_ ev <> Added /\ Type_ ev <> Modified))
    by (destruct (Type_ ev); auto).
  destruct Hcases as [Ht|[Ha Hm]]; last first.
  { exfalso.
    eapply (Hnone _ []);
      [apply (handleEvent_other_type flags ctx ev pvc s Ho Ha Hm)|reflexivity|reflexivity]. }
  destruct (GetPersistentVolume (VolumeName pvc) (world s)) as [[pv|e] w'] eqn:Hg;
    last first.
  { exfalso. eapply Hnone; [apply (handleEvent_not_found flags ctx ev pvc s e w' Ho Ht Hg)
                           |reflexivity|reflexivity]. }
  pose proof (handleEvent_found flags ctx ev pvc s pv w' Ho Ht Hg) as E.
  destruct (AWSElasticBlockStore pv) as [ebs|] eqn:Hebs; last first.
  { exfalso. eapply Hnone; [exact E|reflexivity|reflexivity]. }
  unfold mbind at 1, M_bind at 1 in E. cbn [run deref] in E.
  destruct (isEBSVolume pvc) eqn:Hf; last first.
  { exfalso. erewrite bind_Return in E by by apply reconcileClaim_rejected.
    eapply Hnone; [exact E|cbn [final mret M_ret after trace]|];
      [by rewrite <- app_assoc|reflexivity]. }
  apply isEBSVolume_lookup in Hf.
  destruct (Annotations pvc !! tagsKey) as [awsTags|] eqn:Htags; last first.
  { exfalso. erewrite bind_Return in E; last first.
    { apply reconcileClaim_no_tags; [by apply isEBSVolume_lookup|by rewrite Htags]. }
    eapply Hnone; [exact E|cbn [final mret M_ret after trace]|];
      [by rewrite <- app_assoc|reflexivity]. }
  destruct (String.eqb_spec awsTags "") as [->|Hne].
  { exfalso. erewrite bind_Return in E; last first.
    { apply reconcileClaim_no_tags; [by apply isEBSVolume_lookup|by rewrite Htags]. }
    eapply Hnone; [exact E|cbn [final mret M_ret after trace]|];
      [by rewrite <- app_assoc|reflexivity]. }
  destruct (dryrun flags) eqn:Hmode.
  { exfalso. erewrite bind_Return in E; last first.
    { rewrite (reconcileClaim_accepted flags _ pvc _ awsTags) by done.
      cbn zeta. rewrite Hmode. reflexivity. }
    eapply Hnone; [exact E|cbn [final mret M_ret after trace]|];
      [by rewrite <- !app_assoc|reflexivity]. }
  by exists pvc, pv, ebs, w', awsTags.
Qed.

End Applying.

Section DryRun.

Context {W : Type} {backend : Backend W}.

Variable flags : Flags.

Hypothesis dry_run : dryrun flags = true.

Lemma reconcileClaim_dry_calls (ctx : Ctx) (pvc : PersistentVolumeClaim) (id : string)
    (s : State W) :
  exists obs,
    reconcileClaim flags ctx pvc id s = Return () (after s (world s) (fun c => c) obs) /\
    providerCalls obs = [].
Proof.
  unfold reconcileClaim. rewrite dry_run.
  destruct (isEBSVolume pvc);
    [destruct (scanAnnotations _) as [sep awsTags]; destruct (String.eqb awsTags "")|];
    eexists; (split; [unfold mbind, M_bind, Info, Warn, emit, after; cbn;
                      rewrite <- ?app_assoc; reflexivity|done]).
Qed.

Lemma handleEvent_dry_calls (ctx : Ctx) (ev : Event) (s : State W) :
  providerCalls (trace (final (handleEvent flags ctx ev s))) = providerCalls (trace s).
Proof.
  unfold handleEvent. unfold mbind at 1, M_bind at 1. cbn [Inc].
  destruct (Object_ ev) as [pvc|].
  - assert (Hcases : (Type_ ev = Added \/ Type_ ev = Modified) \/
                     (Type_ ev <> Added /\ Type_ ev <> Modified))
      by (destruct (Type_ ev); auto).
    destruct Hcases as [Ht|[Ha Hm]].
    + assert (E : forall (X : Type) (a b : X),
        match Type_ ev with Added | Modified => a | _ => b end = a)
        by (by intros X a b; destruct Ht as [-> | ->]).
      rewrite E. unfold mbind at 1, M_bind at 1, call. cbn [world metrics trace].
      destruct (GetPersistentVolume (VolumeName pvc) (world s)) as [[pv|e] w'].
      * unfold mbind at 1, M_bind at 1.
        destruct (AWSElasticBlockStore pv) as [ebs|]; cbn [run deref].
        -- destruct (reconcileClaim_dry_calls
                       {| ns := Some (Namespace pvc); pvcname := Some (Name pvc);
                          volname := Some (VolumeName pvc) |} pvc (VolumeID ebs)
                       {| world := w'; metrics := incEventsProcessed (metrics s);
                          trace := trace s ++ [KubeGetPersistentVolume (VolumeName pvc)] |})
             as (obs & Hr & Hobs).
           erewrite bind_Return by exact Hr.
           cbn [final after trace mret M_ret].
           rewrite !providerCalls_app, Hobs. cbn. by rewrite !app_nil_r.
        -- cbn [final trace]. rewrite providerCalls_app. cbn. by rewrite app_nil_r.
      * unfold mbind, M_bind, Error, emit, Inc. cbn [final trace mret M_ret].
        rewrite !providerCalls_app. cbn. by rewrite !app_nil_r.
    + by destruct (Type_ ev).
  - unfold Fatal. cbn [final trace]. rewrite providerCalls_app. cbn. by rewrite app_nil_r.
Qed.

(** The dry-run gate.  In dry-run mode no call to EC2 is made for any
    event.  A claim that passes the filter and carries a non-empty tag
    list, once its volume is found and is EBS-backed, is logged as skipped
    with its raw tag list, where normal mode from the same state goes on
    into [addAWSTags]. *)
Lemma handleEvent_dry_accepted (ctx : Ctx) (ev : Event) (pvc : PersistentVolumeClaim)
    (s : State W) (pv : PersistentVolume) (ebs : AWSElasticBlockStoreVolumeSource)
    (w' : W) (awsTags : string) :
  Object_ ev = ClaimObject pvc ->
  Type_ ev = Added \/ Type_ ev = Modified ->
  GetPersistentVolume (VolumeName pvc) (world s) = (OK pv, w') ->
  AWSElasticBlockStore pv = Some ebs ->
  Annotations pvc !! provisionerKey = Some ebsProvisioner ->
  Annotations pvc !! tagsKey = Some awsTags ->
  awsTags <> "" ->
  let s1 := after s w' incEventsProcessed
              [KubeGetPersistentVolume (VolumeName pvc);
               processingVolumeTags (claimCtx pvc)] in
  let live := {| debug := debug flags; dryrun := false |} in
  (forall ctx0 ev0 s0,
     providerCalls (trace (final (handleEvent flags ctx0 ev0 s0))) =
     providerCalls (trace s0)) /\
  handleEvent flags ctx ev s =
    Return (claimCtx pvc) (after s1 w' (fun c => c)
      [Logged InfoLevel
         (WithFields [("tags", awsTags); ("volId", VolumeID ebs)]
                     (logWithCtx (claimCtx pvc)))
         "Running in dry run mode, not adding tags"]) /\
  handleEvent live ctx ev s =
    (addAWSTags live (claimCtx pvc) awsTags (VolumeID ebs)
                (default "," (Annotations pvc !! separatorKey)) ≫= fun _ =>
       mret (claimCtx pvc)) s1.
Proof.
  intros Ho Ht Hg Hebs Hp Htags Hne s1 live.
  split; [apply handleEvent_dry_calls|]. split.
  - rewrite (handleEvent_found flags ctx ev pvc s pv w' Ho Ht Hg), Hebs.
    unfold mbind at 1, M_bind at 1. cbn [run deref].
    erewrite bind_Return; last first.
    { rewrite (reconcileClaim_accepted flags _ pvc _ awsTags) by done.
      cbn zeta. rewrite dry_run. reflexivity. }
    unfold s1, after, mret, M_ret. cbn. by rewrite <- !app_assoc.
  - rewrite (handleEvent_found live ctx ev pvc s pv w' Ho Ht Hg), Hebs.
    unfold mbind at 1, M_bind at 1. cbn [run deref].
    unfold mbind at 1, M_bind at 1.
    rewrite (reconcileClaim_accepted live _ pvc _ awsTags) by done.
    cbn zeta. cbn [dryrun live].
    unfold s1, after. cbn. by rewrite <- !app_assoc.
Qed.

(** C5, as the code has it.  In dry-run mode, a claim that would
    otherwise trigger an apply (handled in normal mode from the same state,
    its event issues a tagging call) triggers none and is logged as
    skipped with its raw tag list.  The volume is resolved and the filter
    asked as in normal mode: both modes reach the same state behind the
    filter.  There normal mode goes into [addAWSTags], where the tag list
    is parsed and the remote tags are fetched and compared, and dry-run
    mode writes the entry instead: no call to EC2 of either kind is
    made. *)
Theorem dry_run_skips_reconciliation (ctx : Ctx) (ev : Event) (s : State W) :
  let live := {| debug := debug flags; dryrun := false |} in
  createCalls (trace (final (handleEvent live ctx ev s))) <> createCalls (trace s) ->
  exists pvc pv ebs w' awsTags,
    Object_ ev = ClaimObject pvc /\
    GetPersistentVolume (VolumeName pvc) (world s) = (OK pv, w') /\
    AWSElasticBlockStore pv = Some ebs /\
    isEBSVolume pvc = true /\
    Annotations pvc !! tagsKey = Some awsTags /\
    let s1 := after s w' incEventsProcessed
                [KubeGetPersistentVolume (VolumeName pvc);
                 processingVolumeTags (claimCtx pvc)] in
    handleEvent flags ctx ev s =
      Return (claimCtx pvc) (after s1 w' (fun c => c)
        [Logged InfoLevel
           (WithFields [("tags", awsTags); ("volId", VolumeID ebs)]
                       (logWithCtx (claimCtx pvc)))
           "Running in dry run mode, not adding tags"]) /\
    handleEvent live ctx ev s =
      (addAWSTags live (claimCtx pvc) awsTags (VolumeID ebs)
                  (default "," (Annotations pvc !! separatorKey)) ≫= fun _ =>
         mret (claimCtx pvc)) s1 /\
    createCalls (trace (final (handleEvent flags ctx ev s))) = createCalls (trace s) /\
    providerCalls (trace (final (handleEvent flags ctx ev s))) = providerCalls (trace s).
Proof.
  intros live Hcalls.
  destruct (handleEvent_applies live ctx ev s Hcalls)
    as (pvc & pv & ebs & w' & awsTags & Ho & Ht & Hg & Hebs & Hp & Htags & Hne & _).
  destruct (handleEvent_dry_accepted ctx ev pvc s pv ebs w' awsTags Ho Ht Hg Hebs Hp Htags Hne)
    as (Hnone & Hdry & Hlive).
  exists pvc, pv, ebs, w', awsTags.
  split; [done|]. split; [done|]. split; [done|].
  split; [by apply isEBSVolume_lookup|]. split; [done|].
  cbn zeta. split; [exact Hdry|]. split; [exact Hlive|]. split; [|apply Hnone].
  rewrite Hdry. cbn [final after trace].
  rewrite !createCalls_app. cbn. by rewrite !app_nil_r.
Qed.

End DryRun.

Lemma dry_run_skips_reconciliation_witness :
  main dry [added (taggedClaim "env=prod,team=infra")] (start (cloud [("env", "prod")])) =
  Return ()
    {| world := cloud [("env", "prod")];
       metrics := incEventsProcessed zeroCounters;
       trace :=
         [KubeGetPersistentVolume "pv-data";
          processingVolumeTags (claimCtx (taggedClaim "env=prod,team=infra"));
          Logged InfoLevel
            (WithFields [("tags", "env=prod,team=infra");
                         ("volId", "aws://eu-west-1b/vol-0123456789abcdef0")]
                        (logWithCtx (claimCtx (taggedClaim "env=prod,team=infra"))))
            "Running in dry run mode, not adding tags"] |}.
Proof.
  unfold main. cbn [watchLoop].
  erewrite bind_Return; [reflexivity|].
  destruct (dry_run_skips_reconciliation (W := Sim) dry eq_refl Background
              (added (taggedClaim "env=prod,team=infra")) (start (cloud [("env", "prod")])))
    as (pvc & pv & ebs & w' & awsTags & Ho & Hg & Hebs & _ & Htags & Hdry & _).
  { vm_compute. discriminate. }
  injection Ho as <-.
  injection Hg as <- <-.
  injection Hebs as <-.
  assert (Hl : Annotations (taggedClaim "env=prod,team=infra") !! tagsKey =
               Some "env=prod,team=infra") by (by vm_compute).
  rewrite Hl in Htags. injection Htags as <-.
  exact Hdry.
Defined.

(** C5, as stated, fails: on the same event and the same cloud, normal mode
    fetches the remote tags, parses the two pairs, finds one of them and
    applies the other; dry-run mode neither fetches nor parses nor
    compares. *)
Lemma dry_run_does_not_fetch :
  let ev := added (taggedClaim "env=prod,team=infra") in
  let live := final (main normal [ev] (start (cloud [("env", "prod")]))) in
  let skip := final (main dry [ev] (start (cloud [("env", "prod")]))) in
  providerCalls (trace live) =
    [Ec2DescribeVolumes "eu-west-1" ["vol-0123456789abcdef0"];
     created "eu-west-1" "vol-0123456789abcdef0" "team" "infra"] /\
  processedPairs (trace live) = [("env", "prod"); ("team", "infra")] /\
  tagsExisting (metrics live) = 1 /\
  providerCalls (trace skip) = [] /\
  processedPairs (trace skip) = [] /\
  tagsExisting (metrics skip) = 0.
Proof. by vm_compute. Qed.

(** ** Reconciling the tags of a volume *)

Lemma parsed_clean (tags : list string) :
  Forall (fun kv => CountByte "=" kv.1 = 0 /\ CountByte "=" kv.2 = 0) (parsed tags).
Proof.
  apply Forall_forall. intros [k v] Hin.
  apply list_elem_of_omap in Hin as (tag & _ & E).
  apply parseTag_Some in E. tauto.
Qed.

(** The stand-in cloud never fails a tagging call while its switch is off. *)
Lemma Sim_reliable : Reliable Scenario.createUp.
Proof.
  intros region input w Hw. unfold Scenario.createUp in *.
  cbn [CreateTags SimBackend]. rewrite Hw. eexists. split; [reflexivity|done].
Qed.

Section Reconcile.

Context {W : Type} {backend : Backend W}.

Variables (flags : Flags) (Up : W -> Prop) (ctx : Ctx).
Variables (awsTags id sep region vol : string) (R : list (string * string)).
Variables (s : State W) (w1 : W).

Hypothesis tagging_up : Reliable Up.
Hypothesis volume_id : splitVol id = Done (region, vol).
Hypothesis session_up : NewSession region (world s) = OK ().
Hypothesis fetched : DescribeVolumes region [vol] (world s) = (OK (sdkVolumes R), w1).
Hypothesis fetched_up : Up w1.

(** C1.  The tag list is split on the separator and each token on [=].  A
    token yields a pair exactly when it holds one [=] (such a token is
    never empty), and the pair is the text before and after it.  A token
    with no [=] or with two or more yields no pair, adds one to the error
    counter and leaves the loop running on the tokens after it.  Over a
    whole reconciliation whose fetch and tagging calls go through, the
    pairs processed, written back as [key=value], are the non-empty tokens
    with exactly one [=], in order, and the error counter rises by the
    number of the other tokens. *)
Theorem malformed_tokens_skipped :
  let tokens := Split awsTags sep in
  (forall tag k v,
     parseTag tag = Some (k, v) <->
     tag = k +:+ "=" +:+ v /\ CountByte "=" k = 0 /\ CountByte "=" v = 0) /\
  (forall tag, is_Some (parseTag tag) <-> tag <> "" /\ CountByte "=" tag = 1) /\
  (forall resp b tag rest s0,
     CountByte "=" tag <> 1 ->
     tagLoop flags ctx region resp vol region b (tag :: rest) s0 =
     tagLoop flags ctx region resp vol region b rest
       (after s0 (world s0) (bump 0 0 0 1)
          [Logged ErrorLevel (logWithCtx ctx) "Skipping malformed tag"])) /\
  exists s' obs,
    addAWSTags flags ctx awsTags id sep s = Return () s' /\
    trace s' = trace s ++ obs /\
    map (fun kv => kv.1 +:+ "=" +:+ kv.2) (processedPairs obs) =
      filter (fun tag => tag <> "" /\ CountByte "=" tag = 1) tokens /\
    length (processedPairs obs) =
      length (filter (fun tag => tag <> "" /\ CountByte "=" tag = 1) tokens) /\
    processingErrors (metrics s') =
      length (filter (fun tag => CountByte "=" tag <> 1) tokens) +
      processingErrors (metrics s).
Proof.
  intros tokens. split; [apply parseTag_Some|]. split; [|split].
  - intros tag. rewrite parseTag_is_Some. split; [|tauto].
    intros E. split; [by apply one_equals_nonempty|done].
  - intros resp b tag rest s0 Hc. cbn [tagLoop].
    erewrite bind_Return; [reflexivity|].
    apply tagStep_malformed. by apply parseTag_None.
  - destruct (addAWSTags_reliable flags Up ctx awsTags id sep region vol R s w1)
      as (w' & _ & E); try done.
    cbn zeta in E. fold tokens in E.
    eexists _, _. split; [exact E|]. split; [reflexivity|].
    cbn [processedPairs flat_map app]. fold (processedPairs).
    change (processedPairs (?a :: ?l)) with (processedPairs l).
    rewrite processedPairs_tagObs.
    assert (Hf : filter (fun tag => tag <> "" /\ CountByte "=" tag = 1) tokens =
                 filter (fun tag => CountByte "=" tag = 1) tokens).
    { apply list_filter_iff. intros tag. split; [tauto|].
      intros E1. split; [by apply one_equals_nonempty|done]. }
    rewrite Hf, <- parsed_tokens. split; [done|]. split; [by rewrite length_map|].
    cbn [after metrics bump processingErrors]. by rewrite skipped_tokens.
Qed.

(** C2.  A pair counts as present exactly when the fetched tags hold a tag
    with that key and that value; a tag with the key and another value
    does not make it present.  Over a reconciliation whose fetch and
    tagging calls go through, a tagging call is issued for the parsed
    pairs that are not present, one call each and in order, and the
    counter of existing tags rises by the number of those that are.  With
    the parsed pairs [(env,prod)] and [(team,infra)] and fetched tags that
    hold the first and not the second, the one call is for [(team,infra)]
    and the counter rises by one. *)
Theorem missing_pairs_applied :
  let P := parsed (Split awsTags sep) in
  (forall k v (s0 : State W),
     hasTag ctx (sdkTags R) k v vol region s0 =
     if bool_decide ((k, v) ∈ R)
     then Return true (after s0 (world s0) (bump 0 1 0 0)
            [Logged InfoLevel (tagFields ctx k v vol region) "Tag value already exists"])
     else Return false s0) /\
  (forall k v v' (s0 : State W),
     v <> v' -> hasTag ctx (sdkTags [(k, v')]) k v vol region s0 = Return false s0) /\
  exists s' obs,
    addAWSTags flags ctx awsTags id sep s = Return () s' /\
    trace s' = trace s ++ obs /\
    createCalls obs = filter (fun kv => kv ∉ R) P /\
    tagsAdded (metrics s') = length (filter (fun kv => kv ∉ R) P) + tagsAdded (metrics s) /\
    tagsExisting (metrics s') =
      length (filter (fun kv => kv ∈ R) P) + tagsExisting (metrics s) /\
    (P = [("env", "prod"); ("team", "infra")] ->
     ("env", "prod") ∈ R -> ("team", "infra") ∉ R ->
     createCalls obs = [("team", "infra")] /\
     tagsExisting (metrics s') = 1 + tagsExisting (metrics s)).
Proof.
  intros P. split; [intros; apply hasTag_sdkTags|]. split.
  - intros k v v' s0 Hv. rewrite hasTag_sdkTags.
    rewrite bool_decide_eq_false_2; [done|].
    rewrite list_elem_of_singleton. congruence.
  - destruct (addAWSTags_reliable flags Up ctx awsTags id sep region vol R s w1)
      as (w' & _ & E); try done.
    cbn zeta in E. fold P in E.
    eexists _, _. split; [exact E|]. split; [reflexivity|].
    change (createCalls (?a :: ?l)) with (createCalls l).
    rewrite createCalls_tagObs. fold P.
    cbn [after metrics bump tagsAdded tagsExisting].
    split; [done|]. split; [done|]. split; [done|].
    intros HP Hin Hout. rewrite HP. unfold missing, held.
    rewrite !filter_cons, !filter_nil.
    rewrite (decide_True _ _ Hin), (decide_True _ _ Hout).
    rewrite decide_False by tauto. rewrite decide_False by done. done.
Qed.

End Reconcile.

Lemma malformed_tokens_skipped_witness :
  exists s' obs,
    addAWSTags normal Background "env=prod,,a=b=c,team=infra,novalue"
               "aws://eu-west-1b/vol-0123456789abcdef0" "," (start (cloud [])) = Return () s' /\
    trace s' = obs /\
    map (fun kv => kv.1 +:+ "=" +:+ kv.2) (processedPairs obs) = ["env=prod"; "team=infra"] /\
    processingErrors (metrics s') = 3.
Proof.
  destruct (malformed_tokens_skipped (W := Sim) normal createUp Background
              "env=prod,,a=b=c,team=infra,novalue"
              "aws://eu-west-1b/vol-0123456789abcdef0" ","
              "eu-west-1" "vol-0123456789abcdef0" [] (start (cloud [])) (cloud [])
              Sim_reliable eq_refl eq_refl eq_refl eq_refl)
    as (_ & _ & _ & s' & obs & E & Ht & Hp & _ & He).
  exists s', obs. split; [exact E|]. split; [exact Ht|]. split.
  - rewrite Hp. by vm_compute.
  - rewrite He. by vm_compute.
Defined.

Lemma missing_pairs_applied_witness :
  exists s' obs,
    addAWSTags normal Background "env=prod,team=infra"
               "aws://eu-west-1b/vol-0123456789abcdef0" ","
               (start (cloud [("env", "prod"); ("team", "ops")])) = Return () s' /\
    trace s' = obs /\
    createCalls obs = [("team", "infra")] /\
    tagsExisting (metrics s') = 1.
Proof.
  destruct (missing_pairs_applied (W := Sim) normal createUp Background
              "env=prod,team=infra"
              "aws://eu-west-1b/vol-0123456789abcdef0" ","
              "eu-west-1" "vol-0123456789abcdef0" [("env", "prod"); ("team", "ops")]
              (start (cloud [("env", "prod"); ("team", "ops")]))
              (cloud [("env", "prod"); ("team", "ops")])
              Sim_reliable eq_refl eq_refl eq_refl eq_refl)
    as (_ & _ & s' & obs & E & Ht & _ & _ & _ & Hex).
  exists s', obs. split; [exact E|]. split; [exact Ht|].
  apply Hex; [reflexivity | apply list_elem_of_here |].
  rewrite !elem_of_cons, elem_of_nil. intros [E'|[E'|[]]]; discriminate E'.
Defined.

(** ** Failing calls *)

Section Failures.

Context {W : Type} {backend : Backend W}.

Variables (flags : Flags) (ctx : Ctx) (ev : Event) (rest : list Event).
Variables (pvc : PersistentVolumeClaim) (s : State W).
Variables (pv : PersistentVolume) (ebs : AWSElasticBlockStoreVolumeSource) (w1 : W).
Variables (awsTags region vol : string).

Hypothesis live : dryrun flags = false.
Hypothesis claim_event : Object_ ev = ClaimObject pvc.
Hypothesis upsert : Type_ ev = Added \/ Type_ ev = Modified.
Hypothesis volume_found : GetPersistentVolume (VolumeName pvc) (world s) = (OK pv, w1).
Hypothesis ebs_backed : AWSElasticBlockStore pv = Some ebs.
Hypothesis marked : Annotations pvc !! provisionerKey = Some ebsProvisioner.
Hypothesis tagged : Annotations pvc !! tagsKey = Some awsTags.
Hypothesis some_tags : awsTags <> "".
Hypothesis volume_id : splitVol (VolumeID ebs) = Done (region, vol).
Hypothesis session_up : NewSession region w1 = OK ().

Local Abbreviation sep := (default "," (Annotations pvc !! separatorKey)).
Local Abbreviation s1 :=
  (after s w1 incEventsProcessed
     [KubeGetPersistentVolume (VolumeName pvc); processingVolumeTags (claimCtx pvc)]).

(** In normal mode an accepted claim with tags goes into [addAWSTags]. *)
Lemma handleEvent_live :
  handleEvent flags ctx ev s =
  (addAWSTags flags (claimCtx pvc) awsTags (VolumeID ebs) sep ≫= fun _ =>
     mret (claimCtx pvc)) s1.
Proof.
  rewrite (handleEvent_found flags ctx ev pvc s pv w1 claim_event upsert volume_found).
  rewrite ebs_backed.
  unfold mbind at 1, M_bind at 1. cbn [run deref].
  unfold mbind at 1, M_bind at 1.
  rewrite (reconcileClaim_accepted flags _ pvc _ awsTags) by done.
  cbn zeta. rewrite live.
  unfold after. cbn. by rewrite <- !app_assoc.
Qed.

(** C9.  Every tagging call that returns an error ends the process:
    [setTag] writes a fatal entry and exits with status 1.  When that
    happens for some token of an accepted claim, the tokens after it are
    not looked at and the watch loop exits without handling the events
    that follow.  A failed fetch of the remote tags instead adds one to the
    error counter, writes an error entry, issues no tagging call, leaves
    the claim, and the loop goes on with the next event. *)
Theorem apply_failure_exits_fetch_failure_skips :
  (forall ctx0 svc k v vol0 (s0 : State W) e w',
     CreateTags svc {| Resources := [vol0]; NewTags := [(k, v)] |} (world s0) = (Err e, w') ->
     setTag flags ctx0 svc k v vol0 s0 =
     Exit 1 (after s0 w' (fun c => c)
       [created svc vol0 k v;
        Logged FatalLevel (WithFields [("volId", vol0)] (WithError e (logWithCtx ctx0)))
               "Error creating tags"])) /\
  (forall R w2 pre tag k v post b1 s3 e w3,
     DescribeVolumes region [vol] w1 = (OK (sdkVolumes R), w2) ->
     Split awsTags sep = pre ++ tag :: post ->
     tagLoop flags (claimCtx pvc) region (sdkVolumes R) vol region false pre
             (after s1 w2 (fun c => c) [Ec2DescribeVolumes region [vol]]) = Return b1 s3 ->
     parseTag tag = Some (k, v) ->
     (k, v) ∉ R ->
     CreateTags region {| Resources := [vol]; NewTags := [(k, v)] |} (world s3) = (Err e, w3) ->
     watchLoop flags ctx (ev :: rest) s =
     Exit 1 (after s3 w3 (fun c => c)
       [Logged InfoLevel (tagFields (claimCtx pvc) k v vol region) "Processing EBS Volume";
        created region vol k v;
        Logged FatalLevel
          (WithFields [("volId", vol)] (WithError e (logWithCtx (claimCtx pvc))))
          "Error creating tags"])) /\
  (forall e w2,
     DescribeVolumes region [vol] w1 = (Err e, w2) ->
     let s2 := after s1 w2 (bump 0 0 0 1)
                 [Ec2DescribeVolumes region [vol];
                  Logged ErrorLevel
                    (WithFields [("volId", vol); ("region", region)]
                                (WithError e (logWithCtx (claimCtx pvc))))
                    "Cannot get volume"] in
     handleEvent flags ctx ev s = Return (claimCtx pvc) s2 /\
     watchLoop flags ctx (ev :: rest) s = watchLoop flags (claimCtx pvc) rest s2).
Proof.
  split; [intros; by apply setTag_Err|]. split.
  - intros R w2 pre tag k v post b1 s3 e w3 Hd Hsplit Hpre Hparse Hout Hfail.
    apply watchLoop_Exit. rewrite handleEvent_live.
    apply bind_Exit.
    rewrite (addAWSTags_fetched flags _ _ _ _ region vol (sdkVolumes R) s1 w2) by done.
    apply bind_Exit. rewrite Hsplit, tagLoop_app.
    erewrite bind_Return by exact Hpre.
    cbn [tagLoop]. apply bind_Exit.
    rewrite (tagStep_parsed flags _ _ _ _ _ _ _ k v) by done. cbn zeta.
    rewrite bool_decide_eq_false_2 by done.
    apply bind_Exit. rewrite (setTag_Err flags _ _ _ _ _ _ w3 e) by done.
    by rewrite after_after.
  - intros e w2 Hd s2.
    assert (E : handleEvent flags ctx ev s = Return (claimCtx pvc) s2).
    { rewrite handleEvent_live.
      erewrite bind_Return; [reflexivity|].
      by apply addAWSTags_fetch_failed. }
    split; [exact E|]. by apply watchLoop_Return.
Qed.

End Failures.

Lemma apply_failure_exits_fetch_failure_skips_witness :
  (let o := main normal [added (taggedClaim "env=prod,team=infra"); added (taggedClaim "x=y")]
                 (start (createDown (cloud []))) in
   (exists s', o = Exit 1 s') /\
   eventsProcessed (metrics (final o)) = 1 /\
   createCalls (trace (final o)) = [("env", "prod")] /\
   messages FatalLevel (trace (final o)) = ["Error creating tags"]) /\
  (let o := main normal [added (taggedClaim "env=prod,team=infra"); added (taggedClaim "x=y")]
                 (start (describeDown (cloud []))) in
   (exists s', o = Return () s') /\
   eventsProcessed (metrics (final o)) = 2 /\
   processingErrors (metrics (final o)) = 2 /\
   createCalls (trace (final o)) = []).
Proof.
  split.
  - pose proof (apply_failure_exits_fetch_failure_skips (W := Sim) normal Background
             (added (taggedClaim "env=prod,team=infra")) [added (taggedClaim "x=y")]
             (taggedClaim "env=prod,team=infra") (start (createDown (cloud [])))
             ebsVolume {| VolumeID := "aws://eu-west-1b/vol-0123456789abcdef0" |}
             (createDown (cloud [])) "env=prod,team=infra" "eu-west-1" "vol-0123456789abcdef0"
             eq_refl eq_refl (or_introl eq_refl) eq_refl eq_refl) as Hthm.
    destruct Hthm as (_ & Hexit & _);
      [by vm_compute | by vm_compute | discriminate | reflexivity | reflexivity |].
    assert (Hsplit : Split "env=prod,team=infra"
                       (default "," (Annotations (taggedClaim "env=prod,team=infra")
                                       !! separatorKey)) =
                     [] ++ "env=prod" :: ["team=infra"]) by (by vm_compute).
    pose proof (Hexit [] (createDown (cloud [])) [] "env=prod" "env" "prod" ["team=infra"]
                  false _ "RequestError: send request failed" (createDown (cloud []))
                  eq_refl Hsplit eq_refl eq_refl (not_elem_of_nil _) eq_refl) as Hloop.
    cbn zeta. unfold main. rewrite Hloop. clear Hloop Hexit.
    split; [eexists; reflexivity|]. vm_compute. repeat split; reflexivity.
  - pose proof (apply_failure_exits_fetch_failure_skips (W := Sim) normal Background
             (added (taggedClaim "env=prod,team=infra")) [added (taggedClaim "x=y")]
             (taggedClaim "env=prod,team=infra") (start (describeDown (cloud [])))
             ebsVolume {| VolumeID := "aws://eu-west-1b/vol-0123456789abcdef0" |}
             (describeDown (cloud [])) "env=prod,team=infra" "eu-west-1" "vol-0123456789abcdef0"
             eq_refl eq_refl (or_introl eq_refl) eq_refl eq_refl) as Hthm.
    destruct Hthm as (_ & _ & Hskip);
      [by vm_compute | by vm_compute | discriminate | reflexivity | reflexivity |].
    destruct (Hskip "RequestError: send request failed" (describeDown (cloud [])) eq_refl)
      as [_ Hloop].
    cbn zeta. unfold main. rewrite Hloop. clear Hloop Hskip.
    split.
    { match goal with |- exists s', ?o = _ =>
        let v := eval vm_compute in (final o) in exists v end.
      vm_compute. reflexivity. }
    vm_compute. repeat split; reflexivity.
Defined.

(** ** Reconciling twice *)

Lemma putTag_here (k v : string) (R : list (string * string)) : (k, v) ∈ putTag k v R.
Proof.
  induction R as [|[k' v'] R IH]; cbn [putTag]; [apply list_elem_of_here|].
  destruct (String.eqb k' k); [apply list_elem_of_here|]. by apply list_elem_of_further.
Qed.

Lemma putTag_keeps (k v k' v' : string) (R : list (string * string)) :
  (k, v) ∈ R -> (k' = k -> v' = v) -> (k, v) ∈ putTag k' v' R.
Proof.
  intros Hin Hsame. induction R as [|[k0 v0] R IH]; [by apply elem_of_nil in Hin|].
  cbn [putTag]. apply elem_of_cons in Hin as [[= <- <-]|Hin].
  - destruct (String.eqb_spec k k') as [E|E]; [|apply list_elem_of_here].
    subst k'. rewrite (Hsame eq_refl). apply list_elem_of_here.
  - destruct (String.eqb k0 k'); apply list_elem_of_further; [done|by apply IH].
Qed.

Lemma putTags_keeps (k v : string) (applied R : list (string * string)) :
  (k, v) ∈ R -> (forall v', (k, v') ∈ applied -> v' = v) -> (k, v) ∈ putTags R applied.
Proof.
  unfold putTags. revert R. induction applied as [|[k' v'] applied IH]; intros R Hin Hf; [done|].
  cbn [foldl fst snd]. apply IH.
  - apply putTag_keeps; [done|]. intros ->. apply Hf, list_elem_of_here.
  - intros v0 H0. by apply Hf, list_elem_of_further.
Qed.

Lemma putTags_adds (k v : string) (applied R : list (string * string)) :
  (k, v) ∈ applied -> (forall v', (k, v') ∈ applied -> v' = v) -> (k, v) ∈ putTags R applied.
Proof.
  revert R. induction applied as [|[k' v'] applied IH]; intros R Hin Hf;
    [by apply elem_of_nil in Hin|].
  assert (Hrest : forall v0, (k, v0) ∈ applied -> v0 = v)
    by (intros v0 H0; by apply Hf, list_elem_of_further).
  apply elem_of_cons in Hin as [[= <- <-]|Hin].
  - change (putTags R ((k, v) :: applied)) with (putTags (putTag k v R) applied).
    apply putTags_keeps; [apply putTag_here|done].
  - change (putTags R ((k', v') :: applied)) with (putTags (putTag k' v' R) applied).
    by apply IH.
Qed.

(** With one value per key among the parsed pairs, every one of them is on
    the volume once the missing ones have been applied. *)
Lemma putTags_missing (R P : list (string * string)) :
  (forall k v v', (k, v) ∈ P -> (k, v') ∈ P -> v = v') ->
  forall kv, kv ∈ P -> kv ∈ putTags R (missing R P).
Proof.
  intros Hf [k v] Hin.
  assert (Hm : forall v', (k, v') ∈ missing R P -> v' = v).
  { intros v' Hv'. apply list_elem_of_filter in Hv' as [_ Hv']. by apply (Hf k). }
  destruct (decide ((k, v) ∈ R)) as [HR|HR].
  - by apply putTags_keeps.
  - apply putTags_adds; [|done]. apply list_elem_of_filter. done.
Qed.

Lemma missing_nil (R P : list (string * string)) :
  (forall kv, kv ∈ P -> kv ∈ R) -> missing R P = [] /\ held R P = P.
Proof.
  intros Hall. induction P as [|p P IH]; [done|].
  unfold missing, held in *. rewrite !filter_cons.
  assert (Hp : p ∈ R) by apply Hall, list_elem_of_here.
  rewrite decide_False by tauto. rewrite (decide_True _ _ Hp).
  destruct IH as [-> ->]; [|done].
  intros kv Hkv. by apply Hall, list_elem_of_further.
Qed.

Section AllHeld.

Context {W : Type} {backend : Backend W}.

Variables (flags : Flags) (ctx : Ctx) (vol region : string) (R : list (string * string)).

(** When the volume holds every pair, the loop calls nobody. *)
Lemma tagLoop_all_held (tags : list string) (b : bool) (s : State W) :
  (forall kv, kv ∈ parsed tags -> kv ∈ R) ->
  tagLoop flags ctx region (sdkVolumes R) vol region b tags s =
  Return b (after s (world s)
              (bump 0 (length (parsed tags)) 0 (length (skipped tags)))
              (flat_map (tagObs flags ctx vol region R) tags)).
Proof.
  revert b s. induction tags as [|tag tags IH]; intros b s Hall.
  - cbn. unfold after. cbn. rewrite app_nil_r, bump_zero. by destruct s.
  - cbn [tagLoop flat_map]. unfold tagObs at 1. unfold parsed, skipped in *.
    cbn [omap list_omap] in *. rewrite filter_cons.
    destruct (parseTag tag) as [[k v]|] eqn:E.
    + rewrite decide_False by done.
      assert (Hin : (k, v) ∈ R) by apply Hall, list_elem_of_here.
      rewrite bool_decide_eq_true_2 by done.
      erewrite bind_Return; last first.
      { rewrite (tagStep_parsed _ _ _ _ _ _ _ _ k v) by done. cbn zeta.
        by rewrite bool_decide_eq_true_2 by done. }
      rewrite after_after, IH; last first.
      { intros kv Hkv. by apply Hall, list_elem_of_further. }
      rewrite after_after. f_equal. unfold after. cbn. f_equal.
      unfold bump. cbn. f_equal; lia.
    + rewrite decide_True by done.
      erewrite bind_Return; last by apply tagStep_malformed.
      rewrite IH by done.
      rewrite after_after. f_equal. unfold after. cbn. f_equal.
      unfold bump. cbn. f_equal; lia.
Qed.


End AllHeld.

Section Twice.

Context {W : Type} {backend : Backend W}.

Variables (flags : Flags) (ctx : Ctx) (vol region : string) (R : list (string * string)).

(** C3, as the code has it.  Let a reconciliation fetch the tags [R] and
    go through, and let the parsed pairs give each key one value.  When
    the same tag list is reconciled again for the same volume and the
    fetch returns what the first pass left on the volume ([R] with the
    applied pairs put on it, a new value replacing the old one of its
    key), the second pass issues no tagging call, finds every parsed pair
    existing, and counts no volume as tagged. *)
Theorem second_pass_applies_nothing (Up : W -> Prop) (awsTags id sep : string)
    (s : State W) (w1 : W) :
  Reliable Up ->
  splitVol id = Done (region, vol) ->
  NewSession region (world s) = OK () ->
  DescribeVolumes region [vol] (world s) = (OK (sdkVolumes R), w1) ->
  Up w1 ->
  let P := parsed (Split awsTags sep) in
  (forall k v v', (k, v) ∈ P -> (k, v') ∈ P -> v = v') ->
  exists s1 obs1,
    addAWSTags flags ctx awsTags id sep s = Return () s1 /\
    trace s1 = trace s ++ obs1 /\
    forall w2,
      NewSession region (world s1) = OK () ->
      DescribeVolumes region [vol] (world s1) =
        (OK (sdkVolumes (putTags R (createCalls obs1))), w2) ->
      exists s2 obs2,
        addAWSTags flags ctx awsTags id sep s1 = Return () s2 /\
        trace s2 = trace s1 ++ obs2 /\
        createCalls obs2 = [] /\
        processedPairs obs2 = P /\
        tagsExisting (metrics s2) = length P + tagsExisting (metrics s1) /\
        tagsAdded (metrics s2) = tagsAdded (metrics s1) /\
        volumesTagged (metrics s2) = volumesTagged (metrics s1).
Proof.
  intros HI Hv Hs Hd Hw1 P Hfun.
  destruct (addAWSTags_reliable flags Up ctx awsTags id sep region vol R s w1)
    as (w' & _ & E1); try done.
  cbn zeta in E1. fold P in E1.
  eexists _, _. split; [exact E1|]. split; [reflexivity|].
  intros w2 Hs2 Hd2.
  change (createCalls (?a :: ?l)) with (createCalls l) in Hd2.
  rewrite createCalls_tagObs in Hd2. fold P in Hd2.
  set (R2 := putTags R (missing R P)) in *.
  assert (Hall : forall kv, kv ∈ P -> kv ∈ R2) by by apply putTags_missing.
  rewrite (addAWSTags_fetched flags _ _ _ _ region vol (sdkVolumes R2) _ w2 Hv Hs2 Hd2).
  erewrite bind_Return by by apply (tagLoop_all_held flags ctx vol region R2).
  cbn [mret M_ret]. rewrite after_after.
  eexists _, _. split; [reflexivity|].
  cbn [after trace metrics]. split; [reflexivity|]. cbn [app].
  change (createCalls (?a :: ?l)) with (createCalls l).
  change (processedPairs (?a :: ?l)) with (processedPairs l).
  rewrite createCalls_tagObs, processedPairs_tagObs. fold P.
  destruct (missing_nil R2 P Hall) as [-> _].
  cbn [bump tagsAdded tagsExisting volumesTagged]. done.
Qed.

End Twice.

Lemma second_pass_applies_nothing_witness :
  exists s1 s2,
    addAWSTags normal Background "env=prod,team=infra"
               "aws://eu-west-1b/vol-0123456789abcdef0" ","
               (start (cloud [("env", "prod")])) = Return () s1 /\
    addAWSTags normal Background "env=prod,team=infra"
               "aws://eu-west-1b/vol-0123456789abcdef0" "," s1 = Return () s2 /\
    createCalls (trace s1) = [("team", "infra")] /\
    createCalls (trace s2) = createCalls (trace s1) /\
    tagsExisting (metrics s2) = 2 + tagsExisting (metrics s1).
Proof.
  assert (Hfun : forall k v v' : string,
            (k, v) ∈ parsed (Split "env=prod,team=infra" ",") ->
            (k, v') ∈ parsed (Split "env=prod,team=infra" ",") -> v = v').
  { intros k v v'. change (parsed (Split "env=prod,team=infra" ","))
      with [("env", "prod"); ("team", "infra")].
    rewrite !elem_of_cons, !elem_of_nil. intros [E|[E|[]]] [E'|[E'|[]]]; congruence. }
  destruct (second_pass_applies_nothing (W := Sim) normal Background
              "vol-0123456789abcdef0" "eu-west-1" [("env", "prod")] createUp
              "env=prod,team=infra" "aws://eu-west-1b/vol-0123456789abcdef0" ","
              (start (cloud [("env", "prod")])) (cloud [("env", "prod")])
              Sim_reliable eq_refl eq_refl eq_refl eq_refl Hfun)
    as (s1 & obs1 & E1 & Ht1 & Hsecond).
  clear Hfun.
  assert (E1' : addAWSTags normal Background "env=prod,team=infra"
                  "aws://eu-west-1b/vol-0123456789abcdef0" ","
                  (start (cloud [("env", "prod")])) =
                Return () (final (addAWSTags normal Background "env=prod,team=infra"
                  "aws://eu-west-1b/vol-0123456789abcdef0" ","
                  (start (cloud [("env", "prod")])))))
    by (vm_compute; reflexivity).
  rewrite E1' in E1. injection E1 as <-.
  cbn [start trace app] in Ht1. subst obs1.
  destruct (Hsecond (cloud [("env", "prod"); ("team", "infra")]))
    as (s2 & obs2 & E2 & Ht2 & Hc2 & _ & He2 & _);
    [vm_compute; reflexivity | vm_compute; reflexivity |].
  eexists _, s2. split; [exact E1'|]. split; [exact E2|].
  split; [vm_compute; reflexivity|].
  split; [rewrite Ht2, createCalls_app, Hc2; apply app_nil_r|exact He2].
Defined.

(** C3, as stated, fails when the tag list gives one key two values.  With
    the tag list [a=1,a=2] and a volume without tags, the first pass applies
    both pairs and leaves [a=2] on the volume; the second pass, fetching
    exactly that, finds [a=1] missing and applies it again, and finds one
    pair existing, not two. *)
Lemma second_pass_reapplies_duplicate_key :
  let claim := taggedClaim "a=1,a=2" in
  let once := final (main normal [added claim] (start (cloud []))) in
  let twice := final (main normal [added claim; added claim] (start (cloud []))) in
  createCalls (trace once) = [("a", "1"); ("a", "2")] /\
  simTags (world once) = [("vol-0123456789abcdef0", putTags [] (createCalls (trace once)))] /\
  simTags (world once) = [("vol-0123456789abcdef0", [("a", "2")])] /\
  (exists s, main normal [added claim; added claim] (start (cloud [])) = Return () s) /\
  createCalls (trace twice) = [("a", "1"); ("a", "2"); ("a", "1")] /\
  tagsExisting (metrics twice) = 1.
Proof.
  cbn zeta. split; [vm_compute; reflexivity|]. split; [vm_compute; reflexivity|].
  split; [vm_compute; reflexivity|]. split.
  - match goal with |- exists s', ?o = _ =>
      let v := eval vm_compute in (final o) in exists v end.
    vm_compute. reflexivity.
  - vm_compute. split; reflexivity.
Qed.

(** * More of the program *)

(** ** Counters against the trace *)

Lemma existingEntries_app (t u : list Obs) :
  existingEntries (t ++ u) = existingEntries t + existingEntries u.
Proof.
  unfold existingEntries. by rewrite messages_app, List.filter_app, length_app.
Qed.

Lemma createFailures_app (t u : list Obs) :
  createFailures (t ++ u) = createFailures t + createFailures u.
Proof.
  unfold createFailures. by rewrite messages_app, List.filter_app, length_app.
Qed.

Lemma describeCalls_app (t u : list Obs) :
  describeCalls (t ++ u) = describeCalls t ++ describeCalls u.
Proof. unfold describeCalls. by rewrite flat_map_app. Qed.

Lemma volumeFetches_app (t u : list Obs) :
  volumeFetches (t ++ u) = volumeFetches t ++ volumeFetches u.
Proof. unfold volumeFetches. by rewrite flat_map_app. Qed.

Section Books.

Context {W : Type} {backend : Backend W}.

Lemma Ledger_refl (s : State W) : Ledger 0 0 0 s s.
Proof.
  exists []. rewrite app_nil_r. cbn. repeat split; try lia. constructor.
Qed.

Lemma Ledger_trans (n d m e p : nat) (s s1 s2 : State W) :
  Ledger n d 0 s s1 -> Ledger m e p s1 s2 -> Ledger (n + m) (d + e) p s s2.
Proof.
  intros (o1 & Ht1 & He1 & Ha1 & Hx1 & Hp1 & Hv1 & Hw1 & Hd1 & Hf1 & Hc1 & Hu1 & Hz1)
         (o2 & Ht2 & He2 & Ha2 & Hx2 & Hp2 & Hv2 & Hw2 & Hd2 & Hf2 & Hc2 & Hu2 & Hz2).
  exists (o1 ++ o2).
  rewrite createCalls_app, existingEntries_app, messages_app, describeCalls_app,
    volumeFetches_app, createFailures_app, !length_app.
  split; [by rewrite Ht2, Ht1, app_assoc|].
  repeat split; try lia. by apply Forall_app.
Qed.

Lemma Ledger_more (n d d' p : nat) (s s' : State W) :
  d <= d' -> Ledger n d p s s' -> Ledger n d' p s s'.
Proof.
  intros Hd (o & Ht & He & Ha & Hx & Hp & Hv & Hw & Hdc & Hf & Hc & Hu & Hz).
  exists o. repeat split; try done; lia.
Qed.

Lemma Kept_after {A} (n d e : nat) (s s1 : State W) (Q : A -> State W -> Prop)
    (o : Outcome W A) :
  Ledger n d 0 s s1 -> Kept 0 e s1 Q o -> Kept n (d + e) s Q o.
Proof.
  intros L. destruct o as [a s'|c s'|v s']; cbn.
  - intros [L' HQ]. split; [|done].
    replace n with (n + 0) by lia. by eapply Ledger_trans.
  - intros (p & Hp & L'). exists p. split; [done|].
    replace n with (n + 0) by lia. by eapply Ledger_trans.
  - intros L'. replace n with (n + 0) by lia. by eapply Ledger_trans.
Qed.

Lemma Kept_bind {A B} (n d e : nat) (s : State W) (m : M W A) (f : A -> M W B)
    (Q : A -> State W -> Prop) (Q' : B -> State W -> Prop) :
  Kept n d s Q (m s) ->
  (forall a s1, Ledger n d 0 s s1 -> Q a s1 -> Kept 0 e s1 Q' (f a s1)) ->
  Kept n (d + e) s Q' ((m ≫= f) s).
Proof.
  intros Hm Hf. unfold mbind, M_bind.
  destruct (m s) as [a s1|c s1|v s1]; cbn in Hm.
  - destruct Hm as [L HQ]. eapply Kept_after; [exact L|]. by apply Hf.
  - destruct Hm as (p & Hp & L). exists p. split; [done|].
    eapply Ledger_more; [|exact L]. lia.
  - eapply Ledger_more; [|exact Hm]. lia.
Qed.

Lemma Kept_weaken {A} (n d : nat) (s : State W) (Q Q' : A -> State W -> Prop)
    (o : Outcome W A) :
  (forall a s', Ledger n d 0 s s' -> Q a s' -> Q' a s') -> Kept n d s Q o -> Kept n d s Q' o.
Proof. intros HQ. destruct o; cbn; [|done..]. intros [L H]. split; [done|]. by apply HQ. Qed.

End Books.

(** The books of a state written out as [trace s ++ obs]. *)
Ltac books obs :=
  exists obs; cbn; rewrite <- ?app_assoc; cbn;
  repeat split; try lia; try reflexivity; repeat constructor.

(** Carry the books from the state the computation has reached. *)
Ltac reached n d e :=
  match goal with
  | |- Kept _ _ ?s _ (_ ?s1) => apply (Kept_after n d e s s1)
  end.

Section Audit.

Context {W : Type} {backend : Backend W}.

Variable flags : Flags.

Lemma hasTag_kept (ctx : Ctx) (tags : list (option Tag)) (k v vol region : string)
    (s : State W) :
  Kept 0 0 s (fun _ _ => True) (hasTag ctx tags k v vol region s).
Proof.
  induction tags as [|ti tags IH]; [split; [apply Ledger_refl|done]|].
  cbn [hasTag]. unfold mbind at 1, M_bind at 1.
  destruct ti as [t|]; cbn [run deref]; [|apply Ledger_refl].
  unfold mbind at 1, M_bind at 1.
  destruct (Key t) as [k0|]; cbn [run deref]; [|apply Ledger_refl].
  destruct (String.eqb k0 k); [|exact IH].
  unfold mbind at 1, M_bind at 1.
  destruct (Value t) as [v0|]; cbn [run deref]; [|apply Ledger_refl].
  destruct (String.eqb v0 v); [|exact IH].
  split; [|done].
  books [Logged InfoLevel (tagFields ctx k v vol region) "Tag value already exists"].
Qed.

Lemma setTag_kept (ctx : Ctx) (svc k v vol : string) (s : State W) :
  Kept 0 0 s (fun _ s' => tagsAdded (metrics s) < tagsAdded (metrics s'))
       (setTag flags ctx svc k v vol s).
Proof.
  unfold setTag, mbind, M_bind, call.
  destruct (CreateTags svc _ (world s)) as [[[]|e] w'].
  - destruct (debug flags); cbn; (split; [|lia]); books [created svc vol k v].
  - exists 1. split; [done|].
    books [created svc vol k v;
           Logged FatalLevel (WithFields [("volId", vol)] (WithError e (logWithCtx ctx)))
                  "Error creating tags"].
Qed.

Lemma tagStep_kept (ctx : Ctx) (svc vol region : string) (resp : DescribeVolumesOutput)
    (b : bool) (tag : string) (s : State W) :
  Kept 0 0 s
       (fun b' s' => b' = true -> b = true \/ tagsAdded (metrics s) < tagsAdded (metrics s'))
       (tagStep flags ctx svc resp vol region b tag s).
Proof.
  unfold tagStep.
  destruct (Split tag "=") as [|t0 [|t1 [|t2 ts]]].
  1, 2, 4: split; [books [Logged ErrorLevel (logWithCtx ctx) "Skipping malformed tag"]|tauto].
  unfold mbind at 1, M_bind at 1. cbn [Info emit].
  reached 0 0 0;
    [books [Logged InfoLevel (tagFields ctx t0 t1 vol region) "Processing EBS Volume"]|].
  unfold mbind at 1, M_bind at 1.
  destruct (index (Volumes resp) 0) as [v0|pv]; cbn [run]; [|apply Ledger_refl].
  unfold mbind at 1, M_bind at 1.
  destruct v0 as [volume|]; cbn [run deref]; [|apply Ledger_refl].
  eapply (Kept_bind 0 0 0); [apply hasTag_kept|].
  intros present s1 L1 _. destruct present; cbn [negb].
  - split; [apply Ledger_refl|].
    intros ->. by left.
  - eapply (Kept_bind 0 0 0); [apply setTag_kept|].
    intros r s2 L2 Hlt. split; [apply Ledger_refl|]. intros _. right.
    destruct L1 as (o1 & _ & _ & Ha1 & _). cbn in Ha1, Hlt |- *. lia.
Qed.

Lemma tagLoop_kept (ctx : Ctx) (svc vol region : string) (resp : DescribeVolumesOutput)
    (tags : list string) (b : bool) (s : State W) :
  Kept 0 0 s
       (fun b' s' => b' = true -> b = true \/ tagsAdded (metrics s) < tagsAdded (metrics s'))
       (tagLoop flags ctx svc resp vol region b tags s).
Proof.
  revert b s. induction tags as [|tag tags IH]; intros b s.
  - split; [apply Ledger_refl|]. by left.
  - cbn [tagLoop]. eapply (Kept_bind 0 0 0); [apply tagStep_kept|].
    intros b1 s1 L1 H1. eapply Kept_weaken; [|apply IH].
    intros b2 s2 L2 H2 Hb.
    destruct L1 as (o1 & _ & _ & Ha1 & _). destruct L2 as (o2 & _ & _ & Ha2 & _).
    destruct (H2 Hb) as [->|Hlt]; [destruct (H1 eq_refl) as [?|?]; [by left|right; lia]|].
    right. lia.
Qed.

Lemma addAWSTags_kept (ctx : Ctx) (awsTags id sep : string) (s : State W) :
  Kept 0 1 s (fun _ _ => True) (addAWSTags flags ctx awsTags id sep s).
Proof.
  unfold addAWSTags. unfold mbind at 1, M_bind at 1.
  destruct (splitVol id) as [[region vol]|pv]; cbn [run];
    [|eapply Ledger_more; [|apply Ledger_refl]; lia].
  unfold mbind at 1, M_bind at 1, session.
  destruct (NewSession region (world s)) as [[]|e];
    [|eapply Ledger_more; [|apply Ledger_refl]; lia].
  unfold mbind at 1, M_bind at 1, call.
  destruct (DescribeVolumes region [vol] (world s)) as [[resp|e] w1].
  - assert (L0 : Ledger 0 1 0 s (Build_State w1 (metrics s)
                                   (trace s ++ [Ec2DescribeVolumes region [vol]])))
      by books [Ec2DescribeVolumes region [vol]].
    unfold mbind, M_bind.
    pose proof (tagLoop_kept ctx region vol region resp (Split awsTags sep) false
                  (Build_State w1 (metrics s)
                     (trace s ++ [Ec2DescribeVolumes region [vol]]))) as K.
    destruct (tagLoop _ _ _ _ _ _ _ _ _) as [b s1|c s1|v s1]; cbn in K.
    + destruct K as [L1 Hb]. destruct b.
      * split; [|done]. destruct Hb as [Hb|Hlt]; [done..|].
        destruct L1 as (o1 & Ht & He & Ha & Hx & Hp & Hv & Hw & Hdv & Hf & Hc & Hu & Hz).
        cbn [metrics trace world] in Ht, He, Ha, Hx, Hp, Hv, Hw, Hdv, Hlt.
        exists (Ec2DescribeVolumes region [vol] :: o1).
        cbn [Inc metrics trace world incVolumesTagged eventsProcessed tagsAdded
             tagsExisting volumesTagged processingErrors].
        rewrite Ht, <- app_assoc. cbn [app].
        change (describeCalls (?a :: ?l)) with ((region, [vol]) :: describeCalls l).
        cbn [length].
        change (createCalls (?a :: ?l)) with (createCalls l).
        change (existingEntries (?a :: ?l)) with (existingEntries l).
        change (messages ErrorLevel (?a :: ?l)) with (messages ErrorLevel l).
        change (volumeFetches (?a :: ?l)) with (volumeFetches l).
        change (createFailures (?a :: ?l)) with (createFailures l).
        repeat split; try lia. by constructor.
      * split; [|done]. exact (Ledger_trans 0 1 0 0 0 _ _ _ L0 L1).
    + destruct K as (p & Hp & L1). exists p. split; [done|].
      exact (Ledger_trans 0 1 0 0 p _ _ _ L0 L1).
    + exact (Ledger_trans 0 1 0 0 0 _ _ _ L0 K).
  - split; [|done].
    books [Ec2DescribeVolumes region [vol];
           Logged ErrorLevel
             (WithFields [("volId", vol); ("region", region)] (WithError e (logWithCtx ctx)))
             "Cannot get volume"].
Qed.

Lemma reconcileClaim_kept (ctx : Ctx) (pvc : PersistentVolumeClaim) (id : string)
    (s : State W) :
  Kept 0 1 s (fun _ _ => True) (reconcileClaim flags ctx pvc id s).
Proof.
  unfold reconcileClaim. unfold mbind at 1, M_bind at 1. cbn [Info emit].
  assert (L0 : Ledger 0 0 0 s (Build_State (world s) (metrics s)
                                 (trace s ++ [processingVolumeTags ctx])))
    by books [processingVolumeTags ctx].
  destruct (isEBSVolume pvc).
  - destruct (scanAnnotations _) as [sep awsTags].
    destruct (String.eqb awsTags ""); cbn [negb].
    + split; [|done]. eapply Ledger_more; [|exact L0]. lia.
    + destruct (dryrun flags); cbn [negb].
      * split; [|done].
        books [processingVolumeTags ctx;
               Logged InfoLevel
                 (WithFields [("tags", awsTags); ("volId", id)] (logWithCtx ctx))
                 "Running in dry run mode, not adding tags"].
      * reached 0 0 1; [exact L0|]. apply addAWSTags_kept.
  - split; [|done].
    books [processingVolumeTags ctx;
           Logged WarnLevel (logWithCtx ctx) "Volume is not EBS. Ignoring"].
Qed.

(** What the handling of one event leaves in the books, and the context
    it hands on. *)
Lemma handleEvent_kept (ctx : Ctx) (ev : Event) (s : State W) :
  Kept 1 1 s
       (fun ctx' _ =>
          match Object_ ev, Type_ ev with
          | ClaimObject pvc, (Added | Modified) => ctx' = claimCtx pvc
          | _, _ => ctx' = ctx
          end)
       (handleEvent flags ctx ev s).
Proof.
  unfold handleEvent. unfold mbind at 1, M_bind at 1. cbn [Inc].
  assert (L0 : Ledger 1 0 0 s (Build_State (world s) (incEventsProcessed (metrics s))
                                 (trace s))).
  { exists []. rewrite app_nil_r. cbn. repeat split; try lia. constructor. }
  destruct (Object_ ev) as [pvc|].
  - assert (Hquiet : Kept 1 1 s (fun ctx' _ => ctx' = ctx)
              (Return ctx (Build_State (world s) (incEventsProcessed (metrics s))
                             (trace s)))).
    { split; [|done]. eapply Ledger_more; [|exact L0]. lia. }
    destruct (Type_ ev); try exact Hquiet.
    all: unfold mbind at 1, M_bind at 1, call; cbn [world metrics trace];
      destruct (GetPersistentVolume (VolumeName pvc) (world s)) as [[pv|e] w'].
    1, 3: unfold mbind at 1, M_bind at 1;
      destruct (AWSElasticBlockStore pv) as [ebs|]; cbn [run deref];
      [ reached 1 0 1;
        [books [KubeGetPersistentVolume (VolumeName pvc)]|];
        eapply (Kept_bind 0 1 0); [apply reconcileClaim_kept|];
        intros r s1 L1 _; split; [apply Ledger_refl|done]
      | books [KubeGetPersistentVolume (VolumeName pvc)] ].
    all: split; [|done];
      books [KubeGetPersistentVolume (VolumeName pvc);
             Logged ErrorLevel (WithError e (logWithCtx (claimCtx pvc)))
                    "Cannot find EBS volume associated with Volume Claim"].
  - exists 0. split; [lia|].
    books [Logged FatalLevel (logWithCtx ctx) "Unexpected event type"].
Qed.

End Audit.

(** ** Whole runs *)

Section WholeRuns.

Context {W : Type} {backend : Backend W}.

Variable flags : Flags.

(** The books of the watch loop: one event counted for every event
    handled, the last one included when it ends the process. *)
Lemma watchLoop_kept (ch : list Event) (ctx : Ctx) (s : State W) :
  match watchLoop flags ctx ch s with
  | Return _ s' => Ledger (length ch) (length ch) 0 s s'
  | Exit _ s' =>
      exists n pending, 1 <= n <= length ch /\ pending <= 1 /\ Ledger n n pending s s'
  | Panicked _ s' => exists n, 1 <= n <= length ch /\ Ledger n n 0 s s'
  end.
Proof.
  revert ctx s. induction ch as [|ev ch IH]; intros ctx s; [apply Ledger_refl|].
  cbn [watchLoop length]. unfold mbind, M_bind.
  pose proof (handleEvent_kept flags ctx ev s) as K.
  destruct (handleEvent flags ctx ev s) as [ctx' s1|c s1|v s1]; cbn in K.
  - destruct K as [L1 _]. specialize (IH ctx' s1).
    destruct (watchLoop flags ctx' ch s1) as [[] s2|c s2|v s2].
    + exact (Ledger_trans 1 1 _ _ 0 _ _ _ L1 IH).
    + destruct IH as (n & p & Hn & Hp & L2). exists (1 + n), p.
      split; [lia|]. split; [done|]. exact (Ledger_trans 1 1 _ _ p _ _ _ L1 L2).
    + destruct IH as (n & Hn & L2). exists (1 + n).
      split; [lia|]. exact (Ledger_trans 1 1 _ _ 0 _ _ _ L1 L2).
  - destruct K as (p & Hp & L1). exists 1, p. split; [lia|]. done.
  - exists 1. split; [lia|]. done.
Qed.

(** The three ways a run ends, by what they tell about the books. *)
Lemma watchLoop_ledger (ch : list Event) (ctx : Ctx) (s : State W) :
  exists n pending,
    Ledger n n pending s (final (watchLoop flags ctx ch s)) /\
    n <= length ch /\ pending <= 1 /\
    (forall u s', watchLoop flags ctx ch s = Return u s' -> n = length ch /\ pending = 0) /\
    (forall v s', watchLoop flags ctx ch s = Panicked v s' -> 1 <= n /\ pending = 0) /\
    (forall c s', watchLoop flags ctx ch s = Exit c s' -> 1 <= n).
Proof.
  pose proof (watchLoop_kept ch ctx s) as K.
  destruct (watchLoop flags ctx ch s) as [u s'|c s'|v s']; cbn [final].
  - exists (length ch), 0. repeat split; try done; lia.
  - destruct K as (n & p & Hn & Hp & L). exists n, p. repeat split; try done; lia.
  - destruct K as (n & Hn & L). exists n, 0. repeat split; try done; lia.
Qed.

(** X1.  Every successful tagging call is counted once in [tagsAdded], and
    a failed one is not.  [setTag] adds one to the counter exactly when the
    call returns without an error; on an error it writes the fatal entry
    "Error creating tags" and exits with the counter as it was.  Over any
    run of the loop, however it ends, the counter rises by the number of
    tagging calls issued less the number of those fatal entries: none in a
    run that returns or panics, one at most in a run that exits. *)
Theorem tagsAdded_counts_tagging_calls (ch : list Event) (ctx : Ctx) (s : State W) :
  (forall ctx0 svc k v vol (s0 : State W),
     match CreateTags svc {| Resources := [vol]; NewTags := [(k, v)] |} (world s0) with
     | (OK _, w') =>
         setTag flags ctx0 svc k v vol s0 =
         Return true (after s0 w' (bump 1 0 0 0) [created svc vol k v])
     | (Err e, w') =>
         setTag flags ctx0 svc k v vol s0 =
         Exit 1 (after s0 w' (fun c => c)
           [created svc vol k v;
            Logged FatalLevel
              (WithFields [("volId", vol)] (WithError e (logWithCtx ctx0)))
              "Error creating tags"])
     end) /\
  let o := watchLoop flags ctx ch s in
  exists obs,
    trace (final o) = trace s ++ obs /\
    tagsAdded (metrics (final o)) + createFailures obs =
      tagsAdded (metrics s) + length (createCalls obs) /\
    match o with
    | Exit _ _ => createFailures obs <= 1
    | Return _ _ | Panicked _ _ => createFailures obs = 0
    end.
Proof.
  split.
  - intros ctx0 svc k v vol s0.
    destruct (CreateTags svc _ (world s0)) as [[[]|e] w'] eqn:E.
    + by apply setTag_OK.
    + by apply setTag_Err.
  - cbn zeta. pose proof (watchLoop_kept ch ctx s) as K.
    destruct (watchLoop flags ctx ch s) as [u s'|c s'|v s']; cbn [final].
    + destruct K as (obs & Ht & _ & Ha & _ & _ & _ & _ & _ & _ & _ & _ & Hz).
      exists obs. split; [done|]. split; [lia|done].
    + destruct K as (n & p & _ & Hp & obs & Ht & _ & Ha & _ & _ & _ & _ & _ & _ & _ & _ & Hz).
      exists obs. split; [done|]. split; lia.
    + destruct K as (n & _ & obs & Ht & _ & Ha & _ & _ & _ & _ & _ & _ & _ & _ & Hz).
      exists obs. split; [done|]. split; [lia|done].
Qed.

(** X2.  The error counter and the counter of existing tags mirror the log:
    over any run, [processingErrors] rises by the number of error-level
    entries written and [tagsExisting] by the number of "Tag value already
    exists" entries. *)
Theorem counters_mirror_entries (ch : list Event) (ctx : Ctx) (s : State W) :
  let s' := final (watchLoop flags ctx ch s) in
  exists obs,
    trace s' = trace s ++ obs /\
    processingErrors (metrics s') =
      processingErrors (metrics s) + length (messages ErrorLevel obs) /\
    tagsExisting (metrics s') = tagsExisting (metrics s) + existingEntries obs.
Proof.
  cbn zeta. destruct (watchLoop_ledger ch ctx s) as (n & p & L & _).
  destruct L as (obs & Ht & _ & _ & Hx & Hp & _). by exists obs.
Qed.

(** X3.  Every event taken from the channel is counted, also the one that
    ends the process: a run that returns has counted all of them, a run
    that exits or panics at least one and no more than were delivered.  The
    bound volume is fetched at most once per counted event, and so are the
    remote tags. *)
Theorem events_counted (ch : list Event) (ctx : Ctx) (s : State W) :
  let o := watchLoop flags ctx ch s in
  exists n obs,
    trace (final o) = trace s ++ obs /\
    eventsProcessed (metrics (final o)) = eventsProcessed (metrics s) + n /\
    n <= length ch /\
    length (volumeFetches obs) <= n /\
    length (describeCalls obs) <= n /\
    match o with
    | Return _ _ => n = length ch
    | _ => 1 <= n
    end.
Proof.
  cbn zeta. destruct (watchLoop_ledger ch ctx s) as (n & p & L & Hn & _ & HR & HP & HX).
  destruct L as (obs & Ht & He & _ & _ & _ & _ & _ & _ & Hf & Hd & _).
  exists n, obs. repeat split; try done.
  destruct (watchLoop flags ctx ch s) as [u s'|c s'|v s'].
  - by destruct (HR u s' eq_refl).
  - by apply (HX c s').
  - by destruct (HP v s' eq_refl).
Qed.

(** X4.  A volume is counted as tagged only when a tag was added to it: over
    any run, [volumesTagged] never falls, rises by no more than
    [tagsAdded] does, and by no more than the number of fetches of remote
    tags. *)
Theorem volumesTagged_bounded (ch : list Event) (ctx : Ctx) (s : State W) :
  let s' := final (watchLoop flags ctx ch s) in
  exists obs,
    trace s' = trace s ++ obs /\
    volumesTagged (metrics s) <= volumesTagged (metrics s') /\
    volumesTagged (metrics s') - volumesTagged (metrics s) <=
      tagsAdded (metrics s') - tagsAdded (metrics s) /\
    volumesTagged (metrics s') - volumesTagged (metrics s) <= length (describeCalls obs).
Proof.
  cbn zeta. destruct (watchLoop_ledger ch ctx s) as (n & p & L & _).
  destruct L as (obs & Ht & _ & _ & _ & _ & Hv & Hw & Hd & _).
  exists obs. repeat split; try done; lia.
Qed.

(** X5.  Tags are never applied in batches: every tagging call of a run names
    one volume and one tag. *)
Theorem tagging_calls_unbatched (ch : list Event) (ctx : Ctx) (s : State W) :
  exists obs,
    trace (final (watchLoop flags ctx ch s)) = trace s ++ obs /\
    forall region input,
      Ec2CreateTags region input ∈ obs ->
      length (Resources input) = 1 /\ length (NewTags input) = 1.
Proof.
  destruct (watchLoop_ledger ch ctx s) as (n & p & L & _).
  destruct L as (obs & Ht & _ & _ & _ & _ & _ & _ & _ & _ & _ & Hu & _).
  exists obs. split; [done|]. intros region input Hin.
  rewrite Forall_forall in Hu. exact (Hu _ Hin).
Qed.

End WholeRuns.

(** ** Events the loop does not reconcile *)

Section Ignored.

Context {W : Type} {backend : Backend W}.

Variable flags : Flags.

(** X6.  Events about claims that are neither added nor modified (deleted,
    bookmark, error) are counted and nothing else: a channel of such events
    leaves the world, the trace and every other counter as they were. *)
Theorem other_events_only_counted (ch : list Event) (ctx : Ctx) (s : State W) :
  Forall onlyCounted ch ->
  watchLoop flags ctx ch s =
  Return () (Build_State (world s) (countEvents (length ch) (metrics s)) (trace s)).
Proof.
  revert s. induction ch as [|ev ch IH]; intros s Hall.
  - cbn. by destruct s as [w [] t].
  - inversion Hall as [|? ? ([pvc Ho] & Ha & Hm) Hrest]; subst.
    erewrite watchLoop_Return; last first.
    { by apply (handleEvent_other_type flags ctx ev pvc). }
    rewrite IH by done. unfold after, countEvents. cbn. rewrite app_nil_r.
    do 2 f_equal. f_equal. lia.
Qed.

Lemma handleEvent_unexpected (ctx : Ctx) (ev : Event) (s : State W) :
  Object_ ev = OtherObject ->
  handleEvent flags ctx ev s =
  Exit 1 (after s (world s) incEventsProcessed
            [Logged FatalLevel (logWithCtx ctx) "Unexpected event type"]).
Proof.
  intros Ho. unfold handleEvent. rewrite Ho.
  unfold mbind, M_bind, Inc, Fatal, after. reflexivity.
Qed.

(** X7.  An event whose object is not a claim ends the process with status 1,
    whatever the type of the event, once the event is counted; the events
    after it are not handled. *)
Theorem unexpected_object_exits (ctx : Ctx) (ev : Event) (rest : list Event) (s : State W) :
  Object_ ev = OtherObject ->
  watchLoop flags ctx (ev :: rest) s =
  Exit 1 (after s (world s) incEventsProcessed
            [Logged FatalLevel (logWithCtx ctx) "Unexpected event type"]).
Proof.
  intros Ho. by apply watchLoop_Exit, handleEvent_unexpected.
Qed.


(** X9.  A claim whose bound volume cannot be fetched is left alone: one error
    is counted and logged, no call to EC2 is made, and the loop goes on
    with the next event.  This holds for every added or modified claim,
    whatever its annotations, the ones the filter would reject
    included. *)
Theorem volume_not_found_skipped (ctx : Ctx) (ev : Event) (rest : list Event)
    (pvc : PersistentVolumeClaim) (s : State W) (e : error) (w' : W) :
  Object_ ev = ClaimObject pvc ->
  Type_ ev = Added \/ Type_ ev = Modified ->
  GetPersistentVolume (VolumeName pvc) (world s) = (Err e, w') ->
  let s1 := after s w' (fun c => bump 0 0 0 1 (incEventsProcessed c))
              [KubeGetPersistentVolume (VolumeName pvc);
               Logged ErrorLevel (WithError e (logWithCtx (claimCtx pvc)))
                      "Cannot find EBS volume associated with Volume Claim"] in
  watchLoop flags ctx (ev :: rest) s = watchLoop flags (claimCtx pvc) rest s1 /\
  providerCalls (trace s1) = providerCalls (trace s).
Proof.
  intros Ho Ht Hg s1. split.
  - apply watchLoop_Return. by apply handleEvent_not_found.
  - unfold s1, after. cbn [trace]. rewrite providerCalls_app. cbn. by rewrite app_nil_r.
Qed.

(** X10.  A claim that passes the filter and carries no tag list, or an empty
    one, is a silent no-op in either mode: nothing but the first
    informational entry is written, no call to EC2 is made, no counter but
    the event count moves.  A separator annotation alone changes
    nothing. *)
Theorem no_tags_no_reconciliation (ctx : Ctx) (ev : Event) (pvc : PersistentVolumeClaim)
    (s : State W) (pv : PersistentVolume) (ebs : AWSElasticBlockStoreVolumeSource) (w' : W) :
  Object_ ev = ClaimObject pvc ->
  Type_ ev = Added \/ Type_ ev = Modified ->
  GetPersistentVolume (VolumeName pvc) (world s) = (OK pv, w') ->
  AWSElasticBlockStore pv = Some ebs ->
  Annotations pvc !! provisionerKey = Some ebsProvisioner ->
  Annotations pvc !! tagsKey = None \/ Annotations pvc !! tagsKey = Some "" ->
  handleEvent flags ctx ev s =
  Return (claimCtx pvc)
    (after s w' incEventsProcessed
       [KubeGetPersistentVolume (VolumeName pvc); processingVolumeTags (claimCtx pvc)]).
Proof.
  intros Ho Ht Hg Hebs Hp Htags.
  rewrite (handleEvent_found flags ctx ev pvc s pv w' Ho Ht Hg), Hebs.
  unfold mbind at 1, M_bind at 1. cbn [run deref].
  erewrite bind_Return; last first.
  { apply reconcileClaim_no_tags; [by apply isEBSVolume_lookup|].
    by destruct Htags as [-> | ->]. }
  by rewrite after_after.
Qed.

End Ignored.

Import Cases.

Lemma other_events_only_counted_witness :
  main normal [deleted (taggedClaim "env=prod"); bookmark unboundClaim] (start (cloud [])) =
  Return () {| world := cloud []; metrics := countEvents 2 zeroCounters; trace := [] |}.
Proof.
  apply (other_events_only_counted (W := Sim) normal
           [deleted (taggedClaim "env=prod"); bookmark unboundClaim] Background
           (start (cloud []))).
  repeat constructor; try discriminate; by eexists.
Defined.

Lemma unexpected_object_exits_witness :
  main normal [stray; added (taggedClaim "env=prod")] (start (cloud [])) =
  Exit 1 {| world := cloud [];
            metrics := incEventsProcessed zeroCounters;
            trace := [Logged FatalLevel stdEntry "Unexpected event type"] |}.
Proof.
  exact (unexpected_object_exits (W := Sim) normal Background stray
           [added (taggedClaim "env=prod")] (start (cloud [])) eq_refl).
Defined.


Lemma volume_not_found_skipped_witness :
  main normal [added unboundClaim] (start (cloud [])) =
  Return ()
    {| world := cloud [];
       metrics := bump 0 0 0 1 (incEventsProcessed zeroCounters);
       trace :=
         [KubeGetPersistentVolume "pv-gone";
          Logged ErrorLevel
            (WithError "persistentvolumes not found" (logWithCtx (claimCtx unboundClaim)))
            "Cannot find EBS volume associated with Volume Claim"] |}.
Proof.
  exact (proj1 (volume_not_found_skipped (W := Sim) normal Background (added unboundClaim) []
                  unboundClaim (start (cloud [])) "persistentvolumes not found" (cloud [])
                  eq_refl (or_introl eq_refl) eq_refl)).
Defined.

Lemma no_tags_no_reconciliation_witness :
  main normal [modified untaggedClaim] (start (cloud [])) =
  Return ()
    {| world := cloud [];
       metrics := incEventsProcessed zeroCounters;
       trace := [KubeGetPersistentVolume "pv-data";
                 processingVolumeTags (claimCtx untaggedClaim)] |}.
Proof.
  unfold main. cbn [watchLoop].
  erewrite bind_Return; [reflexivity|].
  refine (no_tags_no_reconciliation (W := Sim) normal Background (modified untaggedClaim)
            untaggedClaim (start (cloud [])) ebsVolume
            {| VolumeID := "aws://eu-west-1b/vol-0123456789abcdef0" |} (cloud [])
            eq_refl (or_intror eq_refl) eq_refl eq_refl _ (or_introl _));
    by vm_compute.
Defined.

(** ** Edges of the reconciliation *)

Lemma splitVol_short (id : string) :
  length (Split id "/") < 4 ->
  splitVol id =
  Crash (IndexOutOfRange (if decide (length (Split id "/") < 3) then 2 else 3)
                         (length (Split id "/"))).
Proof.
  unfold splitVol, index. intros Hlt.
  destruct (Split id "/") as [|a [|b [|c [|d l]]]]; cbn in *; try done. lia.
Qed.

Section Edges.

Context {W : Type} {backend : Backend W}.

Variable flags : Flags.

Lemma hasTag_app_sdkTags (ctx : Ctx) (R : list (string * string)) (rest : list (option Tag))
    (k v vol region : string) (s : State W) :
  hasTag ctx (sdkTags R ++ rest) k v vol region s =
  if bool_decide ((k, v) ∈ R)
  then Return true (after s (world s) (bump 0 1 0 0)
         [Logged InfoLevel (tagFields ctx k v vol region) "Tag value already exists"])
  else hasTag ctx rest k v vol region s.
Proof.
  induction R as [|[k' v'] R IH].
  - by rewrite bool_decide_eq_false_2 by apply not_elem_of_nil.
  - cbn [sdkTags map app hasTag]. fold (sdkTags R).
    unfold mbind, M_bind. cbn [run deref Key Value fst snd].
    destruct (String.eqb_spec k' k) as [->|Hk].
    + cbn [run deref Value]. destruct (String.eqb_spec v' v) as [->|Hv].
      * rewrite bool_decide_eq_true_2 by apply list_elem_of_here. reflexivity.
      * rewrite IH. apply (f_equal (fun b : bool => if b then _ else _)).
        apply bool_decide_ext. rewrite elem_of_cons.
        split; [tauto | intros [E|?]; [congruence | done]].
    + rewrite IH. apply (f_equal (fun b : bool => if b then _ else _)).
      apply bool_decide_ext. rewrite elem_of_cons.
      split; [tauto | intros [E|?]; [congruence | done]].
Qed.

(** X11.  [hasTag] reads the remote tags from the front and stops at the first
    match.  A nil tag, a tag with a nil key, or a tag with the key looked
    for and a nil value makes it panic when no earlier tag matches; a nil
    value under another key is passed over; behind a match none of them is
    ever read. *)
Theorem hasTag_nil_pointers (ctx : Ctx) (R : list (string * string))
    (rest : list (option Tag)) (k v vol region : string) (s : State W) :
  ((k, v) ∈ R ->
     hasTag ctx (sdkTags R ++ rest) k v vol region s =
     Return true (after s (world s) (bump 0 1 0 0)
       [Logged InfoLevel (tagFields ctx k v vol region) "Tag value already exists"])) /\
  ((k, v) ∉ R ->
     hasTag ctx (sdkTags R ++ None :: rest) k v vol region s = Panicked NilDereference s /\
     (forall value,
        hasTag ctx (sdkTags R ++ Some {| Key := None; Value := value |} :: rest)
               k v vol region s = Panicked NilDereference s) /\
     hasTag ctx (sdkTags R ++ Some {| Key := Some k; Value := None |} :: rest)
            k v vol region s = Panicked NilDereference s /\
     (forall k', k' <> k ->
        hasTag ctx (sdkTags R ++ Some {| Key := Some k'; Value := None |} :: rest)
               k v vol region s =
        hasTag ctx rest k v vol region s)).
Proof.
  split.
  - intros Hin. rewrite hasTag_app_sdkTags. by rewrite bool_decide_eq_true_2.
  - intros Hout. rewrite !hasTag_app_sdkTags, bool_decide_eq_false_2 by done.
    split; [reflexivity|]. split.
    { intros value. by rewrite hasTag_app_sdkTags, bool_decide_eq_false_2 by done. }
    split.
    { cbn [hasTag]. unfold mbind, M_bind. cbn [run deref Key Value].
      by rewrite String.eqb_refl. }
    intros k' Hk'. rewrite hasTag_app_sdkTags, bool_decide_eq_false_2 by done.
    cbn [hasTag]. unfold mbind, M_bind. cbn [run deref Key Value].
    by destruct (String.eqb_spec k' k).
Qed.

(** Tokens that yield no pair are skipped without a look at the response. *)
Lemma tagLoop_all_skipped (ctx : Ctx) (svc vol region : string) (resp : DescribeVolumesOutput)
    (tags : list string) (b : bool) (s : State W) :
  parsed tags = [] ->
  tagLoop flags ctx svc resp vol region b tags s =
  Return b (after s (world s) (bump 0 0 0 (length tags))
              (map (fun _ => Logged ErrorLevel (logWithCtx ctx) "Skipping malformed tag") tags)).
Proof.
  revert s. induction tags as [|tag tags IH]; intros s Hp.
  - cbn. unfold after. rewrite app_nil_r, bump_zero. by destruct s.
  - unfold parsed in *. cbn [omap list_omap] in Hp.
    destruct (parseTag tag) as [kv|] eqn:E; [done|].
    cbn [tagLoop]. erewrite bind_Return by by apply tagStep_malformed.
    rewrite IH by done. rewrite after_after. cbn [map length app].
    unfold after. cbn. do 2 f_equal. unfold bump. cbn. f_equal; lia.
Qed.

(** X12.  A response without volumes makes the first token that yields a pair
    index out of range: the tokens before it are counted as errors, the
    token is announced, and the process panics before any tag is compared
    or applied.  When no token yields a pair the empty response is never
    indexed and the reconciliation returns. *)
Theorem empty_response_panics (ctx : Ctx) (awsTags id sep region vol : string)
    (s : State W) (w1 : W) :
  splitVol id = Done (region, vol) ->
  NewSession region (world s) = OK () ->
  DescribeVolumes region [vol] (world s) = (OK {| Volumes := [] |}, w1) ->
  let skip := Logged ErrorLevel (logWithCtx ctx) "Skipping malformed tag" in
  (parsed (Split awsTags sep) = [] ->
     addAWSTags flags ctx awsTags id sep s =
     Return () (after s w1 (bump 0 0 0 (length (Split awsTags sep)))
       (Ec2DescribeVolumes region [vol] :: map (fun _ => skip) (Split awsTags sep)))) /\
  (forall pre tag k v post,
     Split awsTags sep = pre ++ tag :: post ->
     parsed pre = [] ->
     parseTag tag = Some (k, v) ->
     addAWSTags flags ctx awsTags id sep s =
     Panicked (IndexOutOfRange 0 0)
       (after s w1 (bump 0 0 0 (length pre))
          (Ec2DescribeVolumes region [vol] :: map (fun _ => skip) pre ++
           [Logged InfoLevel (tagFields ctx k v vol region) "Processing EBS Volume"]))).
Proof.
  intros Hv Hs Hd skip.
  rewrite (addAWSTags_fetched flags ctx awsTags id sep region vol _ s w1 Hv Hs Hd).
  split.
  - intros Hp. erewrite bind_Return by by apply tagLoop_all_skipped.
    cbn [mret M_ret]. rewrite after_after. reflexivity.
  - intros pre tag k v post Hsplit Hpre Hparse. rewrite Hsplit.
    apply bind_Panicked. rewrite tagLoop_app.
    erewrite bind_Return by by apply tagLoop_all_skipped.
    cbn [tagLoop]. apply bind_Panicked.
    unfold tagStep, parseTag in *.
    destruct (Split tag "=") as [|t0 [|t1 [|t2 ts]]]; try discriminate.
    injection Hparse as -> ->.
    unfold mbind, M_bind. cbn [Info emit run index Volumes lookup list_lookup length].
    rewrite !after_after. unfold after. cbn. by rewrite <- !app_assoc.
Qed.

End Edges.

Lemma hasTag_nil_pointers_witness :
  (exists s',
     hasTag Background (sdkTags [("env", "prod")] ++ [None]) "env" "prod"
            "vol-0123456789abcdef0" "eu-west-1" (start (cloud [])) = Return true s') /\
  hasTag Background (sdkTags [("env", "prod")] ++ [None]) "team" "infra"
         "vol-0123456789abcdef0" "eu-west-1" (start (cloud [])) =
  Panicked NilDereference (start (cloud [])) /\
  hasTag Background
         (sdkTags [("env", "prod")] ++ [Some {| Key := Some "owner"; Value := None |}])
         "team" "infra" "vol-0123456789abcdef0" "eu-west-1" (start (cloud [])) =
  Return false (start (cloud [])).
Proof.
  assert (Hin : ("env", "prod") ∈ [("env", "prod")]) by apply list_elem_of_here.
  assert (Hout : ("team", "infra") ∉ [("env", "prod")]).
  { rewrite elem_of_cons, elem_of_nil. intros [E|[]]. discriminate E. }
  split; [|split].
  - eexists.
    exact (proj1 (hasTag_nil_pointers (W := Sim) Background [("env", "prod")] [None]
                    "env" "prod" "vol-0123456789abcdef0" "eu-west-1" (start (cloud []))) Hin).
  - exact (proj1 (proj2 (hasTag_nil_pointers (W := Sim) Background [("env", "prod")] []
                           "team" "infra" "vol-0123456789abcdef0" "eu-west-1"
                           (start (cloud []))) Hout)).
  - refine (proj2 (proj2 (proj2 (proj2 (hasTag_nil_pointers (W := Sim) Background
                           [("env", "prod")] [] "team" "infra" "vol-0123456789abcdef0"
                           "eu-west-1" (start (cloud []))) Hout))) "owner" _).
    discriminate.
Defined.

Lemma empty_response_panics_witness :
  addAWSTags normal Background "novalue,env=prod,team=infra"
             "aws://eu-west-1b/vol-0123456789abcdef0" "," (begin emptyResponse) =
  Panicked (IndexOutOfRange 0 0)
    {| world := emptyResponse;
       metrics := bump 0 0 0 1 zeroCounters;
       trace :=
         [Ec2DescribeVolumes "eu-west-1" ["vol-0123456789abcdef0"];
          Logged ErrorLevel stdEntry "Skipping malformed tag";
          Logged InfoLevel
            (tagFields Background "env" "prod" "vol-0123456789abcdef0" "eu-west-1")
            "Processing EBS Volume"] |} /\
  addAWSTags normal Background "novalue,a=b=c"
             "aws://eu-west-1b/vol-0123456789abcdef0" "," (begin emptyResponse) =
  Return ()
    {| world := emptyResponse;
       metrics := bump 0 0 0 2 zeroCounters;
       trace :=
         [Ec2DescribeVolumes "eu-west-1" ["vol-0123456789abcdef0"];
          Logged ErrorLevel stdEntry "Skipping malformed tag";
          Logged ErrorLevel stdEntry "Skipping malformed tag"] |}.
Proof.
  split.
  - refine (proj2 (empty_response_panics (W := Script) normal Background
                     "novalue,env=prod,team=infra"
                     "aws://eu-west-1b/vol-0123456789abcdef0" "," "eu-west-1"
                     "vol-0123456789abcdef0" (begin emptyResponse) emptyResponse
                     eq_refl eq_refl eq_refl)
                  ["novalue"] "env=prod" "env" "prod" ["team=infra"] _ _ _);
      by vm_compute.
  - refine (proj1 (empty_response_panics (W := Script) normal Background
                     "novalue,a=b=c"
                     "aws://eu-west-1b/vol-0123456789abcdef0" "," "eu-west-1"
                     "vol-0123456789abcdef0" (begin emptyResponse) emptyResponse
                     eq_refl eq_refl eq_refl) _).
    by vm_compute.
Defined.

(** ** An accepted claim, end to end *)

Section Accepted.

Context {W : Type} {backend : Backend W}.

Variables (flags : Flags) (ctx : Ctx) (ev : Event) (rest : list Event).
Variables (pvc : PersistentVolumeClaim) (s : State W).
Variables (pv : PersistentVolume) (ebs : AWSElasticBlockStoreVolumeSource) (w1 : W).
Variable awsTags : string.

Hypothesis claim_event : Object_ ev = ClaimObject pvc.
Hypothesis upsert : Type_ ev = Added \/ Type_ ev = Modified.
Hypothesis volume_found : GetPersistentVolume (VolumeName pvc) (world s) = (OK pv, w1).
Hypothesis ebs_backed : AWSElasticBlockStore pv = Some ebs.
Hypothesis marked : Annotations pvc !! provisionerKey = Some ebsProvisioner.
Hypothesis tagged : Annotations pvc !! tagsKey = Some awsTags.
Hypothesis some_tags : awsTags <> "".

Local Abbreviation sep := (default "," (Annotations pvc !! separatorKey)).
Local Abbreviation s1 :=
  (after s w1 incEventsProcessed
     [KubeGetPersistentVolume (VolumeName pvc); processingVolumeTags (claimCtx pvc)]).

(** X13.  A volume id with fewer than four segments between slashes (a bare
    [vol-...] id, say) brings the process down in normal mode: the
    decomposition panics before a session is made or EC2 is called, and the
    events that follow are not handled.  Dry-run mode never looks at the
    id and logs the same claim as skipped. *)
Theorem short_volume_id_panics_unless_dry :
  length (Split (VolumeID ebs) "/") < 4 ->
  (dryrun flags = false ->
     watchLoop flags ctx (ev :: rest) s =
     Panicked (IndexOutOfRange (if decide (length (Split (VolumeID ebs) "/") < 3)
                                then 2 else 3)
                               (length (Split (VolumeID ebs) "/"))) s1) /\
  (dryrun flags = true ->
     handleEvent flags ctx ev s =
     Return (claimCtx pvc) (after s1 w1 (fun c => c)
       [Logged InfoLevel
          (WithFields [("tags", awsTags); ("volId", VolumeID ebs)]
                      (logWithCtx (claimCtx pvc)))
          "Running in dry run mode, not adding tags"])).
Proof.
  intros Hshort. split; intros Hmode.
  - apply watchLoop_Panicked.
    rewrite (handleEvent_live flags ctx ev pvc s pv ebs w1 awsTags) by done.
    apply bind_Panicked. unfold addAWSTags. apply bind_Panicked.
    by rewrite splitVol_short.
  - rewrite (handleEvent_found flags ctx ev pvc s pv w1 claim_event upsert volume_found).
    rewrite ebs_backed. unfold mbind at 1, M_bind at 1. cbn [run deref].
    erewrite bind_Return; last first.
    { rewrite (reconcileClaim_accepted flags _ pvc _ awsTags) by done.
      cbn zeta. rewrite Hmode. reflexivity. }
    unfold after, mret, M_ret. cbn. by rewrite <- !app_assoc.
Qed.

(** X14.  When the AWS session cannot be made the process panics with the error
    of the session, before any call to EC2, and the events that follow are
    not handled. *)
Theorem session_failure_panics (region vol : string) (e : error) :
  dryrun flags = false ->
  splitVol (VolumeID ebs) = Done (region, vol) ->
  NewSession region w1 = Err e ->
  watchLoop flags ctx (ev :: rest) s = Panicked (PanicError e) s1.
Proof.
  intros Hmode Hv Hs. apply watchLoop_Panicked.
  rewrite (handleEvent_live flags ctx ev pvc s pv ebs w1 awsTags) by done.
  apply bind_Panicked. unfold addAWSTags.
  unfold mbind at 1, M_bind at 1. rewrite Hv. cbn [run].
  unfold mbind at 1, M_bind at 1, session. cbn [after world]. by rewrite Hs.
Qed.

(** X15.  The whole handling of an accepted claim in normal mode when the fetch
    and the tagging calls go through.  The tag list is split on the
    separator annotation, a comma without it.  The event is counted; there
    is one fetch of the volume, one fetch of its tags, and one tagging call
    for each parsed pair the volume does not hold; the counters of added
    and existing tags and of errors rise by the number of pairs applied,
    pairs found and tokens skipped; the volume is counted as tagged once
    when at least one pair was applied and not at all otherwise. *)
Theorem accepted_claim_reconciled (Up : W -> Prop) (region vol : string)
    (R : list (string * string)) (w2 : W) :
  dryrun flags = false ->
  Reliable Up ->
  splitVol (VolumeID ebs) = Done (region, vol) ->
  NewSession region w1 = OK () ->
  DescribeVolumes region [vol] w1 = (OK (sdkVolumes R), w2) ->
  Up w2 ->
  let tokens := Split awsTags sep in
  let P := parsed tokens in
  exists w3, Up w3 /\
    handleEvent flags ctx ev s =
    Return (claimCtx pvc)
      (after s w3
         (fun c => bump (length (missing R P)) (length (held R P))
                        (if decide (missing R P = []) then 0 else 1)
                        (length (skipped tokens)) (incEventsProcessed c))
         ([KubeGetPersistentVolume (VolumeName pvc);
           processingVolumeTags (claimCtx pvc);
           Ec2DescribeVolumes region [vol]] ++
          flat_map (tagObs flags (claimCtx pvc) vol region R) tokens)).
Proof.
  intros Hmode HUp Hv Hs Hd Hw2 tokens P.
  rewrite (handleEvent_live flags ctx ev pvc s pv ebs w1 awsTags) by done.
  destruct (addAWSTags_reliable flags Up (claimCtx pvc) awsTags (VolumeID ebs) sep
              region vol R s1 w2 HUp Hv Hs Hd Hw2) as (w3 & Hw3 & E).
  exists w3. split; [done|].
  erewrite bind_Return by exact E. cbn [mret M_ret].
  rewrite after_after. fold tokens P. f_equal. unfold after. cbn. f_equal.
  by destruct (missing R P).
Qed.

End Accepted.

(** ** Volume identifiers with more segments *)

(** X16.  Segments after the fourth are ignored: whatever follows a further slash
    changes neither the region nor the volume id. *)
Theorem splitVol_ignores_further_segments (scheme zone vid more : string) :
  CountByte "/" scheme = 0 -> CountByte "/" zone = 0 -> CountByte "/" vid = 0 ->
  splitVol (scheme +:+ "://" +:+ zone +:+ "/" +:+ vid +:+ "/" +:+ more) =
  splitVol (scheme +:+ "://" +:+ zone +:+ "/" +:+ vid) /\
  splitVol (scheme +:+ "://" +:+ zone +:+ "/" +:+ vid) =
  Done (ReplaceTrailingLower zone, vid).
Proof.
  intros Hs Hz Hv.
  assert (E4 : splitVol (scheme +:+ "://" +:+ zone +:+ "/" +:+ vid) =
               Done (ReplaceTrailingLower zone, vid)).
  { unfold splitVol. by rewrite Split_volume_url. }
  split; [|exact E4]. rewrite E4. unfold splitVol.
  change (scheme +:+ "://" +:+ zone +:+ "/" +:+ vid +:+ "/" +:+ more)
    with (scheme +:+ ":" +:+
          String "/" (String "/" (zone +:+ String "/" (vid +:+ String "/" more)))).
  rewrite <- append_assoc.
  rewrite (Split_byte_app "/"%char); last first.
  { rewrite CountByte_app, Hs. reflexivity. }
  rewrite (Split_byte_cons "/"%char). cbn [Ascii.eqb Bool.eqb].
  rewrite (Split_byte_app "/"%char) by done.
  rewrite (Split_byte_app "/"%char) by done.
  reflexivity.
Qed.

Lemma short_volume_id_panics_unless_dry_witness :
  main normal [added (taggedClaim "env=prod"); added (taggedClaim "team=infra")]
       (begin bareCluster) =
  Panicked (IndexOutOfRange 2 1)
    {| world := bareCluster;
       metrics := incEventsProcessed zeroCounters;
       trace := [KubeGetPersistentVolume "pv-data";
                 processingVolumeTags (claimCtx (taggedClaim "env=prod"))] |}.
Proof.
  refine (proj1 (short_volume_id_panics_unless_dry (W := Script) normal Background
                   (added (taggedClaim "env=prod")) [added (taggedClaim "team=infra")]
                   (taggedClaim "env=prod") (begin bareCluster) bareVolume
                   {| VolumeID := "vol-0123456789abcdef0" |} bareCluster "env=prod"
                   eq_refl (or_introl eq_refl) eq_refl eq_refl _ _ _ _) eq_refl);
    [by vm_compute | by vm_compute | discriminate | cbn; lia].
Defined.

Lemma session_failure_panics_witness :
  main normal [added (taggedClaim "env=prod"); added (taggedClaim "team=infra")]
       (start (sessionDown (cloud []))) =
  Panicked (PanicError "could not load the shared configuration")
    {| world := sessionDown (cloud []);
       metrics := incEventsProcessed zeroCounters;
       trace := [KubeGetPersistentVolume "pv-data";
                 processingVolumeTags (claimCtx (taggedClaim "env=prod"))] |}.
Proof.
  refine (session_failure_panics (W := Sim) normal Background
            (added (taggedClaim "env=prod")) [added (taggedClaim "team=infra")]
            (taggedClaim "env=prod") (start (sessionDown (cloud []))) ebsVolume
            {| VolumeID := "aws://eu-west-1b/vol-0123456789abcdef0" |}
            (sessionDown (cloud [])) "env=prod"
            eq_refl (or_introl eq_refl) eq_refl eq_refl _ _ _
            "eu-west-1" "vol-0123456789abcdef0" "could not load the shared configuration"
            eq_refl eq_refl eq_refl);
    [by vm_compute | by vm_compute | discriminate].
Defined.

Lemma accepted_claim_reconciled_witness :
  let pvc := separatedClaim "env=prod;novalue;team=infra" in
  exists w3,
    createUp w3 /\
    handleEvent verbose Background (added pvc) (start (cloud [("env", "prod")])) =
    Return (claimCtx pvc)
      {| world := w3;
         metrics := bump 1 1 1 1 (incEventsProcessed zeroCounters);
         trace :=
           [KubeGetPersistentVolume "pv-data";
            processingVolumeTags (claimCtx pvc);
            Ec2DescribeVolumes "eu-west-1" ["vol-0123456789abcdef0"];
            Logged InfoLevel
              (tagFields (claimCtx pvc) "env" "prod" "vol-0123456789abcdef0" "eu-west-1")
              "Processing EBS Volume";
            Logged InfoLevel
              (tagFields (claimCtx pvc) "env" "prod" "vol-0123456789abcdef0" "eu-west-1")
              "Tag value already exists";
            Logged ErrorLevel (logWithCtx (claimCtx pvc)) "Skipping malformed tag";
            Logged InfoLevel
              (tagFields (claimCtx pvc) "team" "infra" "vol-0123456789abcdef0" "eu-west-1")
              "Processing EBS Volume";
            created "eu-west-1" "vol-0123456789abcdef0" "team" "infra"] |}.
Proof.
  cbn zeta.
  assert (Hg : GetPersistentVolume
                 (VolumeName (separatedClaim "env=prod;novalue;team=infra"))
                 (world (start (cloud [("env", "prod")]))) =
               (OK ebsVolume, cloud [("env", "prod")])) by reflexivity.
  assert (Hm : Annotations (separatedClaim "env=prod;novalue;team=infra") !! provisionerKey =
               Some ebsProvisioner) by (by vm_compute).
  assert (Ht : Annotations (separatedClaim "env=prod;novalue;team=infra") !! tagsKey =
               Some "env=prod;novalue;team=infra") by (by vm_compute).
  destruct (accepted_claim_reconciled (W := Sim) verbose Background
              (added (separatedClaim "env=prod;novalue;team=infra"))
              (separatedClaim "env=prod;novalue;team=infra")
              (start (cloud [("env", "prod")])) ebsVolume
              {| VolumeID := "aws://eu-west-1b/vol-0123456789abcdef0" |}
              (cloud [("env", "prod")]) "env=prod;novalue;team=infra"
              eq_refl (or_introl eq_refl) Hg eq_refl Hm Ht ltac:(discriminate)
              createUp "eu-west-1" "vol-0123456789abcdef0" [("env", "prod")]
              (cloud [("env", "prod")])
              eq_refl Sim_reliable eq_refl eq_refl eq_refl eq_refl)
    as (w3 & Hup & E).
  exists w3. split; [exact Hup|]. clear Hg Hm Ht Hup.
  etransitivity; [exact E|]. clear E. by vm_compute.
Defined.

Lemma splitVol_ignores_further_segments_witness :
  splitVol "aws://eu-west-1b/vol-0123456789abcdef0/snap/1" = Done ("eu-west-1", "vol-0123456789abcdef0").
Proof.
  destruct (splitVol_ignores_further_segments "aws" "eu-west-1b" "vol-0123456789abcdef0"
              "snap/1" eq_refl eq_refl eq_refl) as [E1 E2].
  etransitivity; [exact E1|]. etransitivity; [exact E2|]. reflexivity.
Defined.

(** ** The region of a volume *)

Lemma ReplaceTrailingLower_last (zone : string) :
  (exists c, isLowerAZ c = true /\ zone = ReplaceTrailingLower zone +:+ String c "") \/
  (ReplaceTrailingLower zone = zone /\
   forall pre c, zone = pre +:+ String c "" -> isLowerAZ c = false).
Proof.
  induction zone as [|a z IH].
  - right. split; [done|]. intros [|p pre] c E; discriminate E.
  - destruct z as [|b z'].
    + cbn [ReplaceTrailingLower]. destruct (isLowerAZ a) eqn:Ea.
      * left. by exists a.
      * right. split; [done|]. intros [|p [|q pre]] c E; try discriminate E.
        by injection E as ->.
    + change (ReplaceTrailingLower (String a (String b z')))
        with (String a (ReplaceTrailingLower (String b z'))).
      destruct IH as [(c & Hc & E)|[E Hlast]].
      * left. exists c. split; [done|]. by rewrite append_cons, <- E.
      * right. rewrite E. split; [done|]. intros [|p pre] c E'; [discriminate E'|].
        rewrite append_cons in E'. injection E' as _ E'. by apply (Hlast pre).
Qed.

(** X17.  The region handed to the session is the zone of the volume id without
    its last byte when that byte is a lowercase letter, and the zone as it is
    otherwise: one byte is dropped at most, so a region in the place of the
    zone passes unchanged and a zone that ends in two letters loses one. *)
Theorem region_drops_one_letter (scheme zone vid : string) :
  CountByte "/" scheme = 0 -> CountByte "/" zone = 0 -> CountByte "/" vid = 0 ->
  let region := ReplaceTrailingLower zone in
  splitVol (scheme +:+ "://" +:+ zone +:+ "/" +:+ vid) = Done (region, vid) /\
  ((exists c, isLowerAZ c = true /\ zone = region +:+ String c "") \/
   (region = zone /\ forall pre c, zone = pre +:+ String c "" -> isLowerAZ c = false)).
Proof.
  intros Hs Hz Hv region. split.
  - unfold splitVol. by rewrite Split_volume_url.
  - apply ReplaceTrailingLower_last.
Qed.

Lemma region_drops_one_letter_witness :
  splitVol "aws://eu-west-1b/vol-0123456789abcdef0" =
    Done ("eu-west-1", "vol-0123456789abcdef0") /\
  splitVol "aws://eu-west-1/vol-0123456789abcdef0" =
    Done ("eu-west-1", "vol-0123456789abcdef0") /\
  splitVol "aws://zone-ab/vol-0123456789abcdef0" = Done ("zone-a", "vol-0123456789abcdef0").
Proof.
  split; [|split].
  - exact (proj1 (region_drops_one_letter "aws" "eu-west-1b" "vol-0123456789abcdef0"
                    eq_refl eq_refl eq_refl)).
  - exact (proj1 (region_drops_one_letter "aws" "eu-west-1" "vol-0123456789abcdef0"
                    eq_refl eq_refl eq_refl)).
  - exact (proj1 (region_drops_one_letter "aws" "zone-ab" "vol-0123456789abcdef0"
                    eq_refl eq_refl eq_refl)).
Defined.

(** ** Splitting loses nothing *)

Lemma splitFrom_nonempty (sep : string) (k : nat) (s : string) : splitFrom sep k s <> [].
Proof.
  revert k. induction s as [|c s IH]; intros k; [done|].
  cbn [splitFrom]. destruct k as [|k]; [|apply IH].
  destruct (HasPrefix (String c s) sep); [done|].
  specialize (IH 0). by destruct (splitFrom sep 0 s).
Qed.

Lemma HasPrefix_true (s p : string) : HasPrefix s p = true -> exists t, s = p +:+ t.
Proof.
  revert s. induction p as [|a p IH]; intros s; [by exists s|].
  destruct s as [|b s]; cbn [HasPrefix]; [done|].
  destruct (Ascii.eqb_spec a b) as [->|]; [|done].
  intros H. destruct (IH s H) as [t ->]. by exists t.
Qed.

Lemma JoinWith_consHead (sep : string) (c : ascii) (ps : list string) :
  JoinWith sep (consHead c ps) = String c (JoinWith sep ps).
Proof. destruct ps as [|p [|q ps]]; reflexivity. Qed.

Lemma JoinWith_cons (sep p : string) (ps : list string) :
  ps <> [] -> JoinWith sep (p :: ps) = p +:+ sep +:+ JoinWith sep ps.
Proof. by destruct ps. Qed.

Lemma append_length (s t : string) : String.length (s +:+ t) = String.length s + String.length t.
Proof.
  induction s as [|c s IH]; [reflexivity|].
  rewrite append_cons. cbn [String.length]. by rewrite IH.
Qed.

Lemma JoinWith_splitFrom (sep : string) (n : nat) :
  sep <> "" ->
  forall s, String.length s <= n -> JoinWith sep (splitFrom sep 0 s) = s.
Proof.
  intros Hsep. induction n as [|n IH]; intros s Hlen.
  - destruct s; [reflexivity|cbn in Hlen; lia].
  - destruct s as [|c s]; [reflexivity|].
    destruct (HasPrefix (String c s) sep) eqn:Hp.
    + destruct (HasPrefix_true _ _ Hp) as [t Ht].
      pose proof (Split_separator sep t Hsep) as E. unfold Split in E.
      destruct sep as [|a p]; [done|]. rewrite Ht, E.
      rewrite JoinWith_cons by apply splitFrom_nonempty.
      rewrite IH; [reflexivity|].
      assert (Hl : String.length (String c s) = String.length (String a p +:+ t))
        by by rewrite Ht.
      rewrite append_length in Hl. cbn [String.length] in Hl, Hlen. lia.
    + pose proof (Split_advance sep s c Hsep Hp) as E. unfold Split in E.
      destruct sep as [|a p]; [done|]. rewrite E, JoinWith_consHead.
      rewrite IH; [reflexivity|]. cbn [String.length] in Hlen. lia.
Qed.

(** X18.  The tokens of a tag list, joined again with the separator, are the tag
    list: with a separator that is not empty, splitting drops nothing but the
    separators and invents nothing, and there is always at least one
    token. *)
Theorem tokens_join_to_tag_list (awsTags separator : string) :
  separator <> "" ->
  JoinWith separator (Split awsTags separator) = awsTags /\
  Split awsTags separator <> [].
Proof.
  intros Hsep. destruct separator as [|a p]; [done|]. unfold Split. split.
  - by apply (JoinWith_splitFrom _ (String.length awsTags)).
  - apply splitFrom_nonempty.
Qed.

(** ** The order of a Go map *)

Lemma assoc_Permutation {A} (k : string) (l l' : list (string * A)) :
  NoDup l.*1 -> l ≡ₚ l' -> assoc k l = assoc k l'.
Proof.
  intros Hnd Hp.
  assert (Hnd' : NoDup l'.*1) by by rewrite <- Hp.
  destruct (assoc k l) as [a|] eqn:E.
  - symmetry. apply assoc_elem_of; [done|]. rewrite <- Hp. by apply assoc_elem_of.
  - destruct (assoc k l') as [a|] eqn:E'; [|done].
    apply assoc_elem_of in E'; [|done]. rewrite <- Hp in E'.
    apply assoc_elem_of in E'; [|done]. congruence.
Qed.

(** X19.  Go hands out the entries of a map in no fixed order.  Neither the
    filter nor the scan for the separator and the tag list depends on it: on
    every enumeration of the annotations of a claim the filter answers
    whether the provisioner key holds the EBS value, and the scan finds the
    separator (a comma without the key) and the tag list (empty without the
    key). *)
Theorem annotation_order_irrelevant (m : gmap string string) (kvs : list (string * string)) :
  kvs ≡ₚ map_to_list m ->
  isEBSAnnotated kvs = bool_decide (m !! provisionerKey = Some ebsProvisioner) /\
  scanAnnotations kvs = (default "," (m !! separatorKey), default "" (m !! tagsKey)).
Proof.
  intros Hp.
  assert (Hnd : NoDup kvs.*1) by (rewrite Hp; apply NoDup_fst_map_to_list).
  split.
  - apply eq_true_iff_eq. rewrite isEBSAnnotated_elem_of, Hp, elem_of_map_to_list.
    by rewrite bool_decide_eq_true.
  - unfold scanAnnotations. rewrite scanStep_assoc by done.
    by rewrite !(assoc_Permutation _ kvs (map_to_list m)), !assoc_map_to_list.
Qed.

Lemma tokens_join_to_tag_list_witness :
  JoinWith "," (Split "env=prod,,team=infra," ",") = "env=prod,,team=infra," /\
  Split "" "," <> [].
Proof.
  split.
  - apply (tokens_join_to_tag_list "env=prod,,team=infra," ","). discriminate.
  - apply (tokens_join_to_tag_list "" ","). discriminate.
Defined.

Lemma annotation_order_irrelevant_witness :
  let m := Annotations (separatedClaim "env=prod;team=infra") in
  isEBSAnnotated (reverse (map_to_list m)) = true /\
  scanAnnotations (reverse (map_to_list m)) = (";", "env=prod;team=infra").
Proof.
  cbn zeta.
  destruct (annotation_order_irrelevant
              (Annotations (separatedClaim "env=prod;team=infra"))
              (reverse (map_to_list (Annotations (separatedClaim "env=prod;team=infra"))))
              (reverse_Permutation _)) as [Hf Hs].
  split.
  - etransitivity; [exact Hf|]. clear Hf Hs. by vm_compute.
  - etransitivity; [exact Hs|]. clear Hf Hs. by vm_compute.
Defined.

(** ** An empty separator *)

Lemma continuation_not_equals (lo hi : N) (b : ascii) :
  (128 <= lo)%N -> inRange lo hi (Some (N_of_ascii b)) = true -> b <> "="%char.
Proof.
  intros Hlo Hr ->. unfold inRange in Hr. cbn in Hr.
  apply andb_true_iff in Hr as [Hr _]. apply N.leb_le in Hr. lia.
Qed.

(** A sequence of two bytes or more starts with a byte that is not [=] and
    goes on with bytes that are not [=]. *)
Lemma runeWidth_multi (c : ascii) (s : string) (j : nat) :
  runeWidth (String c s) = S (S j) -> c <> "="%char /\ noEqualsIn (S j) s.
Proof.
  unfold runeWidth, cont. cbn [byteAt String.get].
  destruct (N.ltb_spec (N_of_ascii c) 194) as [|H194]; [discriminate|].
  intros H. split; [intros ->; cbn in H194; lia|].
  assert (Hlo : forall x : bool, (128 <= (if x then 160 else 128))%N) by (intros []; lia).
  assert (Hlo' : forall x : bool, (128 <= (if x then 144 else 128))%N) by (intros []; lia).
  assert (Hnone : forall lo hi, inRange lo hi None = false) by done.
  destruct (N_of_ascii c <? 224)%N.
  { destruct s as [|b1 s]; cbn [byteAt String.get] in H;
      [rewrite Hnone in H; discriminate H|].
    destruct (inRange 128 191 (Some (N_of_ascii b1))) eqn:E1; [|discriminate H].
    injection H as <-. cbn. split; [|done].
    by apply (continuation_not_equals 128 191). }
  destruct (N_of_ascii c <? 240)%N.
  { set (lo := if (N_of_ascii c =? 224)%N then 160%N else 128%N) in *.
    set (hi := if (N_of_ascii c =? 237)%N then 159%N else 191%N) in *.
    destruct s as [|b1 [|b2 s]]; cbn [byteAt String.get] in H.
    - rewrite Hnone in H. discriminate H.
    - rewrite Hnone, andb_false_r in H. discriminate H.
    - destruct (inRange lo hi (Some (N_of_ascii b1))) eqn:E1; [|discriminate H].
      destruct (inRange 128 191 (Some (N_of_ascii b2))) eqn:E2; [|discriminate H].
      injection H as <-. cbn. split; [|split; [|done]].
      + apply (continuation_not_equals lo hi); [apply Hlo|done].
      + by apply (continuation_not_equals 128 191). }
  destruct (N_of_ascii c <? 245)%N; [|discriminate H].
  set (lo := if (N_of_ascii c =? 240)%N then 144%N else 128%N) in *.
  set (hi := if (N_of_ascii c =? 244)%N then 143%N else 191%N) in *.
  destruct s as [|b1 [|b2 [|b3 s]]]; cbn [byteAt String.get] in H.
  - rewrite Hnone in H. discriminate H.
  - rewrite Hnone, andb_false_r in H. discriminate H.
  - rewrite Hnone, andb_false_r in H. discriminate H.
  - destruct (inRange lo hi (Some (N_of_ascii b1))) eqn:E1; [|discriminate H].
    destruct (inRange 128 191 (Some (N_of_ascii b2))) eqn:E2; [|discriminate H].
    destruct (inRange 128 191 (Some (N_of_ascii b3))) eqn:E3; [|discriminate H].
    injection H as <-. cbn. repeat split.
    + apply (continuation_not_equals lo hi); [apply Hlo'|done].
    + by apply (continuation_not_equals 128 191).
    + by apply (continuation_not_equals 128 191).
Qed.

Lemma parseTag_single (c : ascii) :
  parseTag (String c "") = if Ascii.eqb c "=" then Some ("", "") else None.
Proof.
  unfold parseTag. rewrite (Split_byte_cons "="%char), (Ascii.eqb_sym c).
  by destruct (Ascii.eqb "=" c).
Qed.

Lemma parsed_cons_none (tag : string) (tags : list string) :
  CountByte "=" tag = 0 -> parsed (tag :: tags) = parsed tags.
Proof.
  intros Hc. unfold parsed. cbn [omap list_omap].
  by rewrite (proj2 (parseTag_None tag)) by lia.
Qed.

Lemma CountByte_cons_other (c : ascii) (s : string) :
  c <> "="%char -> CountByte "=" (String c s) = CountByte "=" s.
Proof. intros Hc. cbn [CountByte]. by destruct (Ascii.eqb_spec c "="). Qed.

Lemma explodeFrom_pairs (s : string) (k : nat) :
  noEqualsIn k s ->
  match k with
  | 0 => parsed (explodeFrom 0 s) = replicate (CountByte "=" s) ("", "")
  | S _ =>
      match explodeFrom k s with
      | [] => s = ""
      | hd :: tl =>
          CountByte "=" hd = 0 /\ parsed tl = replicate (CountByte "=" s) ("", "")
      end
  end.
Proof.
  revert k. induction s as [|c s IH]; intros k Hk; [by destruct k|].
  destruct k as [|k].
  - cbn [explodeFrom].
    destruct (runeWidth (String c s) - 1) as [|j] eqn:Ew.
    + unfold parsed. cbn [omap list_omap CountByte]. rewrite parseTag_single.
      fold (parsed (explodeFrom 0 s)). rewrite (IH 0 Logic.I).
      by destruct (Ascii.eqb c "=").
    + destruct (runeWidth_multi c s j) as [Hc Hs]; [lia|].
      specialize (IH (S j) Hs). rewrite CountByte_cons_other by done.
      destruct (explodeFrom (S j) s) as [|hd tl].
      * subst s. cbn [consHead]. rewrite parsed_cons_none; [done|].
        by rewrite CountByte_cons_other.
      * destruct IH as [Hhd Htl]. cbn [consHead].
        rewrite parsed_cons_none; [done|]. by rewrite CountByte_cons_other.
  - destruct Hk as [Hc Hs]. cbn [explodeFrom]. rewrite CountByte_cons_other by done.
    destruct k as [|i].
    + split; [by rewrite CountByte_cons_other|]. exact (IH 0 Logic.I).
    + specialize (IH (S i) Hs).
      destruct (explodeFrom (S i) s) as [|hd tl]; cbn [consHead].
      * subst s. split; [by rewrite CountByte_cons_other|done].
      * destruct IH as [Hhd Htl]. split; [by rewrite CountByte_cons_other|done].
Qed.

(** X20.  With an empty separator the tag list is cut into single characters:
    every [=] gives the pair of the empty key and the empty value, every
    other character is skipped as malformed, and no other pair can come
    out. *)
Theorem empty_separator_pairs (awsTags : string) :
  parsed (Split awsTags "") = replicate (CountByte "=" awsTags) ("", "") /\
  length (skipped (Split awsTags "")) + CountByte "=" awsTags = length (Split awsTags "").
Proof.
  assert (E : parsed (Split awsTags "") = replicate (CountByte "=" awsTags) ("", ""))
    by exact (explodeFrom_pairs awsTags 0 Logic.I).
  split; [exact E|].
  rewrite <- (parsed_skipped_length (Split awsTags "")), E, length_replicate. lia.
Qed.

(** ** The debug flag *)

Lemma quiet_app (tr tr' : list Obs) : quiet (tr ++ tr') = quiet tr ++ quiet tr'.
Proof. unfold quiet. induction tr as [|o tr IH]; [done|]. cbn. rewrite IH. by destruct (isDebug o). Qed.

Section Debugging.

Context {W : Type} {backend : Backend W}.

Lemma Alike_refl (s : State W) : Alike s s.
Proof. by repeat split. Qed.

Lemma Alike_bind {A B} (m m' : M W A) (k k' : A -> M W B) (s t : State W) :
  AlikeOut (m s) (m' t) ->
  (forall a s1 t1, Alike s1 t1 -> AlikeOut (k a s1) (k' a t1)) ->
  AlikeOut ((m ≫= k) s) ((m' ≫= k') t).
Proof.
  intros Hm Hk. unfold mbind, M_bind.
  destruct (m s) as [a s1|c s1|v s1], (m' t) as [b t1|d t1|u t1]; cbn in Hm; try done.
  destruct Hm as [<- Hst]. by apply Hk.
Qed.

Lemma Alike_ret {A} (a : A) (s t : State W) :
  Alike s t -> AlikeOut (mret (M := M W) a s) (mret (M := M W) a t).
Proof. by split. Qed.

Lemma Alike_emit (o : Obs) (s t : State W) : Alike s t -> AlikeOut (emit o s) (emit o t).
Proof.
  intros (Hw & Hm & Ht). unfold emit, AlikeOut, Alike. cbn [world metrics trace].
  by rewrite !quiet_app, Ht.
Qed.

Lemma Alike_Inc (f : Counters -> Counters) (s t : State W) :
  Alike s t -> AlikeOut (Inc f s) (Inc f t).
Proof. intros (Hw & Hm & Ht). unfold Inc, Alike. cbn. by rewrite Hm. Qed.

Lemma Alike_call {A} (o : Obs) (f : W -> Res A * W) (s t : State W) :
  Alike s t -> AlikeOut (call o f s) (call o f t).
Proof.
  intros (Hw & Hm & Ht). unfold call, Alike. rewrite Hw.
  destruct (f (world t)) as [r w]. unfold AlikeOut, Alike. cbn [world metrics trace].
  by rewrite !quiet_app, Ht.
Qed.

Lemma Alike_run {A} (p : Partial A) (s t : State W) :
  Alike s t -> AlikeOut (run p s) (run p t).
Proof. intros Hst. by destruct p. Qed.

Lemma Alike_Fatal {A} (entry : Entry) (msg : string) (s t : State W) :
  Alike s t -> AlikeOut (Fatal (A := A) entry msg s) (Fatal entry msg t).
Proof.
  intros (Hw & Hm & Ht). unfold Fatal, AlikeOut, Alike. cbn [world metrics trace].
  by rewrite !quiet_app, Ht.
Qed.

Lemma Alike_session (region : string) (s t : State W) :
  Alike s t -> AlikeOut (session region s) (session region t).
Proof. intros (Hw & Hm & Ht). unfold session. rewrite Hw. by repeat split. Qed.

Lemma Alike_panic {A} (e : error) (s t : State W) :
  Alike s t -> AlikeOut (panic (A := A) e s) (panic e t).
Proof. by split. Qed.

(** The one place where the flag is read. *)
Lemma Alike_debugf (b b' : bool) (entry : Entry) (msg : string) (s t : State W) :
  Alike s t ->
  AlikeOut ((if b then Debugf entry msg else mret ()) s)
           ((if b' then Debugf entry msg else mret ()) t).
Proof.
  intros (Hw & Hm & Ht).
  destruct b, b'; unfold Debugf; destruct (IsLevelEnabled DebugLevel);
    unfold emit, AlikeOut, Alike, mret, M_ret;
    cbn [world metrics trace]; rewrite ?quiet_app; cbn [quiet List.filter isDebug negb];
    by rewrite ?app_nil_r.
Qed.

Ltac alike :=
  repeat match goal with
  | H : Alike ?s ?t |- Alike ?s ?t => exact H
  | |- AlikeOut ((_ ≫= _) _) ((_ ≫= _) _) => apply Alike_bind; [|intros ? ? ? ?]
  | |- AlikeOut (mret _ _) (mret _ _) => apply Alike_ret
  | |- AlikeOut (emit _ _) (emit _ _) => apply Alike_emit
  | |- AlikeOut (Inc _ _) (Inc _ _) => apply Alike_Inc
  | |- AlikeOut (call _ _ _) (call _ _ _) => apply Alike_call
  | |- AlikeOut (run _ _) (run _ _) => apply Alike_run
  | |- AlikeOut (Fatal _ _ _) (Fatal _ _ _) => apply Alike_Fatal
  | |- AlikeOut (session _ _) (session _ _) => apply Alike_session
  | |- AlikeOut (panic _ _) (panic _ _) => apply Alike_panic
  | |- AlikeOut ((if _ then Debugf _ _ else mret ()) _) _ => apply Alike_debugf
  end.

Lemma Alike_hasTag (ctx : Ctx) (tags : list (option Tag)) (k v vol region : string)
    (s t : State W) :
  Alike s t ->
  AlikeOut (hasTag ctx tags k v vol region s) (hasTag ctx tags k v vol region t).
Proof.
  revert s t. induction tags as [|ti tags IH]; intros s t Hst; cbn [hasTag]; [alike|].
  alike. destruct (String.eqb _ k); [|by apply IH].
  alike. destruct (String.eqb _ v); [|by apply IH].
  unfold Info. alike.
Qed.

Variables flags flags' : Flags.

Hypothesis same_mode : dryrun flags = dryrun flags'.

Lemma Alike_setTag (ctx : Ctx) (svc k v vol : string) (s t : State W) :
  Alike s t -> AlikeOut (setTag flags ctx svc k v vol s) (setTag flags' ctx svc k v vol t).
Proof. intros Hst. unfold setTag. alike. destruct a; alike. Qed.

Lemma Alike_tagStep (ctx : Ctx) (svc : string) (resp : DescribeVolumesOutput)
    (vol region : string) (b : bool) (tag : string) (s t : State W) :
  Alike s t ->
  AlikeOut (tagStep flags ctx svc resp vol region b tag s)
           (tagStep flags' ctx svc resp vol region b tag t).
Proof.
  intros Hst. unfold tagStep, Info, Error.
  destruct (Split tag "=") as [|t0 [|t1 [|t2 ts]]]; alike.
  - by apply Alike_hasTag.
  - destruct (negb _); alike. by apply Alike_setTag.
Qed.

Lemma Alike_tagLoop (ctx : Ctx) (svc : string) (resp : DescribeVolumesOutput)
    (vol region : string) (tags : list string) (b : bool) (s t : State W) :
  Alike s t ->
  AlikeOut (tagLoop flags ctx svc resp vol region b tags s)
           (tagLoop flags' ctx svc resp vol region b tags t).
Proof.
  revert b s t. induction tags as [|tag tags IH]; intros b s t Hst; cbn [tagLoop]; alike.
  - by apply Alike_tagStep.
  - by apply IH.
Qed.

Lemma Alike_addAWSTags (ctx : Ctx) (awsTags id sep : string) (s t : State W) :
  Alike s t ->
  AlikeOut (addAWSTags flags ctx awsTags id sep s) (addAWSTags flags' ctx awsTags id sep t).
Proof.
  intros Hst. unfold addAWSTags, Error. alike. destruct a as [region vol].
  alike. destruct a as [[]|e]; alike. destruct a as [resp|e]; alike.
  - by apply Alike_tagLoop.
  - destruct a; alike.
Qed.

Lemma Alike_reconcileClaim (ctx : Ctx) (pvc : PersistentVolumeClaim) (id : string)
    (s t : State W) :
  Alike s t ->
  AlikeOut (reconcileClaim flags ctx pvc id s) (reconcileClaim flags' ctx pvc id t).
Proof.
  intros Hst. unfold reconcileClaim, Info, Warn. rewrite same_mode. alike.
  destruct (isEBSVolume pvc); alike.
  destruct (scanAnnotations _) as [sep awsTags].
  destruct (negb (String.eqb awsTags "")); alike.
  destruct (negb (dryrun flags')); alike. by apply Alike_addAWSTags.
Qed.

Lemma Alike_handleEvent (ctx : Ctx) (ev : Event) (s t : State W) :
  Alike s t -> AlikeOut (handleEvent flags ctx ev s) (handleEvent flags' ctx ev t).
Proof.
  intros Hst. unfold handleEvent, Error. alike.
  destruct (Object_ ev) as [pvc|]; alike.
  destruct (Type_ ev); alike.
  all: destruct a0 as [pv|e]; alike; by apply Alike_reconcileClaim.
Qed.

Lemma Alike_watchLoop (ch : list Event) (ctx : Ctx) (s t : State W) :
  Alike s t -> AlikeOut (watchLoop flags ctx ch s) (watchLoop flags' ctx ch t).
Proof.
  revert ctx s t. induction ch as [|ev ch IH]; intros ctx s t Hst; cbn [watchLoop]; alike.
  - by apply Alike_handleEvent.
  - by apply IH.
Qed.

(** X21.  The debug flag changes what is logged at debug level and nothing
    else.  Two runs in the same mode over the same events from the same
    state end the same way, with the same value, exit status or panic, in
    the same world and with the same counters, and their traces are the
    same once the debug entries are taken out: the same calls to the
    cluster and to EC2, the same entries at every other level, in the same
    order. *)
Theorem debug_flag_only_logs (ch : list Event) (ctx : Ctx) (s : State W) :
  let o := watchLoop flags ctx ch s in
  let o' := watchLoop flags' ctx ch s in
  world (final o) = world (final o') /\
  metrics (final o) = metrics (final o') /\
  quiet (trace (final o)) = quiet (trace (final o')) /\
  match o, o' with
  | Return _ _, Return _ _ => True
  | Exit c _, Exit c' _ => c = c'
  | Panicked v _, Panicked v' _ => v = v'
  | _, _ => False
  end.
Proof.
  cbn zeta. pose proof (Alike_watchLoop ch ctx s s (Alike_refl s)) as K.
  destruct (watchLoop flags ctx ch s) as [u s1|c s1|v s1],
           (watchLoop flags' ctx ch s) as [u' t1|c' t1|v' t1]; cbn in K; try done;
    destruct K as (E & Hw & Hm & Ht); by repeat split.
Qed.

End Debugging.

Lemma debug_flag_only_logs_witness :
  let o := main verbose [added (taggedClaim "env=prod,team=infra")] (start (cloud [])) in
  let o' := main normal [added (taggedClaim "env=prod,team=infra")] (start (cloud [])) in
  world (final o) = world (final o') /\
  metrics (final o) = metrics (final o') /\
  quiet (trace (final o)) = quiet (trace (final o')).
Proof.
  cbn zeta. unfold main.
  destruct (debug_flag_only_logs (W := Sim) verbose normal eq_refl
              [added (taggedClaim "env=prod,team=infra")] Background (start (cloud [])))
    as (Hw & Hm & Ht & _).
  exact (conj Hw (conj Hm Ht)).
Defined.

(** ** Startup *)

Section Starting.

Context {W Config Clientset : Type} {backend : Backend W}
        {cluster : Cluster W Config Clientset}.

(** X22.  Startup either ends the process or hands the loop the events of the
    watch.  The configuration comes from the kubeconfig path when the
    process runs locally and from the cluster otherwise, never from both.
    When the configuration, the clientset or the watch cannot be had, the
    process exits with status 1 after one fatal entry that carries the
    error, with no counter moved and no event handled; otherwise the loop
    starts with the counters and the trace as they were. *)
Theorem startup_fails_fatally (sf : StartFlags) (flags : Flags) (s : State W) :
  let fatal w e msg :=
    Exit 1 (after s w (fun c => c) [Logged FatalLevel (WithError e stdEntry) msg]) in
  match (if local sf then BuildConfigFromFlags (kubeconfig sf) (world s)
         else InClusterConfig (world s)) with
  | Err e =>
      process sf flags s =
      fatal (world s) e
            (if local sf then "Error creating config from kubeconfig: " +:+ kubeconfig sf
             else "Error building In Cluster Config")
  | OK config =>
      match NewForConfig config (world s) with
      | Err e => process sf flags s = fatal (world s) e "Error creating clientset"
      | OK clientset =>
          match WatchClaims clientset (world s) with
          | (Err e, w) => process sf flags s = fatal w e "Error creating PVC watcher"
          | (OK ch, w) =>
              process sf flags s = main flags ch (Build_State w (metrics s) (trace s))
          end
      end
  end.
Proof.
  cbn zeta. unfold process, startup, mbind, M_bind, ask, Fatal, after, mret, M_ret.
  destruct (local sf); cbn [negb].
  - destruct (BuildConfigFromFlags (kubeconfig sf) (world s)) as [config|e];
      [|reflexivity].
    destruct (NewForConfig config (world s)) as [clientset|e]; [|reflexivity].
    destruct (WatchClaims clientset (world s)) as [[ch|e] w]; reflexivity.
  - destruct (InClusterConfig (world s)) as [config|e]; [|reflexivity].
    destruct (NewForConfig config (world s)) as [clientset|e]; [|reflexivity].
    destruct (WatchClaims clientset (world s)) as [[ch|e] w]; reflexivity.
Qed.

End Starting.

Lemma startup_fails_fatally_witness :
  process {| local := true; kubeconfig := "/home/dev/.kube/config" |} normal
          {| world := noKubeconfig [added (taggedClaim "env=prod")] (cloud []);
             metrics := zeroCounters; trace := [] |} =
  Exit 1
    {| world := noKubeconfig [added (taggedClaim "env=prod")] (cloud []);
       metrics := zeroCounters;
       trace :=
         [Logged FatalLevel
            (WithError "stat /home/dev/.kube/config: no such file or directory" stdEntry)
            "Error creating config from kubeconfig: /home/dev/.kube/config"] |} /\
  process {| local := false; kubeconfig := "" |} normal
          {| world := noKubeconfig [stray] (cloud []);
             metrics := zeroCounters; trace := [] |} =
  main normal [stray]
       {| world := noKubeconfig [stray] (cloud []); metrics := zeroCounters; trace := [] |}.
Proof.
  split.
  - exact (startup_fails_fatally (W := Boot)
             {| local := true; kubeconfig := "/home/dev/.kube/config" |} normal
             {| world := noKubeconfig [added (taggedClaim "env=prod")] (cloud []);
                metrics := zeroCounters; trace := [] |}).
  - exact (startup_fails_fatally (W := Boot)
             {| local := false; kubeconfig := "" |} normal
             {| world := noKubeconfig [stray] (cloud []);
                metrics := zeroCounters; trace := [] |}).
Defined.
